(** * pangeo_forge.recipe: indexing and pipeline stages of the NetCDF-to-Zarr recipes

    A shallow embedding of [pangeo_forge/recipe.py].  Python integers are [Z],
    Python dictionaries are insertion-ordered association lists, exceptions
    are values of [exn], and the stage functions are computations in a
    state-and-exception monad whose state holds the recipe object ([self])
    together with the stores it talks to. *)

From Stdlib Require Import String ZArith List Bool Lia.
From Stdlib Require Import Strings.Byte.
Import ListNotations.
Local Open Scope string_scope.
Local Open Scope list_scope.
Local Open Scope Z_scope.

(** ** Keys with a boolean equality (Python hashables) *)

Class Key (K : Type) := {
  key_eqb : K -> K -> bool;
  key_eqb_eq : forall a b, key_eqb a b = true <-> a = b
}.

#[export] Instance Z_Key : Key Z :=
  {| key_eqb := Z.eqb; key_eqb_eq := Z.eqb_eq |}.

#[export] Instance string_Key : Key string :=
  {| key_eqb := String.eqb; key_eqb_eq := String.eqb_eq |}.

Definition pair_eqb {A B} `{Key A} `{Key B} (x y : A * B) : bool :=
  key_eqb (fst x) (fst y) && key_eqb (snd x) (snd y).

Lemma pair_eqb_eq {A B} `{Key A} `{Key B} (x y : A * B) :
  pair_eqb x y = true <-> x = y.
Proof.
  destruct x as [a b], y as [a' b']; unfold pair_eqb; simpl.
  rewrite andb_true_iff, !key_eqb_eq. split.
  - intros [-> ->]; reflexivity.
  - intros E; inversion E; auto.
Qed.

#[export] Instance pair_Key {A B} `{Key A} `{Key B} : Key (A * B) :=
  {| key_eqb := pair_eqb; key_eqb_eq := pair_eqb_eq |}.

Lemma key_eqb_refl {K} `{Key K} (k : K) : key_eqb k k = true.
Proof. apply key_eqb_eq; reflexivity. Qed.

Lemma key_eqb_neq {K} `{Key K} (a b : K) : key_eqb a b = false <-> a <> b.
Proof.
  split.
  - intros E ->. rewrite key_eqb_refl in E. discriminate.
  - intros N. destruct (key_eqb a b) eqn:E; [|reflexivity].
    apply key_eqb_eq in E. contradiction.
Qed.

(** ** Python dictionaries

    A [dict] keeps its keys in insertion order; assigning to a key that is
    already present replaces the value in place. *)

Section Dict.
Context {K V : Type} `{Key K}.

Definition dict := list (K * V).

Fixpoint dict_get (d : dict) (k : K) : option V :=
  match d with
  | [] => None
  | (k', v) :: d' => if key_eqb k k' then Some v else dict_get d' k
  end.

Fixpoint dict_set (d : dict) (k : K) (v : V) : dict :=
  match d with
  | [] => [(k, v)]
  | (k', v') :: d' =>
      if key_eqb k k' then (k', v) :: d' else (k', v') :: dict_set d' k v
  end.

(** [for k, v in l: d[k] = v] *)
Definition dict_update (d : dict) (l : list (K * V)) : dict :=
  fold_left (fun d kv => dict_set d (fst kv) (snd kv)) l d.

(** [{k: v for k, v in l}] *)
Definition dict_of_pairs (l : list (K * V)) : dict := dict_update [] l.

Definition dict_keys (d : dict) : list K := map fst d.
End Dict.

Arguments dict : clear implicits.

(** [enumerate(l)], counting from [start]. *)
Fixpoint enumerate_from {A} (start : Z) (l : list A) : list (Z * A) :=
  match l with
  | [] => []
  | x :: l' => (start, x) :: enumerate_from (start + 1) l'
  end.

Definition enumerate {A} (l : list A) : list (Z * A) := enumerate_from 0 l.

(** Python's [sum] over a list of integers. *)
Definition sum (l : list Z) : Z := fold_left Z.add l 0.

(** ** Exceptions and fallible pure code *)

Inductive exn :=
| ValueError
| KeyError
| StopIteration
| FileNotFoundError
| IOError
| AttributeError (attr : string)
| UninitializedTargetError
| RuntimeError
| LibraryError (msg : string).

Inductive result (A : Type) :=
| Ok (a : A)
| Raise (e : exn).
Arguments Ok {A} a.
Arguments Raise {A} e.

Definition rbind {A B} (m : result A) (k : A -> result B) : result B :=
  match m with
  | Ok a => k a
  | Raise e => Raise e
  end.

Declare Scope result_scope.
Delimit Scope result_scope with result.
Notation "'let?' x ':=' m 'in' k" := (rbind m (fun x => k))
  (at level 100, x pattern, m at level 99, k at level 200,
   right associativity) : result_scope.

Fixpoint rmap {A B} (f : A -> result B) (l : list A) : result (list B) :=
  match l with
  | [] => Ok []
  | x :: l' =>
      (let? y := f x in let? ys := rmap f l' in Ok (y :: ys))%result
  end.

(** ** utils.chunked_iterable *)

Fixpoint chunked_fuel {A} (fuel size : nat) (l : list A) : list (list A) :=
  match fuel with
  | O => []
  | S fuel' =>
      match l with
      | [] => []
      | _ :: _ => firstn size l :: chunked_fuel fuel' size (skipn size l)
      end
  end.

(** Modelled from the spec: [utils.chunked_iterable] is not among the
    sources.  Section 4.3: "partition the ordered InputKey sequence into
    fixed-size groups of [inputs_per_chunk] (the final group may be
    smaller)".  The spec asks for a group size of at least one; for any other
    size this model forms no group.  The fuel is the length of the list, one
    unit per group, which always suffices. *)
Definition chunked_iterable {A} (l : list A) (size : Z) : list (list A) :=
  if size <=? 0 then [] else chunked_fuel (length l) (Z.to_nat size) l.

(** ** External collaborators

    File contents are byte strings; keyword-argument bags are passed through
    uninterpreted. *)

Definition Data := list byte.
Definition Kwargs := list (string * string).

(** The operations of xarray that the recipe calls, and the one helper of
    [utils] applied to an opened dataset.  They are a parameter of the whole
    development. *)
Class XarrayLib := {
  Dataset : Type;
  (** [xr.open_dataset(f, **kwargs).load()] *)
  xr_open_dataset : Data -> Kwargs -> result Dataset;
  (** [utils.fix_scalar_attr_encoding] *)
  fix_scalar_attr_encoding : Dataset -> Dataset;
  (** [for var in ds.variables: ds[var].encoding = {}] *)
  clear_encoding : Dataset -> Dataset;
  (** [xr.concat(dsets, dim, **kwargs)] *)
  xr_concat : list Dataset -> option string -> Kwargs -> result Dataset;
  (** [xr.merge(dsets, compat="identical", join="exact", combine_attrs="override")] *)
  xr_merge : list Dataset -> result Dataset;
  (** [ds.chunk()] and [ds.chunk(target_chunks)] *)
  ds_chunk : option (dict string Z) -> Dataset -> Dataset;
  (** [ds.drop_vars([v for v in ds.variables if dim not in ds[v].dims])] *)
  drop_vars_without : option string -> Dataset -> Dataset
}.

(** ** The recipe object *)

Record InputRecord := {
  url : string;
  processed : bool
}.

Section RecipeData.
Context {X : XarrayLib}.

(** The dataclass fields of [NetCDFtoZarrRecipe]; [target] and
    [input_cache] are the two stores of the state below. *)
Record Config := {
  sequence_dim : option string;
  inputs_per_chunk : Z;
  nitems_per_input : Z;
  require_cache : bool;
  consolidate_zarr : bool;
  xarray_open_kwargs : Kwargs;
  xarray_concat_kwargs : Kwargs;
  delete_input_encoding : bool;
  fsspec_open_kwargs : Kwargs;
  process_input : option (Dataset -> string -> Dataset);
  process_chunk : option (Dataset -> Dataset);
  target_chunks : option (dict string Z)
}.

(** [self.target_chunks.get(self.sequence_dim)]; no key of a
    [Dict[str, int]] equals [None]. *)
Definition target_chunks_get (tc : dict string Z) (dim : option string)
  : option Z :=
  match dim with
  | Some d => dict_get tc d
  | None => None
  end.

(** [NetCDFtoZarrRecipe.__post_init__]: an empty mapping, a missing entry
    and an entry equal to zero are all falsy and skip the checks. *)
Definition base_post_init (c : Config) : result unit :=
  match target_chunks c with
  | None => Ok tt
  | Some [] => Ok tt
  | Some tc =>
      match target_chunks_get tc (sequence_dim c) with
      | None => Ok tt
      | Some sequence_dim_chunks =>
          if sequence_dim_chunks =? 0 then Ok tt
          else if sequence_dim_chunks >? nitems_per_input c
          then Raise ValueError
          else if nitems_per_input c mod sequence_dim_chunks >? 0
          then Raise ValueError
          else Ok tt
      end
  end.

(** The attributes set by the subclasses' [__post_init__]; [Ext] holds the
    fields a subclass declares on top of the base class. *)
Record Recipe (IK CK Ext : Type) := {
  config : Config;
  subclass_fields : Ext;
  processed_input_nb : Z;
  _inputs : dict IK InputRecord;
  _chunks_inputs : dict CK (list IK);
  _init_chunks : list CK
}.
End RecipeData.

Arguments config {X IK CK Ext} _.
Arguments subclass_fields {X IK CK Ext} _.
Arguments processed_input_nb {X IK CK Ext} _.
Arguments _inputs {X IK CK Ext} _.
Arguments _chunks_inputs {X IK CK Ext} _.
Arguments _init_chunks {X IK CK Ext} _.

(** ** Index look-ups of the base class *)

Section BaseIndex.
Context {X : XarrayLib} {IK CK Ext : Type} `{Key IK} `{Key CK}.
Local Abbreviation Self := (Recipe IK CK Ext).

(** [self._chunks_inputs[chunk_key]] *)
Definition inputs_for_chunk (self : Self) (chunk_key : CK)
  : result (list IK) :=
  match dict_get (_chunks_inputs self) chunk_key with
  | Some inputs => Ok inputs
  | None => Raise KeyError
  end.

Definition iter_chunks (self : Self) : list CK :=
  dict_keys (_chunks_inputs self).

Definition iter_inputs (self : Self) : result (list IK) :=
  (let? per_chunk := rmap (inputs_for_chunk self) (iter_chunks self) in
   Ok (concat per_chunk))%result.

Definition nitems_for_chunk (self : Self) (chunk_key : CK) : result Z :=
  (let? inputs := inputs_for_chunk self chunk_key in
   Ok (nitems_per_input (config self) * Z.of_nat (length inputs)))%result.

(** [self._inputs[input_key]] *)
Definition input_record (self : Self) (input_key : IK)
  : result InputRecord :=
  match dict_get (_inputs self) input_key with
  | Some rec => Ok rec
  | None => Raise KeyError
  end.
End BaseIndex.

(** The two methods every concrete recipe class supplies. *)
Class Variant {X : XarrayLib} (IK CK Ext : Type) := {
  chunk_position : CK -> Z;
  sequence_len : Recipe IK CK Ext -> result Z
}.

(** A region [{sequence_dim: slice(start, stop)}]. *)
Record Region := {
  region_dim : option string;
  region_start : Z;
  region_stop : Z
}.

Section RegionMapper.
Context {X : XarrayLib} {IK CK Ext : Type} `{Key IK} `{Key CK}
        `{!Variant IK CK Ext}.
Local Abbreviation Self := (Recipe IK CK Ext).

Definition region_for_chunk (self : Self) (chunk_key : CK)
  : result Region :=
  let stride := nitems_per_input (config self) * inputs_per_chunk (config self) in
  let start := chunk_position chunk_key * stride in
  (let? n := nitems_for_chunk self chunk_key in
   Ok {| region_dim := sequence_dim (config self);
         region_start := start;
         region_stop := start + n |})%result.

Definition sequence_chunks (self : Self) : option string * Z :=
  (sequence_dim (config self),
   inputs_per_chunk (config self) * nitems_per_input (config self)).
End RegionMapper.

(** ** patterns

    Modelled from the spec: [patterns.ExplicitURLSequence] and
    [patterns.VariableSequencePattern] are not among the sources.  Section
    4.1: a sequential pattern is "a single flat ordered list of locations;
    InputKey = position"; a multi-axis pattern is "a Cartesian enumeration
    over an axis set (e.g., variable names) crossed with a sequence-position
    set; InputKey = (axis-value, position)", both sets being exposed. *)

Definition ExplicitURLSequence (urls : list string) : list (Z * string) :=
  enumerate urls.

Record VariableSequencePattern := {
  pattern_format : string -> Z -> string;
  (** [keys["variable"]] *)
  pattern_variables : list string;
  (** [keys[_sequence_key]] *)
  pattern_sequence : list Z
}.

Definition pattern_iter (p : VariableSequencePattern)
  : list ((string * Z) * string) :=
  flat_map
    (fun v => map (fun n => ((v, n), pattern_format p v n)) (pattern_sequence p))
    (pattern_variables p).

(** ** NetCDFtoZarrSequentialRecipe *)

Module Sequential.
Section Defs.
Context {X : XarrayLib}.

(** [processed_input_urls] and [input_urls]. *)
Definition Fields : Type := list string * list string.
Definition Self : Type := Recipe Z Z Fields.

(** [k: {"url": v, "processed": k < self.processed_input_nb}] *)
Definition input_record_of (processed_input_nb : Z) (kv : Z * string)
  : Z * InputRecord :=
  (fst kv, {| url := snd kv; processed := fst kv <? processed_input_nb |}).

Definition build_inputs (processed_input_nb : Z)
    (input_pattern : list (Z * string)) : dict Z InputRecord :=
  dict_of_pairs (map (input_record_of processed_input_nb) input_pattern).

Definition build_chunks_inputs (inputs : dict Z InputRecord)
    (inputs_per_chunk : Z) : dict Z (list Z) :=
  dict_of_pairs (enumerate (chunked_iterable (dict_keys inputs) inputs_per_chunk)).

(** [__post_init__]; [next(iter(self._chunks_inputs))] raises
    [StopIteration] on an empty dictionary. *)
Definition post_init (c : Config) (processed_input_urls input_urls : list string)
  : result Self :=
  (let? _ := base_post_init c in
   let nb := Z.of_nat (length processed_input_urls) in
   let input_pattern := ExplicitURLSequence (processed_input_urls ++ input_urls) in
   let inputs := build_inputs nb input_pattern in
   let chunks_inputs := build_chunks_inputs inputs (inputs_per_chunk c) in
   match dict_keys chunks_inputs with
   | [] => Raise StopIteration
   | first :: _ =>
       Ok {| config := c;
             subclass_fields := (processed_input_urls, input_urls);
             processed_input_nb := nb;
             _inputs := inputs;
             _chunks_inputs := chunks_inputs;
             _init_chunks := [first] |}
   end)%result.

#[export] Instance variant : Variant Z Z Fields := {|
  chunk_position := fun chunk_key => chunk_key;
  sequence_len := fun self =>
    (let? ns := rmap (nitems_for_chunk self) (iter_chunks self) in
     Ok (sum ns))%result
|}.
End Defs.
End Sequential.

(** ** NetCDFtoZarrMultiVarSequentialRecipe *)

Module MultiVar.
Section Defs.
Context {X : XarrayLib}.

Definition IKey : Type := string * Z.
Definition CKey : Type := string * Z.

(** [input_pattern] and [_variables]. *)
Definition Fields : Type := VariableSequencePattern * list string.
Definition Self : Type := Recipe IKey CKey Fields.

Definition build_inputs (p : VariableSequencePattern) : dict IKey InputRecord :=
  dict_of_pairs
    (map (fun kv => (fst kv, {| url := snd kv; processed := false |}))
         (pattern_iter p)).

(** [[k[1] for k in self._inputs if k[0] == vname]] *)
Definition sequence_keys (inputs : dict IKey InputRecord) (vname : string)
  : list Z :=
  map snd (filter (fun k => key_eqb (fst k) vname) (dict_keys inputs)).

(** The assignments of the inner loop for [vname]:
    [chunks_inputs[(vname, chunk_key)] = [(vname, k) for k in chunk_inputs]]. *)
Definition chunk_pairs (inputs : dict IKey InputRecord)
    (inputs_per_chunk : Z) (vname : string) : list (CKey * list IKey) :=
  map (fun kc =>
         ((vname, fst kc),
          map (fun input_sequence_key => (vname, input_sequence_key))
              (snd kc)))
      (enumerate (chunked_iterable (sequence_keys inputs vname)
                                   inputs_per_chunk)).

(** The body of the loop over [self._variables]. *)
Definition add_variable_chunks (inputs : dict IKey InputRecord)
    (inputs_per_chunk : Z) (chunks_inputs : dict CKey (list IKey))
    (vname : string) : dict CKey (list IKey) :=
  dict_update chunks_inputs (chunk_pairs inputs inputs_per_chunk vname).

Definition build_chunks_inputs (inputs : dict IKey InputRecord)
    (inputs_per_chunk : Z) (variables : list string)
  : dict CKey (list IKey) :=
  fold_left (add_variable_chunks inputs inputs_per_chunk) variables [].

Definition post_init (c : Config) (input_pattern : VariableSequencePattern)
  : result Self :=
  (let? _ := base_post_init c in
   let variables := pattern_variables input_pattern in
   let inputs := build_inputs input_pattern in
   let chunks_inputs := build_chunks_inputs inputs (inputs_per_chunk c) variables in
   Ok {| config := c;
         subclass_fields := (input_pattern, variables);
         processed_input_nb := 0;
         _inputs := inputs;
         _chunks_inputs := chunks_inputs;
         _init_chunks :=
           filter (fun chunk_key => snd chunk_key =? 0) (dict_keys chunks_inputs) |}
  )%result.

#[export] Instance variant : Variant IKey CKey Fields := {|
  chunk_position := fun chunk_key => snd chunk_key;
  sequence_len := fun self =>
    let n_sequence :=
      Z.of_nat (length (pattern_sequence (fst (subclass_fields self)))) in
    Ok (nitems_per_input (config self) * n_sequence)
|}.
End Defs.
End MultiVar.

(** ** The stores and the state of a run

    Modelled from the spec: [storage] (targets and caches) is not among the
    sources, and the Zarr store and the remote file system are external.
    Section 6: a Target exposes "get a mapping/handle", "open existing
    dataset or fail with not-found", "create new dataset at a given schema",
    "resize a named dimension" and "consolidate metadata"; an InputCache has
    the same open/write primitives; section 7: a store that was never
    supplied fails immediately with its own error. *)

Section Stores.
Context {X : XarrayLib}.

Record ZarrStore := {
  (** the dataset written by [initialize_target] *)
  z_schema : Dataset;
  (** the length of the sequence dimension set by a resize *)
  z_seq_len : option Z;
  (** the offset from which the sequence coordinate was zero-filled *)
  z_coord_zero_from : option Z;
  (** the chunks written so far, by region *)
  z_regions : dict (Z * Z) Dataset;
  z_consolidated : bool
}.

Inductive Event :=
| LogInfo (msg : string)
| CacheWrite (fname : string) (block : Data)
| TargetCreate
| TargetResize (dimsize : Z)
| TargetWrite (start stop : Z)
| TargetConsolidate.

Record World := {
  (** [fsspec.open(fname, mode="rb", **kwargs)] and the bytes it yields *)
  remote : string -> Kwargs -> result Data;
  (** [None]: an [UninitializedTarget] *)
  input_cache : option (dict string Data);
  (** [None]: an [UninitializedTarget]; [Some None]: no dataset yet *)
  target : option (option ZarrStore);
  (** what the run did, oldest first *)
  trace : list Event
}.

Definition set_input_cache (w : World) (c : dict string Data) : World :=
  {| remote := remote w; input_cache := Some c; target := target w;
     trace := trace w |}.

Definition set_target (w : World) (z : ZarrStore) : World :=
  {| remote := remote w; input_cache := input_cache w; target := Some (Some z);
     trace := trace w |}.

Definition emit (w : World) (e : Event) : World :=
  {| remote := remote w; input_cache := input_cache w; target := target w;
     trace := trace w ++ [e] |}.

(** [source.read(n)] on the bytes still to be read. *)
Fixpoint read_block (n : Z) (source : Data) : Data * Data :=
  match source with
  | [] => ([], [])
  | b :: rest =>
      if n <=? 0 then ([], source)
      else let (data, rest') := read_block (n - 1) rest in (b :: data, rest')
  end.

Definition BLOCK_SIZE : Z := 10000000.

(** The [while True] loop of [cache_func]: the blocks handed to
    [target.write], in order.  One unit of fuel per iteration. *)
Fixpoint copy_blocks (fuel : nat) (source : Data) : list Data :=
  match fuel with
  | O => []
  | S fuel' =>
      let (data, rest) := read_block BLOCK_SIZE source in
      match data with
      | [] => []
      | _ :: _ => data :: copy_blocks fuel' rest
      end
  end.

(** [IOError] and [FileNotFoundError], the classes the recipe catches. *)
Definition is_IOError (e : exn) : bool :=
  match e with
  | FileNotFoundError | IOError => true
  | _ => false
  end.
End Stores.

(** ** Stage functions: a state-and-exception monad *)

Inductive outcome (S A : Type) :=
| Done (a : A) (s : S)
| Fail (e : exn) (s : S).
Arguments Done {S A} a s.
Arguments Fail {S A} e s.

Definition M (S A : Type) : Type := S -> outcome S A.

Definition ret {S A} (a : A) : M S A := fun s => Done a s.

Definition bind {S A B} (m : M S A) (k : A -> M S B) : M S B :=
  fun s => match m s with
           | Done a s' => k a s'
           | Fail e s' => Fail e s'
           end.

Definition raise {S A} (e : exn) : M S A := fun s => Fail e s.

Definition lift {S A} (r : result A) : M S A :=
  match r with
  | Ok a => ret a
  | Raise e => raise e
  end.

(** [try: m  except <caught>: handler] *)
Definition try_except {S A} (m : M S A) (caught : exn -> bool)
    (handler : M S A) : M S A :=
  fun s => match m s with
           | Done a s' => Done a s'
           | Fail e s' => if caught e then handler s' else Fail e s'
           end.

Definition final_state {S A} (o : outcome S A) : S :=
  match o with
  | Done _ s => s
  | Fail _ s => s
  end.

Declare Scope stage_scope.
Delimit Scope stage_scope with stage.
Notation "'let*' x ':=' m 'in' k" := (bind m (fun x => k))
  (at level 100, x pattern, m at level 99, k at level 200,
   right associativity) : stage_scope.
Notation "m >> k" := (bind m (fun _ => k))
  (at level 100, k at level 200, right associativity) : stage_scope.

Fixpoint mapM {S A B} (f : A -> M S B) (l : list A) : M S (list B) :=
  match l with
  | [] => ret []
  | x :: l' =>
      (let* y := f x in let* ys := mapM f l' in ret (y :: ys))%stage
  end.

Section Stages.
Context {X : XarrayLib} {IK CK Ext : Type} `{Key IK} `{Key CK}
        `{!Variant IK CK Ext}.
Local Abbreviation Self := (Recipe IK CK Ext).

(** The recipe object and everything outside it. *)
Record PyState := {
  self_obj : Self;
  world : World
}.

Local Abbreviation Stage := (M PyState).
Local Open Scope stage_scope.

Definition get_self : Stage Self := fun s => Done (self_obj s) s.

Definition get_world : Stage World := fun s => Done (world s) s.

Definition put_world (w : World) : Stage unit :=
  fun s => Done tt {| self_obj := self_obj s; world := w |}.

Definition do_event (e : Event) : Stage unit :=
  let* w := get_world in put_world (emit w e).

(** [logger.info] *)
Definition log_info (msg : string) : Stage unit := do_event (LogInfo msg).

(** The keyword-argument attributes the dataclass declares; any other name
    is an [AttributeError]. *)
Definition getattr_kwargs (self : Self) (name : string) : result Kwargs :=
  if String.eqb name "xarray_open_kwargs"
  then Ok (xarray_open_kwargs (config self))
  else if String.eqb name "xarray_concat_kwargs"
  then Ok (xarray_concat_kwargs (config self))
  else if String.eqb name "fsspec_open_kwargs"
  then Ok (fsspec_open_kwargs (config self))
  else Raise (AttributeError name).

(** The module-level [input_opener(fname, **kwargs)]. *)
Definition input_opener {A} (fname : string) (kwargs : Kwargs)
    (body : Data -> Stage A) : Stage A :=
  log_info "Opening input" >>
  let* w := get_world in
  let* f := lift (remote w fname kwargs) in
  body f.

(** [self.input_cache.open(fname, mode="rb")] *)
Definition cache_open_rb (fname : string) : Stage Data :=
  let* w := get_world in
  match input_cache w with
  | None => raise UninitializedTargetError
  | Some c =>
      match dict_get c fname with
      | Some data => ret data
      | None => raise FileNotFoundError
      end
  end.

(** [self.input_cache.open(fname, mode="wb")]: the file starts out empty. *)
Definition cache_open_wb (fname : string) : Stage unit :=
  let* w := get_world in
  match input_cache w with
  | None => raise UninitializedTargetError
  | Some c => put_world (set_input_cache w (dict_set c fname []))
  end.

(** [target.write(data)] on the cache file opened for writing. *)
Definition cache_write (fname : string) (data : Data) : Stage unit :=
  let* w := get_world in
  match input_cache w with
  | None => raise UninitializedTargetError
  | Some c =>
      let old := match dict_get c fname with Some d => d | None => [] end in
      put_world (emit (set_input_cache w (dict_set c fname (old ++ data)))
                      (CacheWrite fname data))
  end.

Fixpoint cache_write_all (fname : string) (blocks : list Data) : Stage unit :=
  match blocks with
  | [] => ret tt
  | data :: blocks' => cache_write fname data >> cache_write_all fname blocks'
  end.

(** [self.target.get_mapper()] *)
Definition target_get_mapper : Stage unit :=
  let* w := get_world in
  match target w with
  | None => raise UninitializedTargetError
  | Some _ => ret tt
  end.

(** The method [input_opener]: the body of the [with] block runs at the
    [yield], inside the [try], so what it raises is caught as well. *)
Definition self_input_opener {A} (fname : string) (body : Data -> Stage A)
  : Stage A :=
  let* self := get_self in
  try_except
    (let* f := cache_open_rb fname in
     log_info "Opening from cache" >>
     body f)
    is_IOError
    (if require_cache (config self)
     then raise FileNotFoundError
     else
       log_info "No cache found. Opening input directly." >>
       let* kwargs := lift (getattr_kwargs self "file_system_kwargs") in
       input_opener fname kwargs body).

Definition open_input (input_key : IK) : Stage Dataset :=
  let* self := get_self in
  let* rec := lift (input_record self input_key) in
  let fname := url rec in
  let* ds :=
    self_input_opener fname (fun f =>
      log_info "Opening input with Xarray" >>
      lift (xr_open_dataset f (xarray_open_kwargs (config self)))) in
  let ds := fix_scalar_attr_encoding ds in
  let ds := if delete_input_encoding (config self) then clear_encoding ds else ds in
  let ds := match process_input (config self) with
            | Some hook => hook ds fname
            | None => ds
            end in
  ret ds.

Definition open_chunk (chunk_key : CK) : Stage Dataset :=
  let* self := get_self in
  log_info "Concatenating inputs for chunk" >>
  let* inputs := lift (inputs_for_chunk self chunk_key) in
  let* dsets := mapM open_input inputs in
  let* ds := lift (xr_concat dsets (sequence_dim (config self))
                             (xarray_concat_kwargs (config self))) in
  let ds := match process_chunk (config self) with
            | Some hook => hook ds
            | None => ds
            end in
  ret ds.

(** [xr.open_zarr(self.target.get_mapper())] *)
Definition open_target : Stage Dataset :=
  target_get_mapper >>
  let* w := get_world in
  match target w with
  | Some (Some z) => ret (z_schema z)
  | _ => raise FileNotFoundError
  end.

Definition initialize_target (ds : Dataset) : Stage unit :=
  log_info "Creating a new dataset in target" >>
  target_get_mapper >>
  let* w := get_world in
  put_world (emit (set_target w {| z_schema := ds;
                                   z_seq_len := None;
                                   z_coord_zero_from := None;
                                   z_regions := [];
                                   z_consolidated := false |})
                  TargetCreate).

Definition expand_target_dim (dim : option string) (dimsize : Z) : Stage unit :=
  let* self := get_self in
  target_get_mapper >>
  let* _ := open_target in
  let* w := get_world in
  match target w with
  | Some (Some z) =>
      put_world
        (emit (set_target w
                 {| z_schema := z_schema z;
                    z_seq_len := Some dimsize;
                    z_coord_zero_from :=
                      Some (nitems_per_input (config self) * processed_input_nb self);
                    z_regions := z_regions z;
                    z_consolidated := z_consolidated z |})
              (TargetResize dimsize))
  | _ => raise FileNotFoundError
  end.

(** [ds_chunk.to_zarr(target_mapper, region=write_region)] *)
Definition to_zarr_region (region : Region) (ds : Dataset) : Stage unit :=
  let* w := get_world in
  match target w with
  | Some (Some z) =>
      put_world
        (emit (set_target w
                 {| z_schema := z_schema z;
                    z_seq_len := z_seq_len z;
                    z_coord_zero_from := z_coord_zero_from z;
                    z_regions :=
                      dict_set (z_regions z)
                               (region_start region, region_stop region) ds;
                    z_consolidated := z_consolidated z |})
              (TargetWrite (region_start region) (region_stop region)))
  | Some None => raise FileNotFoundError
  | None => raise UninitializedTargetError
  end.

Definition prepare_target : Stage unit :=
  let* self := get_self in
  try_except
    (let* _ := open_target in
     log_info "Found an existing dataset in target")
    is_IOError
    (let* init_dsets :=
       mapM (fun chunk_key =>
               let* chunk_ds := open_chunk chunk_key in
               ret (ds_chunk None chunk_ds))
            (_init_chunks self) in
     let* ds := lift (xr_merge init_dsets) in
     let ds := match target_chunks (config self) with
               | Some (_ :: _) => ds_chunk (target_chunks (config self)) ds
               | _ => ds
               end in
     initialize_target ds) >>
  let* n := lift (sequence_len self) in
  expand_target_dim (sequence_dim (config self)) n.

Definition cache_input (input_key : IK) : Stage unit :=
  let* self := get_self in
  let* rec := lift (input_record self input_key) in
  if processed rec
  then log_info "Dry-run: caching input"
  else
    log_info "Caching input" >>
    let fname := url rec in
    input_opener fname (fsspec_open_kwargs (config self)) (fun source =>
      cache_open_wb fname >>
      cache_write_all fname (copy_blocks (S (length source)) source)).

Definition store_chunk (chunk_key : CK) : Stage unit :=
  let* self := get_self in
  let* write_region := lift (region_for_chunk self chunk_key) in
  let* inputs := lift (inputs_for_chunk self chunk_key) in
  let* flags :=
    lift (rmap (fun input_key =>
                  (let? rec := input_record self input_key in
                   Ok (processed rec))%result)
               inputs) in
  if forallb (fun b => b) flags
  then log_info "Dry-run: storing chunk"
  else
    let* ds_chunk := open_chunk chunk_key in
    let ds_chunk := drop_vars_without (sequence_dim (config self)) ds_chunk in
    target_get_mapper >>
    log_info "Storing chunk" >>
    to_zarr_region write_region ds_chunk.

Definition finalize_target : Stage unit :=
  let* self := get_self in
  if consolidate_zarr (config self)
  then
    log_info "Consolidating Zarr metadata" >>
    target_get_mapper >>
    let* w := get_world in
    match target w with
    | Some (Some z) =>
        put_world
          (emit (set_target w
                   {| z_schema := z_schema z;
                      z_seq_len := z_seq_len z;
                      z_coord_zero_from := z_coord_zero_from z;
                      z_regions := z_regions z;
                      z_consolidated := true |})
                TargetConsolidate)
    | _ => raise FileNotFoundError
    end
  else ret tt.
End Stages.

Arguments PyState {X} IK CK Ext.

(** ** Pipelines *)

Section Pipelines.
Context {X : XarrayLib} {IK CK Ext : Type} `{Key IK} `{Key CK}
        `{!Variant IK CK Ext}.
Local Abbreviation Stage := (M (PyState IK CK Ext)).
Local Open Scope stage_scope.

(** [rechunker.types.Stage(func, map_args)]: a function and, when the stage
    is mapped, the arguments it is to be called on. *)
Inductive PipelineStage :=
| MappedStage {A : Type} (func : A -> Stage unit) (map_args : list A)
| PlainStage (func : Stage unit).

(** [BaseRecipe.to_pipelines]; [list(self.iter_inputs())] runs the
    generator to its end before the first stage is built. *)
Definition to_pipelines (self : Recipe IK CK Ext)
  : result (list (list PipelineStage)) :=
  (let pipeline := [] in
   let? inputs := iter_inputs self in
   let pipeline := pipeline ++ [MappedStage cache_input inputs] in
   let pipeline := pipeline ++ [PlainStage prepare_target] in
   let pipeline := pipeline ++ [MappedStage store_chunk (iter_chunks self)] in
   let pipeline := pipeline ++ [PlainStage finalize_target] in
   let pipelines := [] in
   let pipelines := pipelines ++ [pipeline] in
   Ok pipelines)%result.

(** [for x in xs: f(x)] *)
Fixpoint for_each {A} (f : A -> Stage unit) (xs : list A) : Stage unit :=
  match xs with
  | [] => ret tt
  | x :: xs' => f x >> for_each f xs'
  end.

(** [for input_key in r.iter_inputs(): r.cache_input(input_key)].  The
    generator is advanced between the calls of [cache_input]: the inputs of
    a chunk are looked up once the inputs of the chunks before it have been
    cached. *)
Fixpoint cache_inputs_of_chunks (r : Recipe IK CK Ext) (chunk_keys : list CK)
  : Stage unit :=
  match chunk_keys with
  | [] => ret tt
  | chunk_key :: chunk_keys' =>
      let* inputs := lift (inputs_for_chunk r chunk_key) in
      for_each cache_input inputs >>
      cache_inputs_of_chunks r chunk_keys'
  end.

(** [_manually_execute_recipe] of the test suite, the execution the header
    of [recipe.py] describes. *)
Definition manually_execute_recipe : Stage unit :=
  let* r := get_self in
  cache_inputs_of_chunks r (iter_chunks r) >>
  prepare_target >>
  for_each store_chunk (iter_chunks r) >>
  finalize_target.
End Pipelines.

(** ** Vocabulary of the statements *)

Section RegionVocabulary.
Context {X : XarrayLib}.

(** The region the mapper assigns to chunk position [pos] holding [inputs]. *)
Definition region_of (c : Config) {IK} (pos : Z) (inputs : list IK) : Region :=
  let stride := nitems_per_input c * inputs_per_chunk c in
  {| region_dim := sequence_dim c;
     region_start := pos * stride;
     region_stop := pos * stride + nitems_per_input c * Z.of_nat (length inputs) |}.
End RegionVocabulary.

Definition region_length (r : Region) : Z := region_stop r - region_start r.

(** [rs] are non-empty half-open intervals laid end to end from [lo] to
    [hi]. *)
Fixpoint tiles (lo : Z) (rs : list Region) (hi : Z) : Prop :=
  match rs with
  | [] => lo = hi
  | r :: rs' =>
      region_start r = lo /\ region_start r < region_stop r /\
      tiles (region_stop r) rs' hi
  end.

Definition disjoint (a b : Region) : Prop :=
  region_stop a <= region_start b \/ region_stop b <= region_start a.

Definition pairwise_disjoint (rs : list Region) : Prop :=
  forall i j a b, i <> j ->
    nth_error rs i = Some a -> nth_error rs j = Some b -> disjoint a b.

(** Every group is non-empty and no longer than [size], and every group but
    the last has exactly [size] elements. *)
Fixpoint chunks_ok {A} (size : nat) (chunks : list (list A)) : Prop :=
  match chunks with
  | [] => True
  | c :: chunks' =>
      c <> [] /\ (length c <= size)%nat /\
      (chunks' <> [] -> length c = size) /\ chunks_ok size chunks'
  end.

Section KeyOrder.
Context {K : Type} `{Key K}.

Definition mem (k : K) (ks : list K) : bool := existsb (key_eqb k) ks.

(** The key order of a dictionary whose keys were [ks] after the keys [l]
    have been assigned one after the other. *)
Definition add_keys (ks l : list K) : list K :=
  fold_left (fun ks k => if mem k ks then ks else ks ++ [k]) l ks.

(** [l] without repetitions, each element at its first occurrence. *)
Definition unique (l : list K) : list K := add_keys [] l.
End KeyOrder.

Section ConstructionVocabulary.
Context {X : XarrayLib}.

(** The chunk length the configuration requests for the sequence dimension,
    if any. *)
Definition requested_chunk_length (c : Config) : option Z :=
  match target_chunks c with
  | Some tc => target_chunks_get tc (sequence_dim c)
  | None => None
  end.

(** The chunk keys of a multi-variable recipe built for one axis value. *)
Definition axis_chunk_keys (r : MultiVar.Self) (v : string)
  : list MultiVar.CKey :=
  filter (fun chunk_key => key_eqb (fst chunk_key) v) (iter_chunks r).

(** What [open_input] does to the dataset xarray returned for the file
    [fname], before it hands it back. *)
Definition after_open (c : Config) (fname : string) (ds : Dataset) : Dataset :=
  let ds := fix_scalar_attr_encoding ds in
  let ds := if delete_input_encoding c then clear_encoding ds else ds in
  match process_input c with
  | Some hook => hook ds fname
  | None => ds
  end.

(** The chunks of one axis value, as the constructor lays them out. *)
Definition axis_chunks (c : Config) (p : VariableSequencePattern)
  : list (list Z) :=
  chunked_iterable (unique (pattern_sequence p)) (inputs_per_chunk c).
End ConstructionVocabulary.

Section StageVocabulary.
Context {X : XarrayLib} {IK CK Ext : Type}.

(** The state [s] after the events [evs], nothing else changed. *)
Definition log_to (s : PyState IK CK Ext) (evs : list Event)
  : PyState IK CK Ext :=
  {| self_obj := self_obj s;
     world := {| remote := remote (world s);
                 input_cache := input_cache (world s);
                 target := target (world s);
                 trace := trace (world s) ++ evs |} |}.

(** The state [s] after the events [evs] with the cache now [c]. *)
Definition with_cache (s : PyState IK CK Ext) (c : dict string Data)
    (evs : list Event) : PyState IK CK Ext :=
  {| self_obj := self_obj s;
     world := {| remote := remote (world s);
                 input_cache := Some c;
                 target := target (world s);
                 trace := trace (world s) ++ evs |} |}.

(** The state [s] after the events [evs] with the target dataset now [z]. *)
Definition with_target (s : PyState IK CK Ext) (z : ZarrStore)
    (evs : list Event) : PyState IK CK Ext :=
  {| self_obj := self_obj s;
     world := {| remote := remote (world s);
                 input_cache := input_cache (world s);
                 target := Some (Some z);
                 trace := trace (world s) ++ evs |} |}.

(** The dataset [z] after [ds] was written to [region]. *)
Definition write_region (z : ZarrStore) (region : Region) (ds : Dataset)
  : ZarrStore :=
  {| z_schema := z_schema z;
     z_seq_len := z_seq_len z;
     z_coord_zero_from := z_coord_zero_from z;
     z_regions :=
       dict_set (z_regions z) (region_start region, region_stop region) ds;
     z_consolidated := z_consolidated z |}.

(** The dataset [initialize_target] creates for the schema [ds]. *)
Definition fresh_store (ds : Dataset) : ZarrStore :=
  {| z_schema := ds;
     z_seq_len := None;
     z_coord_zero_from := None;
     z_regions := [];
     z_consolidated := false |}.

(** The dataset [z] after its sequence dimension was resized to [dimsize]
    and its sequence coordinate zero-filled from [zero_from] on. *)
Definition resize (z : ZarrStore) (dimsize zero_from : Z) : ZarrStore :=
  {| z_schema := z_schema z;
     z_seq_len := Some dimsize;
     z_coord_zero_from := Some zero_from;
     z_regions := z_regions z;
     z_consolidated := z_consolidated z |}.

(** A call that only logs [msg] and returns: the skip of a stage. *)
Definition skip_outcome (s : PyState IK CK Ext) (msg : string)
  : outcome (PyState IK CK Ext) unit :=
  Done tt (log_to s [LogInfo msg]).

Definition finish {A} (r : result A) (s : PyState IK CK Ext)
  : outcome (PyState IK CK Ext) A :=
  match r with
  | Ok a => Done a s
  | Raise e => Fail e s
  end.

(** Two states with the same recipe object, remote files and cache. *)
Definition agree (s s' : PyState IK CK Ext) : Prop :=
  self_obj s = self_obj s' /\
  remote (world s) = remote (world s') /\
  input_cache (world s) = input_cache (world s').

(** [m] leaves the recipe object alone and only adds to the trace. *)
Definition frames {A} (m : M (PyState IK CK Ext) A) : Prop :=
  forall s,
    self_obj (final_state (m s)) = self_obj s /\
    exists evs,
      trace (world (final_state (m s))) = trace (world s) ++ evs.

(** [m] changes nothing but the trace, and its result and its events
    depend only on the recipe object, the remote files and the cache. *)
Definition reads {A} (m : M (PyState IK CK Ext) A) : Prop :=
  forall s, exists r evs,
    forall s', agree s s' -> m s' = finish r (log_to s' evs).

(** What a call of [store_chunk] is going to do, as far as the recipe
    object, the remote files and the cache decide it: raise [e] after the
    events [evs], skip, or write [ds] to [region] after the events [evs]. *)
Inductive StorePlan :=
| StoreFails (e : exn) (evs : list Event)
| StoreSkips
| StoreWrites (region : Region) (ds : Dataset) (evs : list Event).

Definition run_store_plan (p : StorePlan) (s : PyState IK CK Ext)
  : outcome (PyState IK CK Ext) unit :=
  match p with
  | StoreFails e evs => Fail e (log_to s evs)
  | StoreSkips => skip_outcome s "Dry-run: storing chunk"
  | StoreWrites region ds evs =>
      match target (world s) with
      | Some (Some z) =>
          Done tt (with_target s (write_region z region ds)
                     (evs ++ [LogInfo "Storing chunk";
                              TargetWrite (region_start region)
                                          (region_stop region)]))
      | Some None =>
          Fail FileNotFoundError (log_to s (evs ++ [LogInfo "Storing chunk"]))
      | None => Fail UninitializedTargetError (log_to s evs)
      end
  end.

(** What a call of [cache_input] is going to do, as far as the recipe
    object and the remote files decide it: raise [e] after the events
    [evs], skip, or copy [source] to the cache file [fname]. *)
Inductive CachePlan :=
| CacheFails (e : exn) (evs : list Event)
| CacheSkips
| CacheCopies (fname : string) (source : Data).

Definition run_cache_plan (p : CachePlan) (s : PyState IK CK Ext)
  : outcome (PyState IK CK Ext) unit :=
  match p with
  | CacheFails e evs => Fail e (log_to s evs)
  | CacheSkips => skip_outcome s "Dry-run: caching input"
  | CacheCopies fname source =>
      match input_cache (world s) with
      | Some c =>
          Done tt (with_cache s (dict_set c fname source)
                     (LogInfo "Caching input" :: LogInfo "Opening input"
                      :: map (CacheWrite fname)
                             (copy_blocks (S (length source)) source)))
      | None =>
          Fail UninitializedTargetError
               (log_to s [LogInfo "Caching input"; LogInfo "Opening input"])
      end
  end.

(** Two states whose stores hold the same things: the same files with the
    same bytes in the cache, and in the target a dataset with the same
    schema, length and flag and the same data in the same regions.  The
    traces and the order of the entries may differ. *)
Definition same_cache (c c' : option (dict string Data)) : Prop :=
  match c, c' with
  | Some d, Some d' => forall fname, dict_get d fname = dict_get d' fname
  | None, None => True
  | _, _ => False
  end.

Definition same_dataset (z z' : ZarrStore) : Prop :=
  z_schema z = z_schema z' /\
  z_seq_len z = z_seq_len z' /\
  z_coord_zero_from z = z_coord_zero_from z' /\
  z_consolidated z = z_consolidated z' /\
  forall key, dict_get (z_regions z) key = dict_get (z_regions z') key.

Definition same_target (t t' : option (option ZarrStore)) : Prop :=
  match t, t' with
  | Some (Some z), Some (Some z') => same_dataset z z'
  | Some None, Some None => True
  | None, None => True
  | _, _ => False
  end.

Definition same_stores (s s' : PyState IK CK Ext) : Prop :=
  self_obj s = self_obj s' /\
  remote (world s) = remote (world s') /\
  same_cache (input_cache (world s)) (input_cache (world s')) /\
  same_target (target (world s)) (target (world s')).

(** The index structures of two recipe objects coincide. *)
Definition same_indexes (r r' : Recipe IK CK Ext) : Prop :=
  _inputs r = _inputs r' /\
  _chunks_inputs r = _chunks_inputs r' /\
  _init_chunks r = _init_chunks r' /\
  processed_input_nb r = processed_input_nb r' /\
  config r = config r'.

(** What a call returned or raised, without the state. *)
Definition observe {A} (o : outcome (PyState IK CK Ext) A) : result A :=
  match o with
  | Done a _ => Ok a
  | Fail e _ => Raise e
  end.

(** The bytes written to the cache and the regions written to the target,
    as the trace records them. *)
Definition is_cache_write (e : Event) : bool :=
  match e with CacheWrite _ _ => true | _ => false end.

Definition is_target_write (e : Event) : bool :=
  match e with TargetWrite _ _ => true | _ => false end.

Definition cache_writes (s : PyState IK CK Ext) : nat :=
  length (filter is_cache_write (trace (world s))).

Definition target_writes (s : PyState IK CK Ext) : nat :=
  length (filter is_target_write (trace (world s))).
End StageVocabulary.

(** Vocabulary for whole runs. *)
Section RunVocabulary.
Context {X : XarrayLib} {IK CK Ext : Type} `{Key IK} `{Key CK}.

(** The three xarray operations the stages rely on succeed on everything
    they are given. *)
Definition xarray_never_fails : Prop :=
  (forall f kwargs, exists ds, xr_open_dataset f kwargs = Ok ds) /\
  (forall dsets dim kwargs, exists ds, xr_concat dsets dim kwargs = Ok ds) /\
  (forall dsets, exists ds, xr_merge dsets = Ok ds).

(** The cache is supplied and holds a file for [fname]. *)
Definition is_cached (w : World) (fname : string) : bool :=
  match input_cache w with
  | Some c =>
      match dict_get c fname with
      | Some _ => true
      | None => false
      end
  | None => false
  end.

(** The remote file [fname] opens. *)
Definition source_opens (w : World) (kwargs : Kwargs) (fname : string) : bool :=
  match remote w fname kwargs with
  | Ok _ => true
  | Raise _ => false
  end.

(** The input has a record, and its file is in the cache already if it is
    marked processed, and can be fetched otherwise. *)
Definition input_ready (r : Recipe IK CK Ext) (w : World) (input_key : IK)
  : bool :=
  match dict_get (_inputs r) input_key with
  | Some rec =>
      if processed rec then is_cached w (url rec)
      else source_opens w (fsspec_open_kwargs (config r)) (url rec)
  | None => false
  end.

(** Every one of [inputs] has a record marked processed. *)
Definition all_processed (r : Recipe IK CK Ext) (inputs : list IK) : bool :=
  forallb (fun input_key =>
             match dict_get (_inputs r) input_key with
             | Some rec => processed rec
             | None => false
             end)
          inputs.

(** The target holds a dataset in which [region] has been written. *)
Definition region_written (w : World) (region : Region) : bool :=
  match target w with
  | Some (Some z) =>
      match dict_get (z_regions z) (region_start region, region_stop region) with
      | Some _ => true
      | None => false
      end
  | _ => false
  end.

(** From [s] to [s'] nothing happened but caching: the cache stays
    supplied and loses no file. *)
Definition only_caches (s s' : PyState IK CK Ext) : Prop :=
  self_obj s' = self_obj s /\
  remote (world s') = remote (world s) /\
  target (world s') = target (world s) /\
  (input_cache (world s) <> None -> input_cache (world s') <> None) /\
  (forall fname, is_cached (world s) fname = true ->
                 is_cached (world s') fname = true).

(** From [s] to [s'] nothing happened but writes of regions: a dataset in
    the target keeps its schema, its length and its flag and loses no
    region. *)
Definition only_stores (s s' : PyState IK CK Ext) : Prop :=
  self_obj s' = self_obj s /\
  remote (world s') = remote (world s) /\
  input_cache (world s') = input_cache (world s) /\
  forall z, target (world s) = Some (Some z) ->
    exists z',
      target (world s') = Some (Some z') /\
      z_schema z' = z_schema z /\
      z_seq_len z' = z_seq_len z /\
      z_consolidated z' = z_consolidated z /\
      forall region, region_written (world s) region = true ->
                     region_written (world s') region = true.
End RunVocabulary.

(** A recipe and a world a run can start from: both stores are supplied,
    every input of every chunk is ready, the chunks used for initialization
    are chunks of the recipe, and the length of the sequence dimension is
    known. *)
Definition ready {X : XarrayLib} {IK CK Ext : Type} `{Key IK} `{Key CK}
    `{!Variant IK CK Ext} (r : Recipe IK CK Ext) (w : World) : bool :=
  forallb (fun kv => forallb (input_ready r w) (snd kv)) (_chunks_inputs r)
  && forallb (fun chunk_key => mem chunk_key (iter_chunks r)) (_init_chunks r)
  && match input_cache w with Some _ => true | None => false end
  && match target w with Some _ => true | None => false end
  && match sequence_len r with Ok _ => true | Raise _ => false end.

(** The two lines [open_input] logs when it finds the file in the cache. *)
Definition opened_from_cache : list Event :=
  [LogInfo "Opening from cache"; LogInfo "Opening input with Xarray"].

(** ** A concrete instance, to run the model

    Datasets are the lists of the payloads they were read from. *)

Definition raw_xarray : XarrayLib := {|
  Dataset := list Data;
  xr_open_dataset := fun f _ => Ok [f];
  fix_scalar_attr_encoding := fun ds => ds;
  clear_encoding := fun ds => ds;
  xr_concat := fun dsets _ _ => Ok (concat dsets);
  xr_merge := fun dsets => Ok (concat dsets);
  ds_chunk := fun _ ds => ds;
  drop_vars_without := fun _ ds => ds
|}.

Module Demo.
Definition config (per nitems : Z) (require : bool)
    (chunks : option (dict string Z)) : @Config raw_xarray :=
  {| sequence_dim := Some "time";
     inputs_per_chunk := per;
     nitems_per_input := nitems;
     require_cache := require;
     consolidate_zarr := true;
     xarray_open_kwargs := [];
     xarray_concat_kwargs := [];
     delete_input_encoding := true;
     fsspec_open_kwargs := [];
     process_input := None;
     process_chunk := None;
     target_chunks := chunks |}.

Definition payload : Data := ["001"; "002"; "003"]%byte.

(** Every remote file exists and holds [payload]. *)
Definition files (fname : string) (kwargs : Kwargs) : result Data := Ok payload.

(** Both stores supplied; the cache holds [cached], the target [store]. *)
Definition a_world (cached : dict string Data)
    (store : option (@ZarrStore raw_xarray)) : @World raw_xarray :=
  {| remote := files; input_cache := Some cached; target := Some store;
     trace := [] |}.

Definition empty_store : @ZarrStore raw_xarray :=
  {| z_schema := (@nil Data : @Dataset raw_xarray);
     z_seq_len := None; z_coord_zero_from := None;
     z_regions := []; z_consolidated := false |}.

(** The recipe built by a constructor call, or nothing if it raised. *)
Definition built {R} (r : result R) : option R :=
  match r with
  | Ok x => Some x
  | Raise _ => None
  end.

Definition sequential (c : @Config raw_xarray)
    (processed_input_urls input_urls : list string)
  : option (@Sequential.Self raw_xarray) :=
  built (Sequential.post_init c processed_input_urls input_urls).

(** What a stage function does on a recipe in a world. *)
Definition run {IK CK Ext A}
    (m : M (@PyState raw_xarray IK CK Ext) A)
    (r : option (@Recipe raw_xarray IK CK Ext)) (w : @World raw_xarray)
  : option (outcome (@PyState raw_xarray IK CK Ext) A) :=
  option_map (fun r => m {| self_obj := r; world := w |}) r.

(** The same call made a second time, in the state the first one left. *)
Definition run_twice {IK CK Ext A}
    (m : M (@PyState raw_xarray IK CK Ext) A)
    (r : option (@Recipe raw_xarray IK CK Ext)) (w : @World raw_xarray)
  : option (outcome (@PyState raw_xarray IK CK Ext) A) :=
  option_map (fun o => m (final_state o)) (run m r w).
End Demo.

(** Recipes as the constructors build them. *)
Module Examples.
(** The sequential recipe for one processed and two new locations, two
    inputs per chunk, three items per input. *)
Definition three_inputs : @Sequential.Self raw_xarray :=
  {| config := Demo.config 2 3 true None;
     subclass_fields := (["p.nc"], ["a.nc"; "b.nc"]);
     processed_input_nb := 1;
     _inputs := [(0, {| url := "p.nc"; processed := true |});
                 (1, {| url := "a.nc"; processed := false |});
                 (2, {| url := "b.nc"; processed := false |})];
     _chunks_inputs := [(0, [0; 1]); (1, [2])];
     _init_chunks := [0] |}.

(** Two variables at three sequence positions each. *)
Definition foo_bar : VariableSequencePattern :=
  {| pattern_format := fun variable n =>
       if n =? 0 then String.append variable "_0.nc"
       else if n =? 1 then String.append variable "_1.nc"
       else String.append variable "_2.nc";
     pattern_variables := ["foo"; "bar"];
     pattern_sequence := [0; 1; 2] |}.

(** The multi-variable recipe for [foo_bar], two inputs per chunk, three
    items per input. *)
Definition two_variables : @MultiVar.Self raw_xarray :=
  {| config := Demo.config 2 3 true None;
     subclass_fields := (foo_bar, ["foo"; "bar"]);
     processed_input_nb := 0;
     _inputs :=
       [(("foo", 0), {| url := "foo_0.nc"; processed := false |});
        (("foo", 1), {| url := "foo_1.nc"; processed := false |});
        (("foo", 2), {| url := "foo_2.nc"; processed := false |});
        (("bar", 0), {| url := "bar_0.nc"; processed := false |});
        (("bar", 1), {| url := "bar_1.nc"; processed := false |});
        (("bar", 2), {| url := "bar_2.nc"; processed := false |})];
     _chunks_inputs :=
       [(("foo", 0), [("foo", 0); ("foo", 1)]);
        (("foo", 1), [("foo", 2)]);
        (("bar", 0), [("bar", 0); ("bar", 1)]);
        (("bar", 1), [("bar", 2)])];
     _init_chunks := [("foo", 0); ("bar", 0)] |}.

(** [three_inputs] before its first stage: the processed input is in the
    cache, the target is supplied and holds no dataset yet. *)
Definition three_inputs_start : @PyState raw_xarray Z Z Sequential.Fields :=
  {| self_obj := three_inputs;
     world := Demo.a_world [("p.nc", Demo.payload)] None |}.

(** [three_inputs] with every input cached and no dataset in the target. *)
Definition three_inputs_cached : @PyState raw_xarray Z Z Sequential.Fields :=
  {| self_obj := three_inputs;
     world := Demo.a_world [("p.nc", Demo.payload); ("a.nc", Demo.payload);
                            ("b.nc", Demo.payload)] None |}.

(** [three_inputs] on a target that holds a dataset. *)
Definition three_inputs_appending : @PyState raw_xarray Z Z Sequential.Fields :=
  {| self_obj := three_inputs;
     world := Demo.a_world [("p.nc", Demo.payload)] (Some Demo.empty_store) |}.

(** [three_inputs] with every input cached and an empty dataset in the
    target. *)
Definition three_inputs_prepared : @PyState raw_xarray Z Z Sequential.Fields :=
  {| self_obj := three_inputs;
     world := Demo.a_world [("p.nc", Demo.payload); ("a.nc", Demo.payload);
                            ("b.nc", Demo.payload)]
                           (Some Demo.empty_store) |}.

(** [three_inputs] with no cache supplied. *)
Definition three_inputs_no_cache : @PyState raw_xarray Z Z Sequential.Fields :=
  {| self_obj := three_inputs;
     world := {| remote := Demo.files; input_cache := None;
                 target := Some None; trace := [] |} |}.

(** An xarray that takes an empty file for unreadable. *)
Definition picky_xarray : XarrayLib := {|
  Dataset := list Data;
  xr_open_dataset := fun f _ =>
    match f with
    | [] => Raise IOError
    | _ :: _ => Ok [f]
    end;
  fix_scalar_attr_encoding := fun ds => ds;
  clear_encoding := fun ds => ds;
  xr_concat := fun dsets _ _ => Ok (concat dsets);
  xr_merge := fun dsets => Ok (concat dsets);
  ds_chunk := fun _ ds => ds;
  drop_vars_without := fun _ ds => ds
|}.

(** A sequential recipe over the one location ["a.nc"], whose cached copy
    is an empty file. *)
Definition empty_cached_file : @PyState picky_xarray Z Z Sequential.Fields :=
  {| self_obj :=
       {| config :=
            {| sequence_dim := Some "time";
               inputs_per_chunk := 1;
               nitems_per_input := 2;
               require_cache := true;
               consolidate_zarr := true;
               xarray_open_kwargs := [];
               xarray_concat_kwargs := [];
               delete_input_encoding := true;
               fsspec_open_kwargs := [];
               process_input := None;
               process_chunk := None;
               target_chunks := None |};
          subclass_fields := ([], ["a.nc"]);
          processed_input_nb := 0;
          _inputs := [(0, {| url := "a.nc"; processed := false |})];
          _chunks_inputs := [(0, [0])];
          _init_chunks := [0] |};
     world := {| remote := fun _ _ => Ok [];
                 input_cache := Some [("a.nc", [])];
                 target := Some None;
                 trace := [] |} |}.
End Examples.

(** * Properties *)

(** ** Dictionaries *)

Section DictFacts.
Context {K V : Type} `{Key K}.
Implicit Types (d : dict K V) (k : K) (v : V).

Ltac key_cases a b :=
  let E := fresh "E" in
  destruct (key_eqb a b) eqn:E;
  [apply key_eqb_eq in E; try subst | apply key_eqb_neq in E].

Lemma dict_get_set_same d k v : dict_get (dict_set d k v) k = Some v.
Proof.
  induction d as [|[k' v'] d IH]; simpl.
  - now rewrite key_eqb_refl.
  - key_cases k k'; simpl.
    + now rewrite key_eqb_refl.
    + apply key_eqb_neq in E. now rewrite E.
Qed.

Lemma dict_get_set_other d k k' v :
  k' <> k -> dict_get (dict_set d k v) k' = dict_get d k'.
Proof.
  intros N. induction d as [|[k0 v0] d IH]; simpl.
  - apply key_eqb_neq in N. now rewrite N.
  - key_cases k k0; simpl.
    + apply key_eqb_neq in N. now rewrite N.
    + now rewrite IH.
Qed.

Lemma dict_set_set d k v v' :
  dict_set (dict_set d k v) k v' = dict_set d k v'.
Proof.
  induction d as [|[k0 v0] d IH]; simpl.
  - now rewrite key_eqb_refl.
  - key_cases k k0; simpl.
    + now rewrite key_eqb_refl.
    + apply key_eqb_neq in E. rewrite E. now rewrite IH.
Qed.

Lemma dict_keys_set_in d k v :
  In k (dict_keys d) -> dict_keys (dict_set d k v) = dict_keys d.
Proof.
  induction d as [|[k0 v0] d IH]; simpl; [tauto|].
  intros [->|I].
  - now rewrite key_eqb_refl.
  - key_cases k k0; simpl; [reflexivity|]. now rewrite IH.
Qed.

Lemma dict_set_fresh d k v :
  ~ In k (dict_keys d) -> dict_set d k v = d ++ [(k, v)].
Proof.
  induction d as [|[k0 v0] d IH]; simpl; [reflexivity|].
  intros N. key_cases k k0; [tauto|]. rewrite IH; tauto.
Qed.

Lemma dict_keys_set d k v :
  forall k', In k' (dict_keys (dict_set d k v)) <-> k' = k \/ In k' (dict_keys d).
Proof.
  intros k'. induction d as [|[k0 v0] d IH]; simpl.
  - intuition congruence.
  - key_cases k k0; simpl; [|rewrite IH]; intuition congruence.
Qed.

Lemma dict_keys_set_NoDup d k v :
  NoDup (dict_keys d) -> NoDup (dict_keys (dict_set d k v)).
Proof.
  induction d as [|[k0 v0] d IH]; simpl; intros ND.
  - constructor; [tauto|constructor].
  - inversion ND as [|? ? N0 ND']; subst.
    key_cases k k0; simpl; constructor; auto.
    rewrite dict_keys_set. intuition congruence.
Qed.

Lemma dict_get_In d k v : dict_get d k = Some v -> In (k, v) d.
Proof.
  induction d as [|[k0 v0] d IH]; simpl; [discriminate|].
  key_cases k k0.
  - intros [= ->]. now left.
  - intros G. right. auto.
Qed.

Lemma dict_In_get d k v :
  NoDup (dict_keys d) -> In (k, v) d -> dict_get d k = Some v.
Proof.
  induction d as [|[k0 v0] d IH]; simpl; [tauto|].
  intros ND [E|I].
  - inversion E; subst. now rewrite key_eqb_refl.
  - inversion ND as [|? ? N0 ND']; subst.
    key_cases k k0.
    + exfalso. apply N0. change k0 with (fst (k0, v)). now apply in_map.
    + auto.
Qed.

Lemma dict_get_None d k : dict_get d k = None <-> ~ In k (dict_keys d).
Proof.
  induction d as [|[k0 v0] d IH]; simpl; [tauto|].
  key_cases k k0.
  - split; [discriminate|tauto].
  - rewrite IH. intuition congruence.
Qed.

Lemma dict_update_keys_NoDup l : forall d,
  NoDup (dict_keys d) -> NoDup (dict_keys (dict_update d l)).
Proof.
  induction l as [|[k v] l IH]; simpl; intros d ND; [assumption|].
  apply IH. now apply dict_keys_set_NoDup.
Qed.

Lemma dict_update_keys l : forall d k,
  In k (dict_keys (dict_update d l)) <-> In k (dict_keys d) \/ In k (map fst l).
Proof.
  induction l as [|[k0 v0] l IH]; simpl; intros d k; [tauto|].
  rewrite IH, dict_keys_set. intuition congruence.
Qed.

Lemma dict_update_get l : forall d k v,
  dict_get (dict_update d l) k = Some v ->
  dict_get d k = Some v \/ In (k, v) l.
Proof.
  induction l as [|[k0 v0] l IH]; simpl; intros d k v G; [now left|].
  apply IH in G. destruct G as [G|I]; [|now right; right].
  key_cases k k0.
  - rewrite dict_get_set_same in G. inversion G; subst. right; now left.
  - rewrite dict_get_set_other in G by assumption. now left.
Qed.

Lemma dict_update_fresh l : forall d,
  NoDup (dict_keys d ++ map fst l) -> dict_update d l = d ++ l.
Proof.
  induction l as [|[k v] l IH]; simpl; intros d ND.
  - now rewrite app_nil_r.
  - assert (F : ~ In k (dict_keys d)).
    { apply NoDup_remove_2 in ND. intros I. apply ND.
      apply in_or_app. now left. }
    rewrite dict_set_fresh by assumption.
    rewrite IH.
    + now rewrite <- app_assoc.
    + unfold dict_keys. rewrite map_app. simpl. now rewrite <- app_assoc.
Qed.

Lemma dict_of_pairs_fresh (l : list (K * V)) :
  NoDup (map fst l) -> dict_of_pairs l = l.
Proof. intros ND. apply (dict_update_fresh l []). exact ND. Qed.

Lemma dict_of_pairs_keys_NoDup (l : list (K * V)) :
  NoDup (dict_keys (dict_of_pairs l)).
Proof. apply dict_update_keys_NoDup. constructor. Qed.

Lemma dict_of_pairs_keys (l : list (K * V)) k :
  In k (dict_keys (dict_of_pairs l)) <-> In k (map fst l).
Proof. unfold dict_of_pairs. rewrite dict_update_keys. simpl. tauto. Qed.

Lemma dict_of_pairs_get (l : list (K * V)) k v :
  dict_get (dict_of_pairs l) k = Some v -> In (k, v) l.
Proof.
  intros G. apply dict_update_get in G. destruct G as [G|I]; [discriminate|assumption].
Qed.
End DictFacts.

(** ** Enumeration, sums and fallible maps *)

Lemma enumerate_from_length {A} (l : list A) : forall s,
  length (enumerate_from s l) = length l.
Proof. induction l; simpl; intros; [reflexivity|now rewrite IHl]. Qed.

Lemma enumerate_from_snd {A} (l : list A) : forall s,
  map snd (enumerate_from s l) = l.
Proof. induction l; simpl; intros; [reflexivity|now rewrite IHl]. Qed.

Lemma enumerate_from_fst_bounds {A} (l : list A) : forall s k,
  In k (map fst (enumerate_from s l)) -> s <= k < s + Z.of_nat (length l).
Proof.
  induction l as [|x l IH]; simpl; intros s k; [tauto|].
  intros [<-|I]; [lia|]. apply IH in I. lia.
Qed.

Lemma enumerate_from_NoDup {A} (l : list A) : forall s,
  NoDup (map fst (enumerate_from s l)).
Proof.
  induction l as [|x l IH]; simpl; intros s; constructor; [|apply IH].
  intros I. apply enumerate_from_fst_bounds in I. lia.
Qed.

Lemma enumerate_from_nth {A} (l : list A) : forall s i k x,
  nth_error (enumerate_from s l) i = Some (k, x) <->
  k = s + Z.of_nat i /\ nth_error l i = Some x.
Proof.
  induction l as [|y l IH]; intros s i k x.
  - destruct i; simpl; intuition discriminate.
  - destruct i as [|i]; simpl.
    + split.
      * intros [= <- <-]. split; [lia|reflexivity].
      * intros [-> [= ->]]. f_equal. f_equal. lia.
    + rewrite IH. split; intros [-> E]; (split; [lia|exact E]).
Qed.

Lemma enumerate_from_In {A} (l : list A) s k x :
  In (k, x) (enumerate_from s l) ->
  exists i, k = s + Z.of_nat i /\ nth_error l i = Some x.
Proof.
  intros I. apply In_nth_error in I. destruct I as [i E].
  exists i. now apply enumerate_from_nth.
Qed.

Lemma enumerate_from_map {A B} (f : A -> B) (l : list A) : forall s,
  enumerate_from s (map f l) =
  map (fun kv => (fst kv, f (snd kv))) (enumerate_from s l).
Proof. induction l; simpl; intros; [reflexivity|now rewrite IHl]. Qed.

Lemma sum_from (l : list Z) : forall a, fold_left Z.add l a = a + sum l.
Proof.
  unfold sum. induction l as [|x l IH]; simpl; intros a; [lia|].
  rewrite IH, (IH x). lia.
Qed.

Lemma sum_cons x (l : list Z) : sum (x :: l) = x + sum l.
Proof. unfold sum at 1. simpl. apply sum_from. Qed.

Lemma rmap_ext {A B} (f g : A -> result B) (l : list A) :
  (forall x, In x l -> f x = g x) -> rmap f l = rmap g l.
Proof.
  induction l as [|x l IH]; simpl; intros E; [reflexivity|].
  rewrite E by now left. rewrite IH; [reflexivity|]. intros; apply E; now right.
Qed.

Lemma rmap_Ok {A B} (f : A -> B) (l : list A) :
  rmap (fun x => Ok (f x)) l = Ok (map f l).
Proof. induction l as [|x l IH]; simpl; [reflexivity|]. now rewrite IH. Qed.

(** Looking every key of a dictionary up in that dictionary succeeds. *)
Lemma rmap_dict_keys {K V B} `{Key K} (d : dict K V) (h : K -> V -> B) :
  NoDup (dict_keys d) ->
  rmap (fun k => match dict_get d k with
                 | Some v => Ok (h k v)
                 | None => Raise KeyError
                 end) (dict_keys d)
  = Ok (map (fun kv => h (fst kv) (snd kv)) d).
Proof.
  intros ND.
  assert (G : forall l, incl l d ->
            rmap (fun k => match dict_get d k with
                           | Some v => Ok (h k v)
                           | None => Raise KeyError
                           end) (map fst l)
            = Ok (map (fun kv => h (fst kv) (snd kv)) l)).
  { induction l as [|[k v] l IH]; simpl; intros I; [reflexivity|].
    rewrite (dict_In_get d k v ND) by (apply I; now left).
    simpl. rewrite IH; [reflexivity|]. intros x Ix. apply I. now right. }
  apply G. apply incl_refl.
Qed.

(** ** chunked_iterable *)

Lemma chunked_fuel_concat {A} (size : nat) : forall fuel (l : list A),
  (0 < size)%nat -> (length l <= fuel)%nat ->
  concat (chunked_fuel fuel size l) = l.
Proof.
  induction fuel as [|fuel IH]; intros l Hs Hl.
  - destruct l; [reflexivity|simpl in Hl; lia].
  - destruct l as [|x l]; [reflexivity|].
    cbn [chunked_fuel concat]. rewrite IH; [apply firstn_skipn|assumption|].
    rewrite length_skipn. simpl length in *. lia.
Qed.

Lemma chunked_fuel_ok {A} (size : nat) : forall fuel (l : list A),
  (0 < size)%nat -> (length l <= fuel)%nat ->
  chunks_ok size (chunked_fuel fuel size l).
Proof.
  induction fuel as [|fuel IH]; intros l Hs Hl; [exact I|].
  destruct l as [|x l]; [exact I|].
  cbn [chunked_fuel chunks_ok].
  assert (Hk : (length (skipn size (x :: l)) <= fuel)%nat).
  { rewrite length_skipn. simpl length in *. lia. }
  repeat split.
  - destruct size; [lia|]. simpl. discriminate.
  - rewrite length_firstn. lia.
  - intros NE. rewrite length_firstn.
    destruct (Nat.le_gt_cases size (length (x :: l))) as [L|G]; [lia|].
    exfalso. apply NE. rewrite skipn_all2 by lia.
    destruct fuel; reflexivity.
  - now apply IH.
Qed.

Lemma chunked_iterable_concat {A} (l : list A) size :
  1 <= size -> concat (chunked_iterable l size) = l.
Proof.
  intros Hs. unfold chunked_iterable.
  destruct (Z.leb_spec size 0); [lia|].
  apply chunked_fuel_concat; lia.
Qed.

Lemma chunked_iterable_ok {A} (l : list A) size :
  1 <= size -> chunks_ok (Z.to_nat size) (chunked_iterable l size).
Proof.
  intros Hs. unfold chunked_iterable.
  destruct (Z.leb_spec size 0); [lia|].
  apply chunked_fuel_ok; lia.
Qed.

Lemma chunked_iterable_nonempty {A} (l : list A) size :
  1 <= size -> l <> [] -> chunked_iterable l size <> [].
Proof.
  intros Hs NE E. apply NE. rewrite <- (chunked_iterable_concat l size Hs).
  now rewrite E.
Qed.

Lemma chunks_ok_In {A} size (chunks : list (list A)) c :
  chunks_ok size chunks -> In c chunks -> c <> [].
Proof.
  induction chunks as [|c0 chunks IH]; simpl; [tauto|].
  intros (NE & _ & _ & OK) [<-|I]; auto.
Qed.

(** No group is empty, whatever the size. *)
Lemma chunked_iterable_In_nonempty {A} (l : list A) size c :
  In c (chunked_iterable l size) -> c <> [].
Proof.
  unfold chunked_iterable. destruct (Z.leb_spec size 0); [intros []|].
  apply chunks_ok_In with (size := Z.to_nat size).
  apply chunked_fuel_ok; lia.
Qed.

(** ** Tilings *)

Lemma tiles_bounds rs : forall lo hi r,
  tiles lo rs hi -> In r rs ->
  lo <= region_start r /\ region_start r < region_stop r /\ region_stop r <= hi.
Proof.
  induction rs as [|r0 rs IH]; simpl; intros lo hi r T I; [tauto|].
  destruct T as (E & L & T). destruct I as [<-|I].
  - destruct rs as [|r1 rs].
    + simpl in T. lia.
    + assert (B := IH _ _ r1 T (or_introl eq_refl)). lia.
  - specialize (IH _ _ r T I). lia.
Qed.

Lemma tiles_pairwise_disjoint rs : forall lo hi,
  tiles lo rs hi -> pairwise_disjoint rs.
Proof.
  induction rs as [|r0 rs IH]; intros lo hi T i j a b N Ei Ej.
  - destruct i; discriminate.
  - destruct T as (E & L & T).
    destruct i as [|i], j as [|j]; simpl in Ei, Ej.
    + congruence.
    + inversion Ei; subst a. apply nth_error_In in Ej.
      destruct (tiles_bounds _ _ _ _ T Ej). left. lia.
    + inversion Ej; subst b. apply nth_error_In in Ei.
      destruct (tiles_bounds _ _ _ _ T Ei). right. lia.
    + apply (IH _ _ T i j); auto.
Qed.

Lemma tiles_sum rs : forall lo hi,
  tiles lo rs hi -> sum (map region_length rs) = hi - lo.
Proof.
  induction rs as [|r rs IH]; simpl; intros lo hi T.
  - unfold sum. simpl. lia.
  - destruct T as (E & L & T). rewrite sum_cons, (IH _ _ T).
    unfold region_length. lia.
Qed.

Section RegionFacts.
Context {X : XarrayLib} {IK CK Ext : Type} `{Key IK} `{Key CK}
        `{!Variant IK CK Ext}.

Lemma region_for_chunk_get (self : Recipe IK CK Ext) (chunk_key : CK) :
  region_for_chunk self chunk_key =
  match dict_get (_chunks_inputs self) chunk_key with
  | Some inputs =>
      Ok (region_of (config self) (chunk_position chunk_key) inputs)
  | None => Raise KeyError
  end.
Proof.
  unfold region_for_chunk, nitems_for_chunk, inputs_for_chunk.
  destruct (dict_get (_chunks_inputs self) chunk_key); reflexivity.
Qed.

Lemma nitems_for_chunk_get (self : Recipe IK CK Ext) (chunk_key : CK) :
  nitems_for_chunk self chunk_key =
  match dict_get (_chunks_inputs self) chunk_key with
  | Some inputs =>
      Ok (nitems_per_input (config self) * Z.of_nat (length inputs))
  | None => Raise KeyError
  end.
Proof.
  unfold nitems_for_chunk, inputs_for_chunk.
  destruct (dict_get (_chunks_inputs self) chunk_key); reflexivity.
Qed.

Lemma regions_of_all_chunks (self : Recipe IK CK Ext) :
  NoDup (dict_keys (_chunks_inputs self)) ->
  rmap (region_for_chunk self) (iter_chunks self) =
  Ok (map (fun kv => region_of (config self) (chunk_position (fst kv)) (snd kv))
          (_chunks_inputs self)).
Proof.
  intros ND. unfold iter_chunks.
  rewrite <- (rmap_dict_keys (_chunks_inputs self)
                (fun k v => region_of (config self) (chunk_position k) v) ND).
  apply rmap_ext. intros k _. apply region_for_chunk_get.
Qed.

Lemma nitems_of_all_chunks (self : Recipe IK CK Ext) :
  NoDup (dict_keys (_chunks_inputs self)) ->
  rmap (nitems_for_chunk self) (iter_chunks self) =
  Ok (map (fun kv => nitems_per_input (config self) * Z.of_nat (length (snd kv)))
          (_chunks_inputs self)).
Proof.
  intros ND. unfold iter_chunks.
  rewrite <- (rmap_dict_keys (_chunks_inputs self)
                (fun _ v => nitems_per_input (config self) * Z.of_nat (length v)) ND).
  apply rmap_ext. intros k _. apply nitems_for_chunk_get.
Qed.

(** Chunks numbered from [i0], all full but the last, tile the range that
    starts at [i0] strides. *)
Lemma tiles_enumerate (c : Config) (size : nat) (chunks : list (list IK)) :
  1 <= nitems_per_input c -> inputs_per_chunk c = Z.of_nat size ->
  chunks_ok size chunks ->
  forall i0,
    tiles (i0 * (nitems_per_input c * inputs_per_chunk c))
          (map (fun kv => region_of c (fst kv) (snd kv))
               (enumerate_from i0 chunks))
          (i0 * (nitems_per_input c * inputs_per_chunk c)
           + nitems_per_input c * Z.of_nat (length (concat chunks))).
Proof.
  intros Hn Hs. induction chunks as [|ch chunks IH]; intros OK i0.
  - simpl. lia.
  - destruct OK as (NE & LE & FULL & OK).
    cbn [enumerate_from map tiles region_of region_start region_stop fst snd].
    split; [reflexivity|]. split.
    + destruct ch; [congruence|]. simpl length. nia.
    + simpl concat. rewrite length_app.
      destruct chunks as [|ch' chunks].
      * simpl. rewrite Nat.add_0_r. reflexivity.
      * specialize (IH OK (i0 + 1)).
        rewrite FULL by discriminate.
        replace (i0 * (nitems_per_input c * inputs_per_chunk c)
                 + nitems_per_input c * Z.of_nat size)
          with ((i0 + 1) * (nitems_per_input c * inputs_per_chunk c)) by nia.
        replace (i0 * (nitems_per_input c * inputs_per_chunk c)
                 + nitems_per_input c
                   * Z.of_nat (size + length (concat (ch' :: chunks))))
          with ((i0 + 1) * (nitems_per_input c * inputs_per_chunk c)
                + nitems_per_input c
                  * Z.of_nat (length (concat (ch' :: chunks)))) by nia.
        exact IH.
Qed.
End RegionFacts.

(** ** The sequential recipe *)

Module SequentialFacts.
Import Sequential.
Section Facts.
Context {X : XarrayLib}.

Lemma build_inputs_enumerate nb (urls : list string) :
  build_inputs nb (ExplicitURLSequence urls) =
  map (input_record_of nb) (enumerate urls).
Proof.
  unfold build_inputs, ExplicitURLSequence.
  apply dict_of_pairs_fresh.
  rewrite map_map. simpl. apply enumerate_from_NoDup.
Qed.

Lemma build_inputs_keys nb (urls : list string) :
  dict_keys (build_inputs nb (ExplicitURLSequence urls)) =
  map fst (enumerate urls).
Proof.
  rewrite build_inputs_enumerate. unfold dict_keys. rewrite map_map.
  reflexivity.
Qed.

Lemma build_chunks_inputs_enumerate (inputs : dict Z InputRecord) per :
  build_chunks_inputs inputs per =
  enumerate (chunked_iterable (dict_keys inputs) per).
Proof.
  unfold build_chunks_inputs. apply dict_of_pairs_fresh.
  apply enumerate_from_NoDup.
Qed.

(** What a successful construction has computed. *)
Lemma post_init_Ok c P I (r : Self) :
  post_init c P I = Ok r ->
  base_post_init c = Ok tt /\
  config r = c /\
  processed_input_nb r = Z.of_nat (length P) /\
  _inputs r = map (input_record_of (Z.of_nat (length P))) (enumerate (P ++ I)) /\
  _chunks_inputs r =
    enumerate (chunked_iterable (map fst (enumerate (P ++ I)))
                                (inputs_per_chunk c)) /\
  _init_chunks r = firstn 1 (iter_chunks r) /\
  iter_chunks r <> [].
Proof.
  unfold post_init. destruct (base_post_init c) as [[]|e]; [|discriminate].
  cbn [rbind].
  rewrite build_chunks_inputs_enumerate, build_inputs_keys, build_inputs_enumerate.
  destruct (dict_keys _) as [|first rest] eqn:E; [discriminate|].
  intros [= <-]. unfold iter_chunks. cbn [config processed_input_nb _inputs
    _chunks_inputs _init_chunks]. rewrite E.
  repeat split; try reflexivity. discriminate.
Qed.

(** Construction succeeds on every valid configuration with an input. *)
Lemma post_init_total c P I :
  base_post_init c = Ok tt -> 1 <= inputs_per_chunk c -> P ++ I <> [] ->
  exists r : Self, post_init c P I = Ok r.
Proof.
  intros B Hs NE. unfold post_init. rewrite B. cbn [rbind].
  rewrite build_chunks_inputs_enumerate, build_inputs_keys.
  destruct (dict_keys _) as [|first rest] eqn:E; [|eexists; reflexivity].
  exfalso.
  assert (C : chunked_iterable (map fst (enumerate (P ++ I))) (inputs_per_chunk c) <> []).
  { apply chunked_iterable_nonempty; [assumption|].
    destruct (P ++ I); [congruence|discriminate]. }
  apply C. unfold dict_keys in E.
  destruct (chunked_iterable _ _); [reflexivity|discriminate].
Qed.

Lemma enumerate_keys_length {A} (l : list A) :
  length (map fst (enumerate l)) = length l.
Proof. rewrite length_map. apply enumerate_from_length. Qed.

(** C1. For every sequential recipe with [inputs_per_chunk >= 1] and
    [nitems_per_input >= 1] (a recipe exists only for a non-empty input
    list), the regions that [region_for_chunk] gives for the chunk keys in
    iteration order are non-empty half-open intervals that follow each other
    without gap from 0 to [sequence_len()], hence pairwise disjoint, their
    lengths sum to [sequence_len()], and the region of the chunk at position
    [i] starts at [i * stride] and spans [nitems_per_input] times the number
    of inputs of that chunk, with [stride = inputs_per_chunk *
    nitems_per_input]. *)
Theorem regions_tile_sequence c P I (r : Self) :
  1 <= inputs_per_chunk c -> 1 <= nitems_per_input c ->
  post_init c P I = Ok r ->
  exists regions total,
    rmap (region_for_chunk r) (iter_chunks r) = Ok regions /\
    sequence_len r = Ok total /\
    tiles 0 regions total /\
    pairwise_disjoint regions /\
    sum (map region_length regions) = total /\
    forall i region, nth_error regions i = Some region ->
      exists chunk_key inputs,
        nth_error (iter_chunks r) i = Some chunk_key /\
        inputs_for_chunk r chunk_key = Ok inputs /\
        region_start region =
          chunk_position chunk_key * (inputs_per_chunk c * nitems_per_input c) /\
        region_stop region =
          chunk_position chunk_key * (inputs_per_chunk c * nitems_per_input c)
          + nitems_per_input c * Z.of_nat (length inputs).
Proof.
  intros Hs Hn E.
  destruct (post_init_Ok _ _ _ _ E) as (_ & Ec & _ & _ & Ech & _ & _).
  set (chunks := chunked_iterable (map fst (enumerate (P ++ I)))
                                  (inputs_per_chunk c)) in *.
  assert (ND : NoDup (dict_keys (_chunks_inputs r))).
  { rewrite Ech. apply enumerate_from_NoDup. }
  assert (T : tiles 0 (map (fun kv => region_of c (fst kv) (snd kv))
                           (enumerate chunks))
                    (nitems_per_input c * Z.of_nat (length (concat chunks)))).
  { apply (tiles_enumerate c (Z.to_nat (inputs_per_chunk c)) chunks Hn) with (i0 := 0).
    - lia.
    - apply chunked_iterable_ok. assumption. }
  exists (map (fun kv => region_of c (fst kv) (snd kv)) (enumerate chunks)),
         (nitems_per_input c * Z.of_nat (length (concat chunks))).
  split; [|split; [|split; [|split; [|split]]]].
  - rewrite regions_of_all_chunks by assumption. now rewrite Ech, Ec.
  - cbn [sequence_len variant]. rewrite nitems_of_all_chunks by assumption.
    cbn [rbind]. f_equal. rewrite Ech, Ec.
    rewrite <- (Z.sub_0_r (nitems_per_input c * _)), <- (tiles_sum _ _ _ T).
    rewrite map_map. f_equal. apply map_ext. intros [k v].
    unfold region_length. cbn. lia.
  - exact T.
  - exact (tiles_pairwise_disjoint _ _ _ T).
  - rewrite (tiles_sum _ _ _ T). lia.
  - intros i region Hi. rewrite nth_error_map in Hi.
    destruct (nth_error (enumerate chunks) i) as [[k v]|] eqn:Ek; [|discriminate].
    injection Hi as <-.
    exists k, v. split; [|split; [|split]].
    + unfold iter_chunks, dict_keys. rewrite Ech, nth_error_map.
      fold chunks. unfold enumerate in Ek |- *. now rewrite Ek.
    + unfold inputs_for_chunk.
      rewrite (dict_In_get (_chunks_inputs r) k v ND); [reflexivity|].
      rewrite Ech. fold chunks. eapply nth_error_In. exact Ek.
    + cbn. lia.
    + cbn. lia.
Qed.

Lemma ltb_of_nat (i n : nat) : (Z.of_nat i <? Z.of_nat n) = (i <? n)%nat.
Proof.
  destruct (Z.ltb_spec (Z.of_nat i) (Z.of_nat n)), (Nat.ltb_spec i n);
    try reflexivity; lia.
Qed.

(** C7. A sequential recipe built from processed locations [P] and new
    locations [I] indexes the concatenation [P ++ I] in order under the
    integer keys [0 .. |P|+|I|-1], and the record at position [i] is marked
    processed exactly when [i < |P|]. *)
Theorem input_index_marks_prefix c P I (r : Self) :
  post_init c P I = Ok r ->
  length (_inputs r) = length (P ++ I) /\
  processed_input_nb r = Z.of_nat (length P) /\
  forall i, (i < length (P ++ I))%nat ->
    exists location,
      nth_error (P ++ I) i = Some location /\
      nth_error (_inputs r) i =
        Some (Z.of_nat i,
              {| url := location; processed := (i <? length P)%nat |}) /\
      input_record r (Z.of_nat i) =
        Ok {| url := location; processed := (i <? length P)%nat |}.
Proof.
  intros E.
  destruct (post_init_Ok _ _ _ _ E) as (_ & _ & Enb & Ei & _ & _ & _).
  split; [|split; [exact Enb|]].
  - rewrite Ei, length_map. apply enumerate_from_length.
  - intros i Hi.
    destruct (nth_error (P ++ I) i) as [location|] eqn:En;
      [|apply nth_error_None in En; lia].
    exists location. split; [reflexivity|].
    assert (Ek : nth_error (_inputs r) i =
                 Some (Z.of_nat i,
                       {| url := location; processed := (i <? length P)%nat |})).
    { rewrite Ei, nth_error_map.
      assert (G : nth_error (enumerate (P ++ I)) i = Some (Z.of_nat i, location)).
      { apply enumerate_from_nth. split; [lia|exact En]. }
      rewrite G. unfold input_record_of. cbn. now rewrite ltb_of_nat. }
    split; [exact Ek|].
    unfold input_record. erewrite dict_In_get; [reflexivity| |].
    + rewrite Ei. unfold dict_keys. rewrite map_map. apply enumerate_from_NoDup.
    + eapply nth_error_In. exact Ek.
Qed.

(** The first chunk key of a sequential recipe is 0. *)
Lemma first_chunk_key c P I (r : Self) :
  post_init c P I = Ok r -> firstn 1 (iter_chunks r) = [0].
Proof.
  intros E.
  destruct (post_init_Ok _ _ _ _ E) as (_ & _ & _ & _ & Ech & _ & NE).
  unfold iter_chunks in *. rewrite Ech in *.
  destruct (chunked_iterable _ _); [now elim NE|reflexivity].
Qed.
End Facts.
End SequentialFacts.

(** ** Key order of dictionaries *)

Section KeyOrderFacts.
Context {K : Type} `{Key K}.
Implicit Types (k : K) (ks l : list K).

Lemma mem_In k ks : mem k ks = true <-> In k ks.
Proof.
  unfold mem. rewrite existsb_exists. split.
  - intros (x & I & E). apply key_eqb_eq in E. now subst.
  - intros I. exists k. split; [assumption|apply key_eqb_refl].
Qed.

Lemma mem_false k ks : mem k ks = false <-> ~ In k ks.
Proof.
  rewrite <- mem_In. destruct (mem k ks); intuition congruence.
Qed.

Lemma add_keys_cons ks k l :
  add_keys ks (k :: l) = add_keys (if mem k ks then ks else ks ++ [k]) l.
Proof. reflexivity. Qed.

Lemma add_keys_app l l' : forall ks,
  add_keys ks (l ++ l') = add_keys (add_keys ks l) l'.
Proof. intros ks. unfold add_keys. apply fold_left_app. Qed.

Lemma add_keys_In l : forall ks k,
  In k (add_keys ks l) <-> In k ks \/ In k l.
Proof.
  induction l as [|x l IH]; intros ks k; [simpl; tauto|].
  rewrite add_keys_cons, IH. simpl.
  destruct (mem x ks) eqn:E.
  - apply mem_In in E. intuition congruence.
  - rewrite in_app_iff. simpl. tauto.
Qed.

Lemma add_keys_incl l : forall ks, incl l ks -> add_keys ks l = ks.
Proof.
  induction l as [|x l IH]; intros ks I; [reflexivity|].
  rewrite add_keys_cons.
  assert (E : mem x ks = true) by (apply mem_In, I; now left).
  rewrite E. apply IH. intros y Iy. apply I. now right.
Qed.

Lemma add_keys_again ks l : add_keys (add_keys ks l) l = add_keys ks l.
Proof. apply add_keys_incl. intros x I. apply add_keys_In. now right. Qed.

Lemma filter_add_keys (f : K -> bool) l : forall ks,
  filter f (add_keys ks l) = add_keys (filter f ks) (filter f l).
Proof.
  induction l as [|x l IH]; intros ks; [reflexivity|].
  rewrite add_keys_cons, IH. simpl filter.
  destruct (f x) eqn:Fx.
  - rewrite add_keys_cons.
    assert (E : mem x (filter f ks) = mem x ks).
    { destruct (mem x ks) eqn:M.
      - apply mem_In. apply filter_In. split; [now apply mem_In|assumption].
      - apply mem_false. intros I. apply filter_In in I.
        apply mem_false in M. tauto. }
    rewrite E. destruct (mem x ks); [reflexivity|].
    rewrite filter_app. simpl. now rewrite Fx.
  - destruct (mem x ks); [reflexivity|].
    rewrite filter_app. simpl. rewrite Fx. now rewrite app_nil_r.
Qed.

Lemma unique_In l k : In k (unique l) <-> In k l.
Proof. unfold unique. rewrite add_keys_In. simpl. tauto. Qed.

Lemma unique_nonempty l : l <> [] -> unique l <> [].
Proof.
  destruct l as [|x l]; [congruence|]. intros _ E.
  assert (I : In x (unique (x :: l))) by (apply unique_In; now left).
  rewrite E in I. exact I.
Qed.

Lemma dict_update_keys_order {V} (l : list (K * V)) : forall d : dict K V,
  dict_keys (dict_update d l) = add_keys (dict_keys d) (map fst l).
Proof.
  induction l as [|[k v] l IH]; intros d; [reflexivity|].
  cbn [map fst]. rewrite add_keys_cons.
  change (dict_update d ((k, v) :: l)) with (dict_update (dict_set d k v) l).
  rewrite IH. f_equal.
  destruct (mem k (dict_keys d)) eqn:E.
  - apply dict_keys_set_in. now apply mem_In.
  - rewrite dict_set_fresh by now apply mem_false.
    unfold dict_keys. now rewrite map_app.
Qed.

Lemma dict_update_app {V} (l l' : list (K * V)) (d : dict K V) :
  dict_update d (l ++ l') = dict_update (dict_update d l) l'.
Proof. unfold dict_update. apply fold_left_app. Qed.

Lemma dict_update_flat_map {V A} (g : A -> list (K * V)) (xs : list A) :
  forall d : dict K V,
  fold_left (fun d x => dict_update d (g x)) xs d = dict_update d (flat_map g xs).
Proof.
  induction xs as [|x xs IH]; intros d; [reflexivity|].
  simpl. rewrite IH. now rewrite dict_update_app.
Qed.
End KeyOrderFacts.

Lemma add_keys_map {K K'} `{Key K} `{Key K'} (f : K -> K') (l : list K) :
  (forall a b, f a = f b -> a = b) ->
  forall ks, add_keys (map f ks) (map f l) = map f (add_keys ks l).
Proof.
  intros Inj. induction l as [|x l IH]; intros ks; [reflexivity|].
  cbn [map]. rewrite !add_keys_cons.
  assert (E : mem (f x) (map f ks) = mem x ks).
  { destruct (mem x ks) eqn:M.
    - apply mem_In. apply in_map. now apply mem_In.
    - apply mem_false. intros I. apply in_map_iff in I.
      destruct I as (y & Ey & Iy). apply Inj in Ey. subst y.
      apply mem_false in M. tauto. }
  rewrite E. destruct (mem x ks); [apply IH|].
  rewrite <- IH. now rewrite map_app.
Qed.

(** ** The multi-variable recipe *)

Module MultiVarFacts.
Import MultiVar.
Section Facts.
Context {X : XarrayLib}.

Lemma multi_post_init_Ok c p (r : Self) :
  post_init c p = Ok r ->
  base_post_init c = Ok tt /\
  config r = c /\
  subclass_fields r = (p, pattern_variables p) /\
  processed_input_nb r = 0 /\
  _inputs r = build_inputs p /\
  _chunks_inputs r =
    build_chunks_inputs (build_inputs p) (inputs_per_chunk c)
                        (pattern_variables p) /\
  _init_chunks r = filter (fun chunk_key => snd chunk_key =? 0) (iter_chunks r).
Proof.
  unfold post_init. destruct (base_post_init c) as [[]|e]; [|discriminate].
  cbn [rbind]. intros [= <-]. repeat split; reflexivity.
Qed.

Lemma multi_post_init_total c p :
  base_post_init c = Ok tt -> exists r : Self, post_init c p = Ok r.
Proof. intros B. unfold post_init. rewrite B. eexists. reflexivity. Qed.

Lemma pattern_iter_keys p :
  map fst (pattern_iter p) =
  flat_map (fun v => map (pair v) (pattern_sequence p)) (pattern_variables p).
Proof.
  unfold pattern_iter. induction (pattern_variables p) as [|v vs IH];
    [reflexivity|].
  simpl. rewrite map_app, IH, map_map. reflexivity.
Qed.

Lemma multi_build_inputs_keys p :
  dict_keys (build_inputs p) =
  unique (flat_map (fun v => map (pair v) (pattern_sequence p))
                   (pattern_variables p)).
Proof.
  unfold build_inputs, dict_of_pairs. rewrite dict_update_keys_order.
  rewrite map_map. cbn [fst dict_keys map]. now rewrite pattern_iter_keys.
Qed.

Lemma filter_axis (v v' : string) (ps : list Z) :
  filter (fun k : string * Z => key_eqb (fst k) v) (map (pair v') ps) =
  if String.eqb v' v then map (pair v') ps else [].
Proof.
  induction ps as [|n ps IH]; cbn [map filter fst];
    [now destruct (String.eqb v' v)|].
  rewrite IH. change (key_eqb v' v) with (String.eqb v' v).
  now destruct (String.eqb v' v).
Qed.

Lemma add_keys_axis (v : string) (ps : list Z) (vs : list string) :
  forall ks : list (string * Z),
  add_keys ks (filter (fun k => key_eqb (fst k) v)
                      (flat_map (fun v' => map (pair v') ps) vs)) =
  if mem v vs then add_keys ks (map (pair v) ps) else ks.
Proof.
  induction vs as [|v' vs IH]; intros ks; [reflexivity|].
  cbn [flat_map]. rewrite filter_app, add_keys_app, IH, filter_axis.
  unfold mem at 2. cbn [existsb]. fold (mem v vs).
  change (key_eqb v v') with (String.eqb v v').
  rewrite (String.eqb_sym v v').
  destruct (String.eqb_spec v' v) as [->|N]; cbn [orb].
  - destruct (mem v vs); [apply add_keys_again|reflexivity].
  - reflexivity.
Qed.

(** Every axis value of the pattern sees the same sequence positions. *)
Lemma sequence_keys_axis p v :
  In v (pattern_variables p) ->
  sequence_keys (build_inputs p) v = unique (pattern_sequence p).
Proof.
  intros I. unfold sequence_keys. rewrite multi_build_inputs_keys.
  unfold unique. rewrite filter_add_keys. cbn [filter].
  rewrite add_keys_axis.
  assert (E : mem v (pattern_variables p) = true) by now apply mem_In.
  rewrite E.
  change (@nil (string * Z)) with (map (pair v) (@nil Z)).
  rewrite add_keys_map by (intros a b [= ]; assumption).
  rewrite map_map. cbn [snd]. apply map_id.
Qed.

Lemma build_chunks_inputs_pairs inputs per vs :
  build_chunks_inputs inputs per vs =
  dict_of_pairs (flat_map (chunk_pairs inputs per) vs).
Proof.
  unfold build_chunks_inputs, add_variable_chunks, dict_of_pairs.
  apply dict_update_flat_map.
Qed.

Lemma chunk_pairs_In c p v key val :
  In v (pattern_variables p) ->
  (In (key, val) (chunk_pairs (build_inputs p) (inputs_per_chunk c) v) <->
   exists i chunk,
     nth_error (axis_chunks c p) i = Some chunk /\
     key = (v, Z.of_nat i) /\ val = map (pair v) chunk).
Proof.
  intros Iv. unfold chunk_pairs, axis_chunks.
  rewrite (sequence_keys_axis p v Iv). rewrite in_map_iff. split.
  - intros ([k chunk] & E & I). cbn [fst snd] in E.
    apply enumerate_from_In in I. destruct I as (i & -> & En).
    exists i, chunk. inversion E; subst. repeat split; try assumption.
  - intros (i & chunk & En & -> & ->).
    exists (Z.of_nat i, chunk). split; [reflexivity|].
    eapply nth_error_In. apply enumerate_from_nth. split; [|exact En].
    reflexivity.
Qed.

Lemma chunk_lookup c p (r : Self) key val :
  post_init c p = Ok r ->
  dict_get (_chunks_inputs r) key = Some val ->
  exists i chunk,
    In (fst key) (pattern_variables p) /\
    nth_error (axis_chunks c p) i = Some chunk /\
    snd key = Z.of_nat i /\ val = map (pair (fst key)) chunk.
Proof.
  intros E G.
  destruct (multi_post_init_Ok _ _ _ E) as (_ & _ & _ & _ & _ & Ech & _).
  rewrite Ech, build_chunks_inputs_pairs in G.
  apply dict_of_pairs_get in G. apply in_flat_map in G.
  destruct G as (v & Iv & I).
  apply (chunk_pairs_In c p v key val Iv) in I.
  destruct I as (i & chunk & En & -> & ->).
  exists i, chunk. repeat split; assumption.
Qed.

Lemma chunk_keys c p (r : Self) key :
  post_init c p = Ok r ->
  (In key (iter_chunks r) <->
   In (fst key) (pattern_variables p) /\
   exists i, snd key = Z.of_nat i /\ (i < length (axis_chunks c p))%nat).
Proof.
  intros E.
  destruct (multi_post_init_Ok _ _ _ E) as (_ & _ & _ & _ & _ & Ech & _).
  unfold iter_chunks. rewrite Ech, build_chunks_inputs_pairs.
  rewrite dict_of_pairs_keys, in_map_iff. split.
  - intros ([key' val] & <- & I). apply in_flat_map in I.
    destruct I as (v & Iv & I).
    apply (chunk_pairs_In c p v key' val Iv) in I.
    destruct I as (i & chunk & En & -> & ->). cbn [fst snd].
    split; [assumption|]. exists i. split; [reflexivity|].
    apply nth_error_Some. congruence.
  - intros (Iv & i & Es & Hi). destruct key as [v n]. cbn [fst snd] in *.
    subst n.
    destruct (nth_error (axis_chunks c p) i) as [chunk|] eqn:En;
      [|apply nth_error_None in En; lia].
    exists ((v, Z.of_nat i), map (pair v) chunk). split; [reflexivity|].
    apply in_flat_map. exists v. split; [assumption|].
    apply (chunk_pairs_In c p v _ _ Iv). exists i, chunk. now repeat split.
Qed.

Lemma chunk_keys_NoDup c p (r : Self) :
  post_init c p = Ok r -> NoDup (iter_chunks r).
Proof.
  intros E.
  destruct (multi_post_init_Ok _ _ _ E) as (_ & _ & _ & _ & _ & Ech & _).
  unfold iter_chunks. rewrite Ech, build_chunks_inputs_pairs.
  apply dict_of_pairs_keys_NoDup.
Qed.

Lemma region_of_length (c : Config) {A B} pos (l : list A) (l' : list B) :
  length l = length l' -> region_of c pos l = region_of c pos l'.
Proof. intros E. unfold region_of. now rewrite E. Qed.

(** C8. In a multi-axis recipe the chunk keys built for two distinct axis
    values never coincide, the position of a chunk is the sequence-position
    component of its key, and the chunks of two axis values at the same
    sequence position are given the same region. *)
Theorem axis_values_independent c p (r : Self) (A B : string) :
  post_init c p = Ok r -> A <> B ->
  (forall key, In key (axis_chunk_keys r A) -> ~ In key (axis_chunk_keys r B)) /\
  (forall i : Z, chunk_position (A, i) = i /\ chunk_position (B, i) = i) /\
  (forall i, In (A, i) (iter_chunks r) -> In (B, i) (iter_chunks r) ->
     exists region,
       region_for_chunk r (A, i) = Ok region /\
       region_for_chunk r (B, i) = Ok region).
Proof.
  intros E N. split; [|split].
  - intros key IA IB. unfold axis_chunk_keys in *.
    apply filter_In in IA. apply filter_In in IB.
    destruct IA as (_ & EA). destruct IB as (_ & EB).
    apply key_eqb_eq in EA. apply key_eqb_eq in EB. congruence.
  - intros i. split; reflexivity.
  - intros i IA IB.
    assert (G : forall v, In (v, i) (iter_chunks r) ->
              exists n chunk,
                nth_error (axis_chunks c p) n = Some chunk /\ i = Z.of_nat n /\
                region_for_chunk r (v, i) =
                  Ok (region_of (config r) i (map (pair v) chunk))).
    { intros v Iv. rewrite region_for_chunk_get.
      destruct (dict_get (_chunks_inputs r) (v, i)) as [val|] eqn:Eg.
      - destruct (chunk_lookup c p r _ _ E Eg) as (n & chunk & _ & En & Ei & ->).
        exists n, chunk. repeat split; assumption.
      - apply dict_get_None in Eg. contradiction. }
    destruct (G A IA) as (n & chunk & En & Ei & RA).
    destruct (G B IB) as (n' & chunk' & En' & Ei' & RB).
    assert (n' = n) by lia. subst n'. rewrite En in En'. injection En' as <-.
    eexists. split; [exact RA|]. rewrite RB. f_equal.
    apply region_of_length. now rewrite !length_map.
Qed.

(** Every record of a multi-variable recipe is unprocessed. *)
Lemma nothing_processed c p (r : Self) :
  post_init c p = Ok r ->
  processed_input_nb r = 0 /\
  forall input_key rec,
    input_record r input_key = Ok rec -> processed rec = false.
Proof.
  intros E.
  destruct (multi_post_init_Ok _ _ _ E) as (_ & _ & _ & Enb & Ei & _ & _).
  split; [exact Enb|]. intros k rec G. unfold input_record in G.
  destruct (dict_get (_inputs r) k) as [rec'|] eqn:Eg; [|discriminate].
  injection G as ->. rewrite Ei in Eg. apply dict_of_pairs_get in Eg.
  apply in_map_iff in Eg. destruct Eg as (kv & [= _ <-] & _). reflexivity.
Qed.

(** The initialization chunks of a multi-variable recipe: one per axis
    value, at sequence position 0. *)
Lemma init_chunks_axis c p (r : Self) :
  1 <= inputs_per_chunk c -> pattern_sequence p <> [] ->
  post_init c p = Ok r ->
  NoDup (_init_chunks r) /\
  forall chunk_key,
    In chunk_key (_init_chunks r) <->
    In (fst chunk_key) (pattern_variables p) /\ snd chunk_key = 0.
Proof.
  intros Hs NE E.
  destruct (multi_post_init_Ok _ _ _ E) as (_ & _ & _ & _ & _ & _ & Einit).
  rewrite Einit. split.
  - apply NoDup_filter. eapply chunk_keys_NoDup. exact E.
  - intros key. rewrite filter_In, (chunk_keys c p r key E), Z.eqb_eq. split.
    + tauto.
    + intros (Iv & E0). repeat split; try assumption.
      exists 0%nat. split; [assumption|].
      assert (C : axis_chunks c p <> []).
      { apply chunked_iterable_nonempty; [assumption|].
        now apply unique_nonempty. }
      destruct (axis_chunks c p); [congruence|simpl; lia].
Qed.
End Facts.
End MultiVarFacts.

(** ** Stage functions: what they leave alone *)

Section FrameFacts.
Context {X : XarrayLib} {IK CK Ext : Type} `{Key IK} `{Key CK}
        `{!Variant IK CK Ext}.
Local Abbreviation St := (PyState IK CK Ext).
Local Abbreviation Stage := (M St).

Lemma frames_ret {A} (a : A) : frames (ret a : Stage A).
Proof. intros s. split; [reflexivity|]. exists []. cbn. now rewrite app_nil_r. Qed.

Lemma frames_raise {A} e : frames (raise e : Stage A).
Proof. intros s. split; [reflexivity|]. exists []. cbn. now rewrite app_nil_r. Qed.

Lemma frames_lift {A} (r : result A) : frames (lift r : Stage A).
Proof. destruct r; [apply frames_ret|apply frames_raise]. Qed.

Lemma frames_bind {A B} (m : Stage A) (k : A -> Stage B) :
  frames m -> (forall a, frames (k a)) -> frames (bind m k).
Proof.
  intros Fm Fk s. unfold bind. destruct (Fm s) as (Es & evs & Et).
  destruct (m s) as [a s1|e s1]; cbn in *.
  - destruct (Fk a s1) as (Es2 & evs2 & Et2). split; [congruence|].
    exists (evs ++ evs2). rewrite Et2, Et. now rewrite app_assoc.
  - split; [assumption|]. now exists evs.
Qed.

Lemma frames_try_except {A} (m h : Stage A) caught :
  frames m -> frames h -> frames (try_except m caught h).
Proof.
  intros Fm Fh s. unfold try_except. destruct (Fm s) as (Es & evs & Et).
  destruct (m s) as [a s1|e s1]; cbn in *.
  - split; [assumption|]. now exists evs.
  - destruct (caught e); cbn.
    + destruct (Fh s1) as (Es2 & evs2 & Et2). split; [congruence|].
      exists (evs ++ evs2). rewrite Et2, Et. now rewrite app_assoc.
    + split; [assumption|]. now exists evs.
Qed.

Lemma frames_mapM {A B} (f : A -> Stage B) (l : list A) :
  (forall a, frames (f a)) -> frames (mapM f l).
Proof.
  intros Ff. induction l as [|x l IH]; cbn [mapM]; [apply frames_ret|].
  apply frames_bind; [apply Ff|]. intros y.
  apply frames_bind; [apply IH|]. intros ys. apply frames_ret.
Qed.

Lemma frames_get_self : frames (get_self : Stage _).
Proof. intros s. split; [reflexivity|]. exists []. cbn. now rewrite app_nil_r. Qed.

(** A step that reads the world and then fails, returns, or stores a world
    whose trace extends the one it read. *)
Ltac frame_step :=
  let s := fresh "s" in
  intros s; cbv [bind get_world get_self put_world raise ret final_state];
  repeat match goal with
         | |- context [match ?x with _ => _ end] =>
             lazymatch x with
             | context [match _ with _ => _ end] => fail
             | _ => destruct x; cbv beta iota
             end
         end;
  cbn; (split; [reflexivity|]);
  first [ exists []; now rewrite app_nil_r
        | eexists; reflexivity ].

Lemma frames_do_event e : frames (do_event e : Stage unit).
Proof. unfold do_event. frame_step. Qed.

Lemma frames_log_info msg : frames (log_info msg : Stage unit).
Proof. apply frames_do_event. Qed.

Lemma frames_cache_open_rb fname : frames (cache_open_rb fname : Stage Data).
Proof. unfold cache_open_rb. frame_step. Qed.

Lemma frames_cache_open_wb fname : frames (cache_open_wb fname : Stage unit).
Proof. unfold cache_open_wb. frame_step. Qed.

Lemma frames_cache_write fname data :
  frames (cache_write fname data : Stage unit).
Proof. unfold cache_write. frame_step. Qed.

Lemma frames_target_get_mapper : frames (target_get_mapper : Stage unit).
Proof. unfold target_get_mapper. frame_step. Qed.

Lemma frames_to_zarr_region region ds :
  frames (to_zarr_region region ds : Stage unit).
Proof. unfold to_zarr_region. frame_step. Qed.

Lemma frames_cache_write_all fname blocks :
  frames (cache_write_all fname blocks : Stage unit).
Proof.
  induction blocks as [|b blocks IH]; cbn [cache_write_all];
    [apply frames_ret|].
  apply frames_bind; [apply frames_cache_write|]. intros _. exact IH.
Qed.

Lemma frames_input_opener {A} fname kwargs (body : Data -> Stage A) :
  (forall f, frames (body f)) -> frames (input_opener fname kwargs body).
Proof.
  intros Fb. unfold input_opener.
  apply frames_bind; [apply frames_log_info|]. intros _ s.
  cbv [bind get_world lift]. destruct (remote (world s) fname kwargs); cbn.
  - apply Fb.
  - split; [reflexivity|]. exists []. now rewrite app_nil_r.
Qed.

Lemma frames_self_input_opener {A} fname (body : Data -> Stage A) :
  (forall f, frames (body f)) -> frames (self_input_opener fname body).
Proof.
  intros Fb. unfold self_input_opener.
  apply frames_bind; [apply frames_get_self|]. intros self.
  apply frames_try_except.
  - apply frames_bind; [apply frames_cache_open_rb|]. intros f.
    apply frames_bind; [apply frames_log_info|]. intros _. apply Fb.
  - destruct (require_cache (config self)); [apply frames_raise|].
    apply frames_bind; [apply frames_log_info|]. intros _.
    apply frames_bind; [apply frames_lift|]. intros kwargs.
    now apply frames_input_opener.
Qed.

Lemma frames_open_input (input_key : IK) :
  frames (open_input input_key : Stage Dataset).
Proof.
  unfold open_input.
  apply frames_bind; [apply frames_get_self|]. intros self.
  apply frames_bind; [apply frames_lift|]. intros rec.
  apply frames_bind; [|intros ds; apply frames_ret].
  apply frames_self_input_opener. intros f.
  apply frames_bind; [apply frames_log_info|]. intros _. apply frames_lift.
Qed.

Lemma frames_open_chunk (chunk_key : CK) :
  frames (open_chunk chunk_key : Stage Dataset).
Proof.
  unfold open_chunk.
  apply frames_bind; [apply frames_get_self|]. intros self.
  apply frames_bind; [apply frames_log_info|]. intros _.
  apply frames_bind; [apply frames_lift|]. intros inputs.
  apply frames_bind; [apply frames_mapM; apply frames_open_input|]. intros dsets.
  apply frames_bind; [apply frames_lift|]. intros ds. apply frames_ret.
Qed.

Lemma frames_open_target : frames (open_target : Stage Dataset).
Proof.
  unfold open_target.
  apply frames_bind; [apply frames_target_get_mapper|]. intros _.
  frame_step.
Qed.

Lemma frames_initialize_target ds : frames (initialize_target ds : Stage unit).
Proof.
  unfold initialize_target.
  apply frames_bind; [apply frames_log_info|]. intros _.
  apply frames_bind; [apply frames_target_get_mapper|]. intros _.
  frame_step.
Qed.

Lemma frames_expand_target_dim dim dimsize :
  frames (expand_target_dim dim dimsize : Stage unit).
Proof.
  unfold expand_target_dim.
  apply frames_bind; [apply frames_get_self|]. intros self.
  apply frames_bind; [apply frames_target_get_mapper|]. intros _.
  apply frames_bind; [apply frames_open_target|]. intros _.
  frame_step.
Qed.

Lemma frames_cache_input (input_key : IK) :
  frames (cache_input input_key : Stage unit).
Proof.
  unfold cache_input.
  apply frames_bind; [apply frames_get_self|]. intros self.
  apply frames_bind; [apply frames_lift|]. intros rec.
  destruct (processed rec); [apply frames_log_info|].
  apply frames_bind; [apply frames_log_info|]. intros _.
  apply frames_input_opener. intros source.
  apply frames_bind; [apply frames_cache_open_wb|]. intros _.
  apply frames_cache_write_all.
Qed.

Lemma frames_store_chunk (chunk_key : CK) :
  frames (store_chunk chunk_key : Stage unit).
Proof.
  unfold store_chunk.
  apply frames_bind; [apply frames_get_self|]. intros self.
  apply frames_bind; [apply frames_lift|]. intros write_region.
  apply frames_bind; [apply frames_lift|]. intros inputs.
  apply frames_bind; [apply frames_lift|]. intros flags.
  destruct (forallb _ flags); [apply frames_log_info|].
  apply frames_bind; [apply frames_open_chunk|]. intros ds.
  apply frames_bind; [apply frames_target_get_mapper|]. intros _.
  apply frames_bind; [apply frames_log_info|]. intros _.
  apply frames_to_zarr_region.
Qed.

Lemma frames_prepare_target : frames (prepare_target : Stage unit).
Proof.
  unfold prepare_target.
  apply frames_bind; [apply frames_get_self|]. intros self.
  apply frames_bind.
  - apply frames_try_except.
    + apply frames_bind; [apply frames_open_target|]. intros _.
      apply frames_log_info.
    + apply frames_bind.
      * apply frames_mapM. intros chunk_key.
        apply frames_bind; [apply frames_open_chunk|]. intros ds.
        apply frames_ret.
      * intros dsets. apply frames_bind; [apply frames_lift|]. intros ds.
        apply frames_initialize_target.
  - intros _. apply frames_bind; [apply frames_lift|]. intros n.
    apply frames_expand_target_dim.
Qed.

Lemma frames_finalize_target : frames (finalize_target : Stage unit).
Proof.
  unfold finalize_target.
  apply frames_bind; [apply frames_get_self|]. intros self.
  destruct (consolidate_zarr (config self)); [|apply frames_ret].
  apply frames_bind; [apply frames_log_info|]. intros _.
  apply frames_bind; [apply frames_target_get_mapper|]. intros _.
  frame_step.
Qed.

(** C9. Whatever the state and the keys, each pipeline operation
    ([cache_input], [prepare_target], [store_chunk], [finalize_target]),
    whether it returns or raises, leaves the recipe object as it was, and
    with it the input index with every field of every record ([url] and
    [processed]), the chunk index, the initialization chunk set, the
    processed-input count and the configuration. *)
Theorem pipeline_keeps_indexes (s : St) (input_key : IK) (chunk_key : CK) :
  let after := fun m : Stage unit => self_obj (final_state (m s)) in
  (after (cache_input input_key) = self_obj s /\
   after prepare_target = self_obj s /\
   after (store_chunk chunk_key) = self_obj s /\
   after finalize_target = self_obj s) /\
  (same_indexes (after (cache_input input_key)) (self_obj s) /\
   same_indexes (after prepare_target) (self_obj s) /\
   same_indexes (after (store_chunk chunk_key)) (self_obj s) /\
   same_indexes (after finalize_target) (self_obj s)).
Proof.
  intros after.
  assert (A1 : after (cache_input input_key) = self_obj s)
    by apply frames_cache_input.
  assert (A2 : after prepare_target = self_obj s)
    by apply frames_prepare_target.
  assert (A3 : after (store_chunk chunk_key) = self_obj s)
    by apply frames_store_chunk.
  assert (A4 : after finalize_target = self_obj s)
    by apply frames_finalize_target.
  split; [now repeat split|].
  rewrite A1, A2, A3, A4. unfold same_indexes. now repeat split.
Qed.
End FrameFacts.

(** ** Stage functions: when they skip *)

Section SkipFacts.
Context {X : XarrayLib} {IK CK Ext : Type} `{Key IK} `{Key CK}
        `{!Variant IK CK Ext}.
Local Abbreviation St := (PyState IK CK Ext).
Local Abbreviation Stage := (M St).

(** The [processed] flags that [store_chunk] collects. *)
Definition processed_flags (self : Recipe IK CK Ext) (inputs : list IK)
  : result (list bool) :=
  rmap (fun input_key =>
          (let? rec := input_record self input_key in
           Ok (processed rec))%result)
       inputs.

Lemma processed_flags_all self inputs :
  (forall k, In k inputs ->
     exists rec, input_record self k = Ok rec /\ processed rec = true) ->
  exists flags,
    processed_flags self inputs = Ok flags /\
    forallb (fun b => b) flags = true.
Proof.
  unfold processed_flags.
  induction inputs as [|k inputs IH]; intros A.
  - exists []. now split.
  - destruct (A k (or_introl eq_refl)) as (rec & Er & Ep).
    destruct IH as (flags & Ef & Ea); [intros; apply A; now right|].
    exists (true :: flags). cbn [rmap]. rewrite Er. cbn [rbind].
    rewrite Ep, Ef. now split.
Qed.

Lemma processed_flags_some self inputs flags k :
  processed_flags self inputs = Ok flags -> In k inputs ->
  (forall rec, input_record self k = Ok rec -> processed rec = false) ->
  forallb (fun b => b) flags = false.
Proof.
  unfold processed_flags. revert flags.
  induction inputs as [|k0 inputs IH]; intros flags E I U; [destruct I|].
  cbn [rmap] in E.
  destruct (input_record self k0) as [rec|e] eqn:Er; [|discriminate].
  cbn [rbind] in E.
  destruct (rmap _ inputs) as [flags'|e] eqn:Ef; [|discriminate].
  cbn [rbind] in E. injection E as <-. cbn [forallb].
  destruct I as [->|I].
  - now rewrite (U rec Er).
  - rewrite (IH flags' eq_refl I U). apply andb_false_r.
Qed.

Lemma cache_input_skips (s : St) input_key rec :
  input_record (self_obj s) input_key = Ok rec -> processed rec = true ->
  cache_input input_key s = skip_outcome s "Dry-run: caching input".
Proof.
  intros Er Ep. unfold cache_input, bind, get_self.
  rewrite Er. cbn [lift ret]. now rewrite Ep.
Qed.

Lemma store_chunk_skips (s : St) chunk_key inputs :
  inputs_for_chunk (self_obj s) chunk_key = Ok inputs ->
  (forall k, In k inputs ->
     exists rec, input_record (self_obj s) k = Ok rec /\ processed rec = true) ->
  store_chunk chunk_key s = skip_outcome s "Dry-run: storing chunk".
Proof.
  intros Ei A. unfold store_chunk, bind, get_self.
  unfold region_for_chunk, nitems_for_chunk. rewrite Ei. cbn [rbind lift ret].
  destruct (processed_flags_all _ _ A) as (flags & Ef & Ea).
  unfold processed_flags in Ef. rewrite Ef. cbn [lift ret]. now rewrite Ea.
Qed.

(** C5. [cache_input] on a key whose record is marked processed, and
    [store_chunk] on a chunk key all of whose inputs are marked processed,
    only log the skip and return: the cache, the target, the remote files
    and the recipe are what they were, and the trace gains the one log
    line. *)
Theorem processed_inputs_are_skipped (s : St) input_key rec chunk_key inputs :
  input_record (self_obj s) input_key = Ok rec -> processed rec = true ->
  inputs_for_chunk (self_obj s) chunk_key = Ok inputs ->
  (forall k, In k inputs ->
     exists rec, input_record (self_obj s) k = Ok rec /\ processed rec = true) ->
  (cache_input input_key s = skip_outcome s "Dry-run: caching input" /\
   store_chunk chunk_key s = skip_outcome s "Dry-run: storing chunk") /\
  (let s1 := final_state (cache_input input_key s) in
   input_cache (world s1) = input_cache (world s) /\
   target (world s1) = target (world s) /\
   cache_writes s1 = cache_writes s) /\
  (let s1 := final_state (store_chunk chunk_key s) in
   input_cache (world s1) = input_cache (world s) /\
   target (world s1) = target (world s) /\
   target_writes s1 = target_writes s).
Proof.
  intros Er Ep Ei A.
  rewrite (cache_input_skips s input_key rec Er Ep).
  rewrite (store_chunk_skips s chunk_key inputs Ei A).
  split; [now split|].
  unfold skip_outcome, cache_writes, target_writes. cbn.
  rewrite !filter_app. cbn. rewrite !app_nil_r. now repeat split.
Qed.

Lemma frames_Done {A} (m : Stage A) s a s1 :
  frames m -> m s = Done a s1 ->
  exists evs, trace (world s1) = trace (world s) ++ evs.
Proof. intros F E. destruct (F s) as (_ & evs & Et). rewrite E in Et. now exists evs. Qed.

(** A computation that starts by logging [msg] does not end as the skip
    that logs [msg']. *)
Lemma logs_first_not_skip (k : Stage unit) s msg msg' :
  frames k -> msg <> msg' ->
  bind (log_info msg) (fun _ => k) s <> skip_outcome s msg'.
Proof.
  intros F N E. unfold bind in E. cbn in E.
  destruct (k _) as [[] s1|e s1] eqn:Ek; [|discriminate].
  apply (frames_Done k) in Ek; [|assumption]. destruct Ek as (evs & Et).
  unfold skip_outcome in E. injection E as ->. cbn in Et.
  rewrite <- app_assoc in Et. apply app_inv_head in Et.
  injection Et as Em _. congruence.
Qed.

Lemma cache_input_not_skipped (s : St) input_key :
  (forall rec, input_record (self_obj s) input_key = Ok rec ->
               processed rec = false) ->
  cache_input input_key s <> skip_outcome s "Dry-run: caching input".
Proof.
  intros U. unfold cache_input. unfold bind at 1 2. unfold get_self.
  destruct (input_record (self_obj s) input_key) as [rec|e] eqn:Er;
    cbn [lift ret raise]; [|discriminate].
  rewrite (U rec eq_refl).
  apply logs_first_not_skip; [|discriminate].
  apply frames_input_opener. intros source.
  apply frames_bind; [apply frames_cache_open_wb|]. intros _.
  apply frames_cache_write_all.
Qed.

Lemma store_chunk_not_skipped (s : St) chunk_key :
  (forall inputs, inputs_for_chunk (self_obj s) chunk_key = Ok inputs ->
     exists k, In k inputs /\
       forall rec, input_record (self_obj s) k = Ok rec ->
                   processed rec = false) ->
  store_chunk chunk_key s <> skip_outcome s "Dry-run: storing chunk".
Proof.
  intros U. unfold store_chunk. unfold bind at 1 2 3 4. unfold get_self.
  unfold region_for_chunk, nitems_for_chunk.
  destruct (inputs_for_chunk (self_obj s) chunk_key) as [inputs|e] eqn:Ei;
    cbn [rbind lift ret raise]; [|discriminate].
  destruct (U inputs eq_refl) as (k & Ik & Uk).
  destruct (rmap _ inputs) as [flags|e] eqn:Ef;
    cbn [lift ret raise]; [|discriminate].
  rewrite (processed_flags_some (self_obj s) inputs flags k Ef Ik Uk).
  unfold open_chunk.
  set (rest := fun ds_chunk : Dataset => bind target_get_mapper _).
  intros E.
  apply (logs_first_not_skip
           (bind (bind (lift (inputs_for_chunk (self_obj s) chunk_key))
                       (fun inputs =>
                          bind (mapM open_input inputs) (fun dsets =>
                          bind (lift (xr_concat dsets
                                        (sequence_dim (config (self_obj s)))
                                        (xarray_concat_kwargs (config (self_obj s)))))
                               (fun ds => ret
                                  match process_chunk (config (self_obj s)) with
                                  | Some hook => hook ds
                                  | None => ds
                                  end))))
                 rest)
           s "Concatenating inputs for chunk" "Dry-run: storing chunk").
  - apply frames_bind.
    + apply frames_bind; [apply frames_lift|]. intros inputs'.
      apply frames_bind; [apply frames_mapM; apply frames_open_input|].
      intros dsets. apply frames_bind; [apply frames_lift|]. intros ds.
      apply frames_ret.
    + intros ds. unfold rest.
      apply frames_bind; [apply frames_target_get_mapper|]. intros _.
      apply frames_bind; [apply frames_log_info|]. intros _.
      apply frames_to_zarr_region.
  - discriminate.
  - rewrite <- E. reflexivity.
Qed.
End SkipFacts.

(** ** Opening an input *)

Section OpenInputFacts.
Context {X : XarrayLib} {IK CK Ext : Type} `{Key IK}.
Local Abbreviation St := (PyState IK CK Ext).

(** An input that is not in the cache cannot be opened while the cache is
    required. *)
Lemma open_input_not_cached (s : St) input_key rec c :
  input_record (self_obj s) input_key = Ok rec ->
  input_cache (world s) = Some c -> dict_get c (url rec) = None ->
  require_cache (config (self_obj s)) = true ->
  open_input input_key s = Fail FileNotFoundError s.
Proof.
  intros Er Ec Eg Eq.
  unfold open_input, bind, get_self, self_input_opener, try_except, bind,
    get_self, cache_open_rb, bind, get_world.
  rewrite Er. cbn [lift ret]. rewrite Ec, Eg. cbn [raise is_IOError].
  now rewrite Eq.
Qed.

(** With [require_cache=False] the fallback reads an attribute the recipe
    does not have. *)
Lemma open_input_fallback (s : St) input_key rec c :
  input_record (self_obj s) input_key = Ok rec ->
  input_cache (world s) = Some c -> dict_get c (url rec) = None ->
  require_cache (config (self_obj s)) = false ->
  open_input input_key s =
  Fail (AttributeError "file_system_kwargs")
       (log_to s [LogInfo "No cache found. Opening input directly."]).
Proof.
  intros Er Ec Eg Eq.
  unfold open_input, bind, get_self, self_input_opener, try_except, bind,
    get_self, cache_open_rb, bind, get_world.
  rewrite Er. cbn [lift ret]. rewrite Ec, Eg. cbn [raise is_IOError].
  rewrite Eq. reflexivity.
Qed.
End OpenInputFacts.

(** C3. A sequential recipe over the one input ["a.nc"], both stores
    supplied, nothing cached.  With [require_cache=True], [open_input]
    raises the not-cached [FileNotFoundError]; with [require_cache=False]
    it raises [AttributeError] for [file_system_kwargs] instead of opening
    the source location. *)
Theorem open_input_uncached_outcomes :
  option_map observe
    (Demo.run (open_input 0)
              (Demo.sequential (Demo.config 1 2 true None) [] ["a.nc"])
              (Demo.a_world [] None))
  = Some (Raise FileNotFoundError) /\
  option_map observe
    (Demo.run (open_input 0)
              (Demo.sequential (Demo.config 1 2 false None) [] ["a.nc"])
              (Demo.a_world [] None))
  = Some (Raise (AttributeError "file_system_kwargs")).
Proof. split; reflexivity. Qed.

(** ** The multi-variable recipe: stages *)

Module MultiVarStageFacts.
Import MultiVar MultiVarFacts.
Section Facts.
Context {X : XarrayLib}.

(** C10. Construction of a multi-variable recipe sets the processed-input
    count to zero and marks every record unprocessed; the class declares no
    field through which processed locations could be supplied.  So neither
    [cache_input] nor [store_chunk] ever ends as the already-processed skip,
    whatever the key and the state of the stores. *)
Theorem multi_var_marks_nothing_processed c p (r : Self)
    (w : World) (input_key : IKey) (chunk_key : CKey) :
  post_init c p = Ok r ->
  let s := {| self_obj := r; world := w |} in
  processed_input_nb r = 0 /\
  (forall k rec, input_record r k = Ok rec -> processed rec = false) /\
  cache_input input_key s <> skip_outcome s "Dry-run: caching input" /\
  store_chunk chunk_key s <> skip_outcome s "Dry-run: storing chunk".
Proof.
  intros E s. destruct (nothing_processed c p r E) as (Enb & U).
  split; [exact Enb|]. split; [exact U|]. split.
  - apply cache_input_not_skipped. intros rec. apply U.
  - apply store_chunk_not_skipped. intros inputs Ei. cbn [self_obj s] in *.
    unfold inputs_for_chunk in Ei.
    destruct (dict_get (_chunks_inputs r) chunk_key) as [val|] eqn:Eg;
      [|discriminate].
    injection Ei as <-.
    destruct (chunk_lookup c p r _ _ E Eg) as (i & chunk & _ & En & _ & ->).
    apply nth_error_In in En. unfold axis_chunks in En.
    apply chunked_iterable_In_nonempty in En.
    destruct chunk as [|n chunk]; [congruence|].
    exists (fst chunk_key, n). split; [now left|]. intros rec. apply U.
Qed.
End Facts.
End MultiVarStageFacts.

(** ** Stage functions that only read *)

Section ReadFacts.
Context {X : XarrayLib} {IK CK Ext : Type} `{Key IK} `{Key CK}.
Local Abbreviation St := (PyState IK CK Ext).
Local Abbreviation Stage := (M St).

Lemma log_to_nil (s : St) : log_to s [] = s.
Proof.
  destruct s as [r [rem c t tr]]. unfold log_to. cbn. now rewrite app_nil_r.
Qed.

Lemma log_to_log_to (s : St) evs evs' :
  log_to (log_to s evs) evs' = log_to s (evs ++ evs').
Proof. unfold log_to. cbn. now rewrite app_assoc. Qed.

Lemma agree_refl (s : St) : agree s s.
Proof. now repeat split. Qed.

Lemma agree_log_to (s s' : St) evs evs' :
  agree s s' -> agree (log_to s evs) (log_to s' evs').
Proof. intros (A & B & C). now repeat split. Qed.

Lemma reads_ret {A} (a : A) : reads (ret a : Stage A).
Proof.
  intros s. exists (Ok a), []. intros s' _. now rewrite log_to_nil.
Qed.

Lemma reads_raise {A} e : reads (raise e : Stage A).
Proof.
  intros s. exists (Raise e), []. intros s' _. now rewrite log_to_nil.
Qed.

Lemma reads_lift {A} (r : result A) : reads (lift r : Stage A).
Proof. destruct r; [apply reads_ret|apply reads_raise]. Qed.

Lemma reads_bind {A B} (m : Stage A) (k : A -> Stage B) :
  reads m -> (forall a, reads (k a)) -> reads (bind m k).
Proof.
  intros Rm Rk s. destruct (Rm s) as ([a|e] & evs & Hm).
  - destruct (Rk a (log_to s evs)) as (r2 & evs2 & Hk).
    exists r2, (evs ++ evs2). intros s' Ag. unfold bind.
    rewrite (Hm s' Ag). cbn [finish].
    rewrite (Hk (log_to s' evs)) by now apply agree_log_to.
    now rewrite log_to_log_to.
  - exists (Raise e), evs. intros s' Ag. unfold bind. now rewrite (Hm s' Ag).
Qed.

Lemma reads_try_except {A} (m h : Stage A) caught :
  reads m -> reads h -> reads (try_except m caught h).
Proof.
  intros Rm Rh s. destruct (Rm s) as ([a|e] & evs & Hm).
  - exists (Ok a), evs. intros s' Ag. unfold try_except.
    now rewrite (Hm s' Ag).
  - destruct (caught e) eqn:Ec.
    + destruct (Rh (log_to s evs)) as (r2 & evs2 & Hh).
      exists r2, (evs ++ evs2). intros s' Ag. unfold try_except.
      rewrite (Hm s' Ag). cbn [finish]. rewrite Ec.
      rewrite (Hh (log_to s' evs)) by now apply agree_log_to.
      now rewrite log_to_log_to.
    + exists (Raise e), evs. intros s' Ag. unfold try_except.
      rewrite (Hm s' Ag). cbn [finish]. now rewrite Ec.
Qed.

Lemma reads_mapM {A B} (f : A -> Stage B) (l : list A) :
  (forall a, reads (f a)) -> reads (mapM f l).
Proof.
  intros Rf. induction l as [|x l IH]; cbn [mapM]; [apply reads_ret|].
  apply reads_bind; [apply Rf|]. intros y.
  apply reads_bind; [apply IH|]. intros ys. apply reads_ret.
Qed.

Lemma reads_get_self : reads (get_self : Stage _).
Proof.
  intros s. exists (Ok (self_obj s)), []. intros s' (A & _).
  rewrite log_to_nil. unfold get_self. now rewrite A.
Qed.

Lemma reads_log_info msg : reads (log_info msg : Stage unit).
Proof. intros s. exists (Ok tt), [LogInfo msg]. intros s' _. reflexivity. Qed.

Lemma reads_cache_open_rb fname : reads (cache_open_rb fname : Stage Data).
Proof.
  intros s.
  exists (match input_cache (world s) with
          | None => Raise UninitializedTargetError
          | Some c => match dict_get c fname with
                      | Some data => Ok data
                      | None => Raise FileNotFoundError
                      end
          end), [].
  intros s' (_ & _ & C). rewrite log_to_nil.
  unfold cache_open_rb, bind, get_world. rewrite <- C.
  destruct (input_cache (world s)) as [c|]; [|reflexivity].
  destruct (dict_get c fname); reflexivity.
Qed.

Lemma reads_input_opener {A} fname kwargs (body : Data -> Stage A) :
  (forall f, reads (body f)) -> reads (input_opener fname kwargs body).
Proof.
  intros Rb. unfold input_opener.
  apply reads_bind; [apply reads_log_info|]. intros _.
  assert (R : reads (bind get_world (fun w : World =>
                       lift (remote w fname kwargs)) : Stage Data)).
  { intros s. exists (remote (world s) fname kwargs), [].
    intros s' (_ & B & _). rewrite log_to_nil.
    unfold bind, get_world. rewrite <- B.
    destruct (remote (world s) fname kwargs); reflexivity. }
  intros s.
  destruct (reads_bind _ body R Rb s) as (r & evs & Hr).
  exists r, evs. intros s' Ag. rewrite <- (Hr s' Ag).
  unfold bind, get_world. destruct (remote (world s') fname kwargs); reflexivity.
Qed.

Lemma reads_self_input_opener {A} fname (body : Data -> Stage A) :
  (forall f, reads (body f)) -> reads (self_input_opener fname body).
Proof.
  intros Rb. unfold self_input_opener.
  apply reads_bind; [apply reads_get_self|]. intros self.
  apply reads_try_except.
  - apply reads_bind; [apply reads_cache_open_rb|]. intros f.
    apply reads_bind; [apply reads_log_info|]. intros _. apply Rb.
  - destruct (require_cache (config self)); [apply reads_raise|].
    apply reads_bind; [apply reads_log_info|]. intros _.
    apply reads_bind; [apply reads_lift|]. intros kwargs.
    now apply reads_input_opener.
Qed.

Lemma reads_open_input (input_key : IK) :
  reads (open_input input_key : Stage Dataset).
Proof.
  unfold open_input.
  apply reads_bind; [apply reads_get_self|]. intros self.
  apply reads_bind; [apply reads_lift|]. intros rec.
  apply reads_bind; [|intros ds; apply reads_ret].
  apply reads_self_input_opener. intros f.
  apply reads_bind; [apply reads_log_info|]. intros _. apply reads_lift.
Qed.

Lemma reads_open_chunk (chunk_key : CK) :
  reads (open_chunk chunk_key : Stage Dataset).
Proof.
  unfold open_chunk.
  apply reads_bind; [apply reads_get_self|]. intros self.
  apply reads_bind; [apply reads_log_info|]. intros _.
  apply reads_bind; [apply reads_lift|]. intros inputs.
  apply reads_bind; [apply reads_mapM; apply reads_open_input|]. intros dsets.
  apply reads_bind; [apply reads_lift|]. intros ds. apply reads_ret.
Qed.
End ReadFacts.

(** ** Stage functions that write *)

Lemma dict_set_same {K V} `{Key K} (d : dict K V) k v :
  dict_get d k = Some v -> dict_set d k v = d.
Proof.
  induction d as [|[k0 v0] d IH]; simpl; [discriminate|].
  destruct (key_eqb k k0) eqn:E.
  - now intros [= ->].
  - intros G. now rewrite IH.
Qed.

Lemma read_block_app n (source : Data) :
  fst (read_block n source) ++ snd (read_block n source) = source.
Proof.
  revert n. induction source as [|b rest IH]; intros n; [reflexivity|].
  cbn [read_block]. destruct (n <=? 0); [reflexivity|].
  specialize (IH (n - 1)). destruct (read_block (n - 1) rest) as [d r].
  cbn in *. now rewrite IH.
Qed.

Lemma read_block_progress n (source : Data) :
  0 < n -> source <> [] -> fst (read_block n source) <> [].
Proof.
  intros Hn NE. destruct source as [|b rest]; [congruence|].
  cbn [read_block]. destruct (Z.leb_spec n 0); [lia|].
  destruct (read_block (n - 1) rest). discriminate.
Qed.

(** The copy loop ends and hands over the whole file. *)
Lemma copy_blocks_concat : forall fuel (source : Data),
  (length source < fuel)%nat -> concat (copy_blocks fuel source) = source.
Proof.
  induction fuel as [|fuel IH]; intros source Hl; [lia|].
  cbn [copy_blocks].
  assert (A := read_block_app BLOCK_SIZE source).
  assert (P := read_block_progress BLOCK_SIZE source).
  destruct (read_block BLOCK_SIZE source) as [data rest]. cbn [fst snd] in *.
  destruct data as [|b data].
  - destruct source as [|b' source]; [reflexivity|].
    exfalso. apply P; [reflexivity|discriminate|reflexivity].
  - cbn [concat]. rewrite IH; [exact A|].
    rewrite <- A in Hl. rewrite length_app in Hl. simpl in Hl. lia.
Qed.

Section WriteFacts.
Context {X : XarrayLib} {IK CK Ext : Type} `{Key IK} `{Key CK}
        `{!Variant IK CK Ext}.
Local Abbreviation St := (PyState IK CK Ext).
Local Abbreviation Stage := (M St).

Lemma cache_write_all_effect fname blocks : forall (s : St) c old,
  input_cache (world s) = Some c -> dict_get c fname = Some old ->
  cache_write_all fname blocks s =
  Done tt (with_cache s (dict_set c fname (old ++ concat blocks))
                      (map (CacheWrite fname) blocks)).
Proof.
  induction blocks as [|b blocks IH]; intros s c old Ec Eg.
  - cbn. rewrite app_nil_r, (dict_set_same c fname old Eg).
    destruct s as [r [rem ic t tr]]. cbn in *. subst ic.
    unfold with_cache, ret. cbn. now rewrite app_nil_r.
  - cbn [cache_write_all]. unfold bind at 1.
    unfold cache_write, bind, get_world, put_world. rewrite Ec, Eg.
    erewrite IH; [|reflexivity|apply dict_get_set_same].
    unfold with_cache. cbn. rewrite dict_set_set, <- !app_assoc. reflexivity.
Qed.

(** What [cache_input] does to an unprocessed input whose source opens,
    with a cache supplied: it leaves the source's bytes in the cache. *)
Lemma cache_input_effect (s : St) input_key rec source c :
  input_record (self_obj s) input_key = Ok rec -> processed rec = false ->
  remote (world s) (url rec) (fsspec_open_kwargs (config (self_obj s)))
    = Ok source ->
  input_cache (world s) = Some c ->
  cache_input input_key s =
  Done tt (with_cache s (dict_set c (url rec) source)
             (LogInfo "Caching input" :: LogInfo "Opening input"
              :: map (CacheWrite (url rec))
                     (copy_blocks (S (length source)) source))).
Proof.
  intros Er Ep Es Ec.
  unfold cache_input. unfold bind at 1 2. unfold get_self.
  rewrite Er. cbn [lift ret]. rewrite Ep.
  unfold bind at 1. cbn [log_info do_event bind get_world put_world].
  unfold input_opener. unfold bind at 1.
  cbn [log_info do_event bind get_world put_world world emit remote].
  rewrite Es. cbn [lift ret].
  unfold cache_open_wb at 1.
  unfold bind at 1. cbn [ret]. unfold bind at 1. unfold bind at 1.
  cbn [get_world world self_obj emit input_cache].
  rewrite Ec. cbn [put_world world self_obj].
  erewrite cache_write_all_effect; [|reflexivity|apply dict_get_set_same].
  unfold with_cache.
  cbn [self_obj world remote input_cache target trace set_input_cache emit].
  rewrite dict_set_set. change ([] ++ ?x) with x.
  rewrite copy_blocks_concat by lia.
  rewrite <- !app_assoc. reflexivity.
Qed.

(** What [store_chunk] does when some input is unprocessed, the chunk
    opens and the target holds a dataset. *)
Lemma store_chunk_effect (s : St) chunk_key region inputs flags ds evs z :
  region_for_chunk (self_obj s) chunk_key = Ok region ->
  inputs_for_chunk (self_obj s) chunk_key = Ok inputs ->
  processed_flags (self_obj s) inputs = Ok flags ->
  forallb (fun b => b) flags = false ->
  open_chunk chunk_key s = Done ds (log_to s evs) ->
  target (world s) = Some (Some z) ->
  store_chunk chunk_key s =
  Done tt (with_target s
             (write_region z region
                (drop_vars_without (sequence_dim (config (self_obj s))) ds))
             (evs ++ [LogInfo "Storing chunk";
                      TargetWrite (region_start region) (region_stop region)])).
Proof.
  intros Eg Ei Ef Ea Eo Et.
  unfold store_chunk. unfold bind at 1 2 3 4. unfold get_self.
  rewrite Eg, Ei. cbn [lift ret]. unfold processed_flags in Ef. rewrite Ef.
  cbn [lift ret]. rewrite Ea. unfold bind at 1. rewrite Eo.
  unfold bind at 1. unfold target_get_mapper at 1.
  cbn [bind get_world world log_to target]. rewrite Et. cbn [ret].
  unfold bind at 1. cbn [log_info do_event bind get_world put_world].
  unfold to_zarr_region. cbn [bind get_world put_world world emit target].
  change (target (world (log_to s evs))) with (target (world s)).
  rewrite Et. unfold with_target, write_region, set_target, put_world, emit.
  cbn. rewrite <- !app_assoc. reflexivity.
Qed.
End WriteFacts.

(** ** The sequential recipe: which inputs a chunk holds *)

Lemma enumerate_from_keys {A} (l : list A) : forall s,
  map fst (enumerate_from s l) =
  map (fun i => s + Z.of_nat i) (seq 0 (length l)).
Proof.
  induction l as [|x l IH]; intros s; [reflexivity|].
  cbn [enumerate_from map length seq fst]. f_equal; [lia|].
  rewrite IH, <- seq_shift, map_map. apply map_ext. intros i. lia.
Qed.

Lemma enumerate_keys {A} (l : list A) :
  map fst (enumerate l) = map Z.of_nat (seq 0 (length l)).
Proof.
  unfold enumerate. rewrite enumerate_from_keys. apply map_ext. intros i. lia.
Qed.

Lemma dict_get_enumerate_from {A} (l : list A) : forall s k,
  dict_get (enumerate_from s l) k =
  if s <=? k then nth_error l (Z.to_nat (k - s)) else None.
Proof.
  induction l as [|x l IH]; intros s k.
  - cbn. destruct (s <=? k); [|reflexivity]. now destruct (Z.to_nat (k - s)).
  - cbn [enumerate_from dict_get key_eqb Z_Key].
    destruct (Z.eqb_spec k s) as [->|N].
    + rewrite Z.leb_refl, Z.sub_diag. reflexivity.
    + rewrite IH. destruct (Z.leb_spec s k), (Z.leb_spec (s + 1) k); try lia.
      * replace (Z.to_nat (k - s)) with (S (Z.to_nat (k - (s + 1)))) by lia.
        reflexivity.
      * reflexivity.
Qed.

Lemma chunked_fuel_nth {A} (size : nat) : forall fuel (l : list A) i,
  (0 < size)%nat -> (length l <= fuel)%nat ->
  nth_error (chunked_fuel fuel size l) i =
  if (i * size <? length l)%nat
  then Some (firstn size (skipn (i * size) l)) else None.
Proof.
  induction fuel as [|fuel IH]; intros l i Hs Hl.
  - destruct l; [|simpl in Hl; lia]. cbn [chunked_fuel length].
    destruct (Nat.ltb_spec (i * size) 0); [lia|]. now destruct i.
  - cbn [chunked_fuel]. destruct l as [|x l'] eqn:El.
    + cbn [length]. destruct (Nat.ltb_spec (i * size) 0); [lia|]. now destruct i.
    + rewrite <- El in *. destruct i as [|j].
      * cbn [nth_error Nat.mul skipn].
        destruct (Nat.ltb_spec 0 (length l)); [reflexivity|].
        subst l. simpl in *. lia.
      * cbn [nth_error]. rewrite IH by (try rewrite length_skipn; lia).
        rewrite length_skipn, skipn_skipn.
        replace (j * size + size)%nat with (S j * size)%nat by lia.
        destruct (Nat.ltb_spec (j * size) (length l - size)),
                 (Nat.ltb_spec (S j * size) (length l)); try lia; reflexivity.
Qed.

Lemma seq_from (b m : nat) : seq b m = map (Nat.add b) (seq 0 m).
Proof.
  revert b. induction m as [|m IH]; intros b; [reflexivity|].
  cbn [seq map]. f_equal; [lia|].
  rewrite (IH (S b)), <- seq_shift, map_map. apply map_ext. intros i. lia.
Qed.

Lemma firstn_seq_min (a : nat) : forall s m,
  firstn a (seq s m) = seq s (Nat.min a m).
Proof.
  induction a as [|a IH]; intros s m; [reflexivity|].
  destruct m as [|m]; [reflexivity|]. cbn [seq firstn Nat.min]. now rewrite IH.
Qed.

Lemma sum_nitems {A} (n : Z) (chunks : list (list A)) :
  sum (map (fun c => n * Z.of_nat (length c)) chunks) =
  n * Z.of_nat (length (concat chunks)).
Proof.
  induction chunks as [|c chunks IH]; [cbn; lia|].
  cbn [map concat]. rewrite sum_cons, IH, length_app. lia.
Qed.

Module SequentialChunks.
Import Sequential.
Section Facts.
Context {X : XarrayLib}.

(** The chunk at key [k]: up to [per] consecutive input keys from
    [k * per] on, as many as are left of the [n] inputs. *)
Lemma chunk_lookup_consecutive c P I (r : Self) (k : Z) :
  post_init c P I = Ok r -> 1 <= inputs_per_chunk c ->
  inputs_for_chunk r k =
  if (0 <=? k) && (k * inputs_per_chunk c <? Z.of_nat (length (P ++ I)))
  then Ok (map (fun j => k * inputs_per_chunk c + Z.of_nat j)
               (seq 0 (Z.to_nat (Z.min (inputs_per_chunk c)
                                       (Z.of_nat (length (P ++ I))
                                        - k * inputs_per_chunk c)))))
  else Raise KeyError.
Proof.
  intros E Hs.
  destruct (SequentialFacts.post_init_Ok _ _ _ _ E) as (_ & _ & _ & _ & EC & _).
  unfold inputs_for_chunk. rewrite EC. unfold enumerate at 1.
  rewrite dict_get_enumerate_from, Z.sub_0_r.
  destruct (Z.leb_spec 0 k) as [Hk|Hk]; [|reflexivity]. cbn [andb].
  unfold chunked_iterable. destruct (Z.leb_spec (inputs_per_chunk c) 0); [lia|].
  rewrite chunked_fuel_nth by lia.
  rewrite enumerate_keys, length_map, length_seq.
  set (n := length (P ++ I)). set (per := inputs_per_chunk c) in *.
  destruct (Nat.ltb_spec (Z.to_nat k * Z.to_nat per) n),
           (Z.ltb_spec (k * per) (Z.of_nat n)); try nia; [|reflexivity].
  f_equal. rewrite skipn_map, firstn_map, skipn_seq, firstn_seq_min.
  rewrite seq_from, map_map. cbn [Nat.add].
  replace (Nat.min (Z.to_nat per) (n - Z.to_nat k * Z.to_nat per))
    with (Z.to_nat (Z.min per (Z.of_nat n - k * per))) by nia.
  apply map_ext. intros j. nia.
Qed.

(** X1. In a sequential recipe with [inputs_per_chunk >= 1],
    [inputs_for_chunk(k)] returns the consecutive input keys [k * per],
    [k * per + 1], ... : [per] of them, or as many as are left of the [n]
    inputs; it raises [KeyError] exactly for the keys [k] outside
    [0 <= k], [k * per < n]. *)
Theorem chunk_holds_consecutive_inputs c P I (r : Self) (chunk_key : Z) :
  post_init c P I = Ok r -> 1 <= inputs_per_chunk c ->
  let per := inputs_per_chunk c in
  let n := Z.of_nat (length (P ++ I)) in
  (forall inputs, inputs_for_chunk r chunk_key = Ok inputs ->
     0 <= chunk_key /\ chunk_key * per < n /\
     inputs = map (fun j => chunk_key * per + Z.of_nat j)
                  (seq 0 (Z.to_nat (Z.min per (n - chunk_key * per))))) /\
  (inputs_for_chunk r chunk_key = Raise KeyError <->
   chunk_key < 0 \/ n <= chunk_key * per) /\
  (forall e, inputs_for_chunk r chunk_key = Raise e -> e = KeyError).
Proof.
  intros E Hs per n. rewrite (chunk_lookup_consecutive _ _ _ _ chunk_key E Hs).
  fold per n.
  destruct (Z.leb_spec 0 chunk_key) as [Hk|Hk],
           (Z.ltb_spec (chunk_key * per) n) as [Hn|Hn]; cbn [andb].
  1: { split; [|split].
       - intros inputs [= <-]. repeat split; assumption.
       - split; [discriminate|lia].
       - discriminate. }
  all: split; [discriminate|];
       split; [split; [lia|reflexivity] | now intros e [= <-]].
Qed.

(** X2. In a sequential recipe with [inputs_per_chunk >= 1], the input
    with key [i] is among the inputs of the chunk [i // inputs_per_chunk] and
    of no other chunk. *)
Theorem input_found_in_one_chunk c P I (r : Self) (i : Z) :
  post_init c P I = Ok r -> 1 <= inputs_per_chunk c ->
  0 <= i < Z.of_nat (length (P ++ I)) ->
  (exists inputs,
     inputs_for_chunk r (i / inputs_per_chunk c) = Ok inputs /\ In i inputs) /\
  (forall chunk_key inputs,
     inputs_for_chunk r chunk_key = Ok inputs -> In i inputs ->
     chunk_key = i / inputs_per_chunk c).
Proof.
  intros E Hs Hi. set (per := inputs_per_chunk c) in *.
  assert (D := Z.div_mod i per ltac:(lia)).
  assert (B := Z.mod_pos_bound i per ltac:(lia)).
  split.
  - rewrite (chunk_lookup_consecutive _ _ _ _ (i / per) E Hs). fold per.
    assert (0 <= i / per) by (apply Z.div_pos; lia).
    destruct (Z.leb_spec 0 (i / per)); [|lia].
    destruct (Z.ltb_spec (i / per * per) (Z.of_nat (length (P ++ I)))); [|lia].
    cbn [andb]. eexists; split; [reflexivity|].
    apply in_map_iff. exists (Z.to_nat (i mod per)). split; [lia|].
    apply in_seq. lia.
  - intros chunk_key inputs L Hin.
    rewrite (chunk_lookup_consecutive _ _ _ _ chunk_key E Hs) in L. fold per in L.
    destruct (Z.leb_spec 0 chunk_key); [|discriminate].
    destruct (Z.ltb_spec (chunk_key * per) (Z.of_nat (length (P ++ I))));
      [|discriminate].
    cbn [andb] in L. injection L as <-.
    apply in_map_iff in Hin. destruct Hin as (j & <- & Hj). apply in_seq in Hj.
    apply Z.div_unique with (r := Z.of_nat j); lia.
Qed.

Lemma chunks_NoDup c P I (r : Self) :
  post_init c P I = Ok r -> NoDup (dict_keys (_chunks_inputs r)).
Proof.
  intros E.
  destruct (SequentialFacts.post_init_Ok _ _ _ _ E) as (_ & _ & _ & _ & -> & _).
  apply enumerate_from_NoDup.
Qed.

(** X3. Iterating the inputs of a sequential recipe chunk by chunk visits
    the input keys [0, 1, ..., n - 1] once each and in order: the grouping
    into chunks loses, repeats and reorders nothing. *)
Theorem iter_inputs_visits_every_input_once c P I (r : Self) :
  post_init c P I = Ok r -> 1 <= inputs_per_chunk c ->
  iter_inputs r = Ok (map Z.of_nat (seq 0 (length (P ++ I)))) /\
  iter_inputs r = Ok (dict_keys (_inputs r)).
Proof.
  intros E Hs.
  assert (K : iter_inputs r = Ok (map Z.of_nat (seq 0 (length (P ++ I))))).
  { unfold iter_inputs, inputs_for_chunk, iter_chunks.
    rewrite (rmap_dict_keys (_chunks_inputs r) (fun _ inputs => inputs))
      by (eapply chunks_NoDup; eassumption).
    destruct (SequentialFacts.post_init_Ok _ _ _ _ E) as (_ & _ & _ & _ & -> & _).
    cbn [rbind]. change (map (fun kv => snd kv)) with (@map (Z * list Z) _ snd).
    unfold enumerate at 1. rewrite enumerate_from_snd.
    rewrite chunked_iterable_concat by assumption. now rewrite enumerate_keys. }
  split; [exact K|]. rewrite K. f_equal.
  destruct (SequentialFacts.post_init_Ok _ _ _ _ E) as (_ & _ & _ & -> & _).
  unfold dict_keys. rewrite map_map. cbn [input_record_of fst].
  symmetry. apply (enumerate_keys (P ++ I)).
Qed.

(** X4. The length a sequential recipe computes for the sequence dimension
    is [nitems_per_input] times the number of its inputs, processed ones
    included. *)
Theorem sequence_len_counts_every_input c P I (r : Self) :
  post_init c P I = Ok r -> 1 <= inputs_per_chunk c ->
  sequence_len r =
  Ok (nitems_per_input c * Z.of_nat (length P + length I)).
Proof.
  intros E Hs. cbn [sequence_len variant].
  rewrite nitems_of_all_chunks by (eapply chunks_NoDup; eassumption).
  destruct (SequentialFacts.post_init_Ok _ _ _ _ E) as (_ & -> & _ & _ & -> & _).
  cbn [rbind]. f_equal.
  rewrite <- (map_map snd (fun inputs => nitems_per_input c * Z.of_nat (length inputs))).
  unfold enumerate at 1. rewrite enumerate_from_snd, sum_nitems.
  rewrite chunked_iterable_concat by assumption.
  now rewrite SequentialFacts.enumerate_keys_length, length_app.
Qed.

(** X5. In a sequential recipe every region starts at its chunk key times
    the chunk length [sequence_chunks()] announces, is never longer than
    that length, and has exactly that length unless its chunk is the last
    one. *)
Theorem regions_follow_sequence_chunks c P I (r : Self) chunk_key region :
  post_init c P I = Ok r -> 1 <= inputs_per_chunk c ->
  0 <= nitems_per_input c ->
  region_for_chunk r chunk_key = Ok region ->
  region_dim region = fst (sequence_chunks r) /\
  region_start region = chunk_key * snd (sequence_chunks r) /\
  region_length region <= snd (sequence_chunks r) /\
  (In (chunk_key + 1) (iter_chunks r) ->
   region_length region = snd (sequence_chunks r)).
Proof.
  intros E Hs Hn R.
  destruct (SequentialFacts.post_init_Ok _ _ _ _ E) as (_ & Ec & _).
  unfold region_for_chunk, nitems_for_chunk in R.
  assert (L := chunk_lookup_consecutive _ _ _ _ chunk_key E Hs).
  assert (L' := chunk_lookup_consecutive _ _ _ _ (chunk_key + 1) E Hs).
  destruct (inputs_for_chunk r chunk_key) as [inputs|e] eqn:EI; [|discriminate].
  cbn [rbind] in R. injection R as <-.
  unfold sequence_chunks, region_length.
  cbn [region_dim region_start region_stop fst snd chunk_position variant].
  rewrite Ec. set (per := inputs_per_chunk c) in *.
  set (n := Z.of_nat (length (P ++ I))) in *.
  destruct (Z.leb_spec 0 chunk_key); [|discriminate].
  destruct (Z.ltb_spec (chunk_key * per) n); [|discriminate].
  cbn [andb] in L. injection L as ->. rewrite length_map, length_seq.
  repeat split; try nia.
  intros Hnext.
  destruct (Z.ltb_spec ((chunk_key + 1) * per) n); [nia|].
  exfalso. rewrite andb_false_r in L'. unfold inputs_for_chunk in L'.
  destruct (dict_get (_chunks_inputs r) (chunk_key + 1)) eqn:G; [discriminate|].
  apply dict_get_None in G. contradiction.
Qed.

(** X6. The constructor of a sequential recipe whose validation passes
    raises [StopIteration] when it is given no input location at all, and
    with [inputs_per_chunk >= 1] in no other case. *)
Theorem no_input_raises_StopIteration c P I :
  base_post_init c = Ok tt -> 1 <= inputs_per_chunk c ->
  (post_init c P I = Raise StopIteration <-> P ++ I = []).
Proof.
  intros B Hs. split.
  - intros R. destruct (P ++ I) eqn:EPI; [reflexivity|]. exfalso.
    destruct (SequentialFacts.post_init_total c P I B Hs) as [r Er].
    + rewrite EPI. discriminate.
    + rewrite Er in R. discriminate.
  - intros EPI. unfold post_init. rewrite B, EPI. cbn [rbind].
    unfold build_chunks_inputs, chunked_iterable. cbn.
    now destruct (inputs_per_chunk c <=? 0).
Qed.
End Facts.

Lemma chunk_holds_consecutive_inputs_witness :
  post_init (Demo.config 2 3 true None) ["p.nc"] ["a.nc"; "b.nc"]
    = Ok Examples.three_inputs /\
  1 <= 2 /\
  (forall inputs, inputs_for_chunk Examples.three_inputs 1 = Ok inputs ->
     0 <= 1 /\ 1 * 2 < 3 /\ inputs = [2]) /\
  (inputs_for_chunk Examples.three_inputs 1 = Raise KeyError <->
   1 < 0 \/ 3 <= 1 * 2) /\
  (forall e, inputs_for_chunk Examples.three_inputs 1 = Raise e -> e = KeyError).
Proof.
  split; [reflexivity|]. split; [lia|].
  exact (chunk_holds_consecutive_inputs
           (Demo.config 2 3 true None) ["p.nc"] ["a.nc"; "b.nc"]
           Examples.three_inputs 1 eq_refl ltac:(cbn; lia)).
Defined.

Lemma input_found_in_one_chunk_witness :
  post_init (Demo.config 2 3 true None) ["p.nc"] ["a.nc"; "b.nc"]
    = Ok Examples.three_inputs /\
  1 <= 2 /\ 0 <= 2 < 3 /\
  (exists inputs,
     inputs_for_chunk Examples.three_inputs 1 = Ok inputs /\ In 2 inputs) /\
  (forall chunk_key inputs,
     inputs_for_chunk Examples.three_inputs chunk_key = Ok inputs -> In 2 inputs ->
     chunk_key = 1).
Proof.
  split; [reflexivity|]. split; [lia|]. split; [lia|].
  exact (input_found_in_one_chunk
           (Demo.config 2 3 true None) ["p.nc"] ["a.nc"; "b.nc"]
           Examples.three_inputs 2 eq_refl ltac:(cbn; lia) ltac:(cbn; lia)).
Defined.

Lemma iter_inputs_visits_every_input_once_witness :
  post_init (Demo.config 2 3 true None) ["p.nc"] ["a.nc"; "b.nc"]
    = Ok Examples.three_inputs /\
  1 <= 2 /\
  iter_inputs Examples.three_inputs = Ok [0; 1; 2] /\
  iter_inputs Examples.three_inputs = Ok (dict_keys (_inputs Examples.three_inputs)).
Proof.
  split; [reflexivity|]. split; [lia|].
  exact (iter_inputs_visits_every_input_once
           (Demo.config 2 3 true None) ["p.nc"] ["a.nc"; "b.nc"]
           Examples.three_inputs eq_refl ltac:(cbn; lia)).
Defined.

Lemma sequence_len_counts_every_input_witness :
  post_init (Demo.config 2 3 true None) ["p.nc"] ["a.nc"; "b.nc"]
    = Ok Examples.three_inputs /\
  1 <= 2 /\
  sequence_len Examples.three_inputs = Ok 9.
Proof.
  split; [reflexivity|]. split; [lia|].
  exact (sequence_len_counts_every_input
           (Demo.config 2 3 true None) ["p.nc"] ["a.nc"; "b.nc"]
           Examples.three_inputs eq_refl ltac:(cbn; lia)).
Defined.

Lemma regions_follow_sequence_chunks_witness :
  post_init (Demo.config 2 3 true None) ["p.nc"] ["a.nc"; "b.nc"]
    = Ok Examples.three_inputs /\
  1 <= 2 /\ 0 <= 3 /\
  region_for_chunk Examples.three_inputs 0
    = Ok {| region_dim := Some "time"; region_start := 0; region_stop := 6 |} /\
  Some "time" = fst (sequence_chunks Examples.three_inputs) /\
  0 = 0 * snd (sequence_chunks Examples.three_inputs) /\
  6 - 0 <= snd (sequence_chunks Examples.three_inputs) /\
  (In (0 + 1) (iter_chunks Examples.three_inputs) ->
   6 - 0 = snd (sequence_chunks Examples.three_inputs)).
Proof.
  split; [reflexivity|]. split; [lia|]. split; [lia|]. split; [reflexivity|].
  exact (regions_follow_sequence_chunks
           (Demo.config 2 3 true None) ["p.nc"] ["a.nc"; "b.nc"]
           Examples.three_inputs 0 _ eq_refl ltac:(cbn; lia) ltac:(cbn; lia) eq_refl).
Defined.

Lemma no_input_raises_StopIteration_witness :
  base_post_init (Demo.config 2 3 true None) = Ok tt /\
  1 <= 2 /\
  (post_init (Demo.config 2 3 true None) [] [] = Raise StopIteration <->
   @nil string ++ [] = []).
Proof.
  split; [reflexivity|]. split; [lia|].
  exact (no_input_raises_StopIteration
           (Demo.config 2 3 true None) [] [] eq_refl ltac:(cbn; lia)).
Defined.
End SequentialChunks.

(** ** Validation of the requested chunk length *)

Section ValidationFacts.
Context {X : XarrayLib}.

(** The checks [__post_init__] runs on a requested chunk length [n]. *)
Lemma base_post_init_requested (c : Config) n :
  requested_chunk_length c = Some n ->
  base_post_init c =
  if n =? 0 then Ok tt
  else if nitems_per_input c <? n then Raise ValueError
  else if 0 <? nitems_per_input c mod n then Raise ValueError
  else Ok tt.
Proof.
  unfold requested_chunk_length, base_post_init.
  destruct (target_chunks c) as [[|kv tc]|]; [| |discriminate].
  - destruct (sequence_dim c); discriminate.
  - intros ->. now rewrite !Z.gtb_ltb.
Qed.

(** X7. A positive chunk length requested for the sequence dimension
    passes the validation exactly when it divides [nitems_per_input]
    (taken to be at least one); otherwise the validation raises
    [ValueError], and so do the constructors of both recipe classes,
    whatever their inputs. *)
Theorem positive_chunk_length_must_divide (c : Config) n :
  requested_chunk_length c = Some n -> 1 <= n -> 1 <= nitems_per_input c ->
  ((n | nitems_per_input c) -> base_post_init c = Ok tt) /\
  (~ (n | nitems_per_input c) ->
   base_post_init c = Raise ValueError /\
   (forall P I, Sequential.post_init c P I = Raise ValueError) /\
   (forall p, MultiVar.post_init c p = Raise ValueError)).
Proof.
  intros R Hn Hi. rewrite (base_post_init_requested c n R).
  assert (D := Z.mod_divide (nitems_per_input c) n ltac:(lia)).
  assert (B := Z.mod_pos_bound (nitems_per_input c) n ltac:(lia)).
  unfold Sequential.post_init, MultiVar.post_init.
  rewrite (base_post_init_requested c n R).
  destruct (Z.eqb_spec n 0); [lia|].
  destruct (Z.ltb_spec (nitems_per_input c) n) as [Hgt|Hle].
  - split; [|now intros _].
    intros Hd. apply Z.divide_pos_le in Hd; lia.
  - destruct (Z.ltb_spec 0 (nitems_per_input c mod n)) as [Hm|Hm].
    + split; [|now intros _]. intros Hd. apply D in Hd. lia.
    + split; [reflexivity|]. intros Nd. exfalso. apply Nd, D. lia.
Qed.

(** X8. The validation never rejects a configuration that requests no
    chunk length for the sequence dimension, nor one that requests a length
    of zero or a negative length (with [nitems_per_input >= 0]). *)
Theorem nonpositive_chunk_length_is_accepted (c : Config) :
  0 <= nitems_per_input c ->
  (requested_chunk_length c = None \/
   exists n, requested_chunk_length c = Some n /\ n <= 0) ->
  base_post_init c = Ok tt.
Proof.
  intros Hi [R|(n & R & Hn)].
  - unfold requested_chunk_length in R. unfold base_post_init.
    destruct (target_chunks c) as [[|kv tc]|]; try reflexivity. now rewrite R.
  - rewrite (base_post_init_requested c n R).
    destruct (Z.eqb_spec n 0); [reflexivity|].
    destruct (Z.ltb_spec (nitems_per_input c) n); [lia|].
    assert (B := Z.mod_neg_bound (nitems_per_input c) n ltac:(lia)).
    destruct (Z.ltb_spec 0 (nitems_per_input c mod n)); [lia|reflexivity].
Qed.
End ValidationFacts.

Lemma positive_chunk_length_must_divide_witness :
  requested_chunk_length (Demo.config 1 10 true (Some [("lon", 12); ("time", 3)]))
    = Some 3 /\
  1 <= 3 /\ 1 <= 10 /\
  ((3 | 10) ->
   base_post_init (Demo.config 1 10 true (Some [("lon", 12); ("time", 3)]))
     = Ok tt) /\
  (~ (3 | 10) ->
   base_post_init (Demo.config 1 10 true (Some [("lon", 12); ("time", 3)]))
     = Raise ValueError /\
   (forall P I,
      Sequential.post_init
        (Demo.config 1 10 true (Some [("lon", 12); ("time", 3)])) P I
      = Raise ValueError) /\
   (forall p,
      MultiVar.post_init
        (Demo.config 1 10 true (Some [("lon", 12); ("time", 3)])) p
      = Raise ValueError)).
Proof.
  split; [reflexivity|]. split; [lia|]. split; [lia|].
  exact (positive_chunk_length_must_divide
           (Demo.config 1 10 true (Some [("lon", 12); ("time", 3)])) 3
           eq_refl ltac:(lia) ltac:(cbn; lia)).
Defined.

Lemma nonpositive_chunk_length_is_accepted_witness :
  0 <= 10 /\
  (requested_chunk_length (Demo.config 1 10 true (Some [("time", -3)])) = None \/
   exists n,
     requested_chunk_length (Demo.config 1 10 true (Some [("time", -3)]))
       = Some n /\ n <= 0) /\
  base_post_init (Demo.config 1 10 true (Some [("time", -3)])) = Ok tt.
Proof.
  split; [lia|].
  assert (W : requested_chunk_length
                (Demo.config 1 10 true (Some [("time", -3)])) = None \/
              exists n,
                requested_chunk_length
                  (Demo.config 1 10 true (Some [("time", -3)])) = Some n /\
                n <= 0).
  { right. exists (-3). split; [reflexivity|lia]. }
  split; [exact W|].
  exact (nonpositive_chunk_length_is_accepted
           (Demo.config 1 10 true (Some [("time", -3)])) ltac:(cbn; lia) W).
Defined.

(** ** Dictionaries filled group by group *)

Section GroupFacts.
Context {K : Type} `{Key K}.

Lemma add_keys_app_l (l : list K) : forall ks ks' : list K,
  (forall k, In k l -> ~ In k ks) ->
  add_keys (ks ++ ks') l = ks ++ add_keys ks' l.
Proof.
  induction l as [|k l IH]; intros ks ks' D; [reflexivity|].
  rewrite !add_keys_cons.
  assert (M : mem k (ks ++ ks') = mem k ks').
  { destruct (mem k ks') eqn:E.
    - apply mem_In. apply in_or_app. right. now apply mem_In.
    - apply mem_false. intros I. apply in_app_or in I. destruct I as [I|I].
      + now apply (D k (or_introl eq_refl)).
      + now apply mem_false in E. }
  rewrite M. destruct (mem k ks').
  - apply IH. intros k' I. apply D. now right.
  - rewrite <- app_assoc. apply IH. intros k' I. apply D. now right.
Qed.

Lemma add_keys_fresh (ks l : list K) :
  (forall k, In k l -> ~ In k ks) -> add_keys ks l = ks ++ unique l.
Proof.
  intros D. rewrite <- (app_nil_r ks) at 1. now apply add_keys_app_l.
Qed.

Lemma add_keys_NoDup (l : list K) : forall ks,
  NoDup ks -> NoDup (add_keys ks l).
Proof.
  induction l as [|k l IH]; intros ks ND; [exact ND|].
  rewrite add_keys_cons. apply IH. destruct (mem k ks) eqn:E; [exact ND|].
  apply mem_false in E. apply NoDup_app; [exact ND|repeat constructor; auto|].
  intros a Ia [<-|[]]. contradiction.
Qed.

Lemma unique_NoDup (l : list K) : NoDup (unique l).
Proof. apply add_keys_NoDup. constructor. Qed.

Lemma unique_of_NoDup (l : list K) : NoDup l -> unique l = l.
Proof.
  unfold unique. induction l as [|k l IH]; intros ND; [reflexivity|].
  inversion ND as [|? ? Nk ND']; subst. rewrite add_keys_cons. cbn [mem existsb app].
  change [k] with ([k] ++ []). rewrite add_keys_app_l.
  - cbn [app]. f_equal. now apply IH.
  - intros k' I [<-|[]]. contradiction.
Qed.

Lemma dict_update_same {V} (l : list (K * V)) : forall d : dict K V,
  (forall k v, In (k, v) l -> dict_get d k = Some v) -> dict_update d l = d.
Proof.
  unfold dict_update. induction l as [|[k v] l IH]; intros d G; [reflexivity|].
  cbn [fold_left fst snd].
  rewrite (dict_set_same d k v) by (apply G; now left).
  apply IH. intros k' v' I. apply G. now right.
Qed.
End GroupFacts.

Lemma flat_map_ext_In {A B} (f g : A -> list B) (l : list A) :
  (forall a, In a l -> f a = g a) -> flat_map f l = flat_map g l.
Proof.
  intros E. rewrite !flat_map_concat_map. f_equal. now apply map_ext_in.
Qed.

Section TaggedFacts.
Context {T K V : Type} `{Key T} `{Key K}.
Variable g : T -> list ((T * K) * V).
Hypothesis g_tagged : forall t k v, In (k, v) (g t) -> fst k = t.
Hypothesis g_NoDup : forall t, NoDup (map fst (g t)).

Lemma tagged_keys_NoDup (ts : list T) :
  NoDup ts -> NoDup (map fst (flat_map g ts)).
Proof.
  induction ts as [|t ts IH]; intros ND; [constructor|].
  inversion ND as [|? ? Nt ND']; subst. cbn [flat_map]. rewrite map_app.
  apply NoDup_app; [apply g_NoDup|now apply IH|].
  intros k I I'. apply in_map_iff in I. destruct I as ([k1 v1] & <- & I).
  apply in_map_iff in I'. destruct I' as ([k2 v2] & E & I'). cbn [fst] in *.
  apply in_flat_map in I'. destruct I' as (t' & It' & I').
  apply g_tagged in I, I'. subst k2. congruence.
Qed.

(** Filling a dictionary group by group: a group met again rewrites the
    entries it wrote before and adds nothing. *)
Lemma dict_update_tagged (ts : list T) : forall us,
  NoDup us ->
  fold_left (fun d t => dict_update d (g t)) ts (flat_map g us) =
  flat_map g (add_keys us ts).
Proof.
  induction ts as [|t ts IH]; intros us ND; [reflexivity|].
  cbn [fold_left]. rewrite add_keys_cons. destruct (mem t us) eqn:E.
  - rewrite dict_update_same; [now apply IH|].
    intros k v I. apply dict_In_get; [now apply tagged_keys_NoDup|].
    apply in_flat_map. exists t. split; [now apply mem_In|assumption].
  - apply mem_false in E.
    assert (ND' : NoDup (us ++ [t])).
    { apply NoDup_app; [exact ND|repeat constructor; auto|].
      intros a Ia [<-|[]]. contradiction. }
    rewrite dict_update_fresh.
    + rewrite <- (IH _ ND'). f_equal. rewrite flat_map_app. cbn [flat_map].
      now rewrite app_nil_r.
    + unfold dict_keys. rewrite <- map_app.
      replace (flat_map g us ++ g t) with (flat_map g (us ++ [t]))
        by (rewrite flat_map_app; cbn [flat_map]; now rewrite app_nil_r).
      now apply tagged_keys_NoDup.
Qed.

Lemma dict_of_pairs_tagged (ts : list T) :
  dict_of_pairs (flat_map g ts) = flat_map g (unique ts).
Proof.
  unfold dict_of_pairs. rewrite <- dict_update_flat_map.
  apply (dict_update_tagged ts []). constructor.
Qed.
End TaggedFacts.

Lemma concat_map_flat_map {A B C} (g : A -> list B) (f : B -> list C)
    (l : list A) :
  concat (map f (flat_map g l)) = flat_map (fun a => concat (map f (g a))) l.
Proof.
  induction l as [|a l IH]; [reflexivity|].
  cbn [flat_map]. now rewrite map_app, concat_app, IH.
Qed.

Lemma NoDup_map_pair {A B} (a : A) (l : list B) :
  NoDup l -> NoDup (map (pair a) l).
Proof.
  induction 1 as [|b l N ND IH]; cbn [map]; constructor; [|exact IH].
  intros I. apply in_map_iff in I. destruct I as (b' & [= ->] & I). contradiction.
Qed.

(** The keys of a product, first occurrences only: the first occurrences
    of the one side paired with the first occurrences of the other. *)
Lemma unique_product (ps : list Z) (vs : list string) : forall us,
  add_keys (flat_map (fun v => map (pair v) (unique ps)) us)
           (flat_map (fun v => map (pair v) ps) vs) =
  flat_map (fun v => map (pair v) (unique ps)) (add_keys us vs).
Proof.
  induction vs as [|v vs IH]; intros us; [reflexivity|].
  cbn [flat_map]. rewrite add_keys_app, add_keys_cons.
  destruct (mem v us) eqn:E.
  - rewrite (add_keys_incl (map (pair v) ps)); [apply IH|].
    intros k I. apply in_map_iff in I. destruct I as (n & <- & I).
    apply in_flat_map. exists v. split; [now apply mem_In|].
    apply in_map. now apply unique_In.
  - apply mem_false in E. rewrite (add_keys_fresh _ (map (pair v) ps)).
    + rewrite <- IH. f_equal. rewrite flat_map_app. cbn [flat_map].
      rewrite app_nil_r. f_equal. unfold unique.
      change (@nil (string * Z)) with (map (pair v) (@nil Z)).
      apply add_keys_map. now intros a b [= ].
    + intros k I I'. apply in_map_iff in I. destruct I as (n & <- & I).
      apply in_flat_map in I'. destruct I' as (u & Iu & I').
      apply in_map_iff in I'. destruct I' as (m & [= -> _] & _). contradiction.
Qed.

(** ** The multi-variable recipe: how chunks are laid out *)

Module MultiVarChunks.
Import MultiVar.
Section Facts.
Context {X : XarrayLib}.

Lemma chunk_pairs_tagged inputs per v (k : CKey) (val : list IKey) :
  In (k, val) (chunk_pairs inputs per v) -> fst k = v.
Proof.
  unfold chunk_pairs. intros I. apply in_map_iff in I.
  now destruct I as (kc & [= <- _] & _).
Qed.

Lemma chunk_pairs_keys inputs per v :
  map fst (chunk_pairs inputs per v) =
  map (pair v)
      (map fst (enumerate (chunked_iterable (sequence_keys inputs v) per))).
Proof. unfold chunk_pairs. now rewrite !map_map. Qed.

Lemma chunk_pairs_NoDup inputs per v :
  NoDup (map fst (chunk_pairs inputs per v)).
Proof.
  rewrite chunk_pairs_keys. apply NoDup_map_pair, enumerate_from_NoDup.
Qed.

(** The chunk dictionary: the chunks of the first axis value, then those of
    the second, and so on, every axis value once. *)
Lemma chunks_layout c p (r : Self) :
  post_init c p = Ok r ->
  _chunks_inputs r =
  flat_map (chunk_pairs (build_inputs p) (inputs_per_chunk c))
           (unique (pattern_variables p)).
Proof.
  intros E.
  destruct (MultiVarFacts.multi_post_init_Ok _ _ _ E)
    as (_ & _ & _ & _ & _ & -> & _).
  rewrite MultiVarFacts.build_chunks_inputs_pairs.
  apply dict_of_pairs_tagged.
  - apply chunk_pairs_tagged.
  - apply chunk_pairs_NoDup.
Qed.

Lemma chunk_pairs_axis c p v :
  In v (pattern_variables p) ->
  chunk_pairs (build_inputs p) (inputs_per_chunk c) v =
  map (fun kc => ((v, fst kc), map (pair v) (snd kc)))
      (enumerate (axis_chunks c p)).
Proof.
  intros I. unfold chunk_pairs, axis_chunks.
  now rewrite (MultiVarFacts.sequence_keys_axis p v I).
Qed.

Lemma inputs_layout c p (r : Self) :
  post_init c p = Ok r ->
  dict_keys (_inputs r) =
  flat_map (fun v => map (pair v) (unique (pattern_sequence p)))
           (unique (pattern_variables p)).
Proof.
  intros E.
  destruct (MultiVarFacts.multi_post_init_Ok _ _ _ E)
    as (_ & _ & _ & _ & -> & _).
  rewrite MultiVarFacts.multi_build_inputs_keys. unfold unique at 1.
  apply (unique_product (pattern_sequence p) (pattern_variables p) []).
Qed.

(** The inputs of the chunks of one axis value, end to end. *)
Lemma axis_inputs c p v :
  In v (pattern_variables p) -> 1 <= inputs_per_chunk c ->
  concat (map snd (chunk_pairs (build_inputs p) (inputs_per_chunk c) v)) =
  map (pair v) (unique (pattern_sequence p)).
Proof.
  intros I Hs. rewrite (chunk_pairs_axis c p v I), map_map. cbn [snd].
  rewrite <- (map_map (@snd Z (list Z)) (map (pair v))). unfold enumerate.
  rewrite enumerate_from_snd, <- concat_map. unfold axis_chunks.
  now rewrite chunked_iterable_concat.
Qed.

(** X9. Iterating the inputs of a multi-variable recipe chunk by chunk
    (with [inputs_per_chunk >= 1]) visits every input key once, in the key
    order of [_inputs]: variable by variable, and within a variable in
    sequence order. *)
Theorem multi_iter_inputs_visits_every_input_once c p (r : Self) :
  post_init c p = Ok r -> 1 <= inputs_per_chunk c ->
  iter_inputs r = Ok (dict_keys (_inputs r)) /\
  NoDup (dict_keys (_inputs r)) /\
  dict_keys (_inputs r) =
    flat_map (fun v => map (pair v) (unique (pattern_sequence p)))
             (unique (pattern_variables p)).
Proof.
  intros E Hs. split; [|split].
  - unfold iter_inputs, inputs_for_chunk, iter_chunks.
    rewrite (rmap_dict_keys (_chunks_inputs r) (fun _ inputs => inputs))
      by (apply (MultiVarFacts.chunk_keys_NoDup c p r E)).
    cbn [rbind]. f_equal. rewrite (inputs_layout c p r E).
    rewrite (chunks_layout c p r E).
    change (map (fun kv => snd kv)) with (@map (CKey * list IKey) _ snd).
    rewrite concat_map_flat_map. apply flat_map_ext_In. intros v I.
    apply axis_inputs; [|assumption]. exact (proj1 (unique_In _ v) I).
  - destruct (MultiVarFacts.multi_post_init_Ok _ _ _ E)
      as (_ & _ & _ & _ & -> & _).
    apply dict_of_pairs_keys_NoDup.
  - apply (inputs_layout c p r E).
Qed.
Lemma filter_const {A} (f : A -> bool) (b : bool) (l : list A) :
  (forall x, In x l -> f x = b) -> filter f l = if b then l else [].
Proof.
  induction l as [|x l IH]; intros E; [now destruct b|].
  cbn [filter]. rewrite (E x (or_introl eq_refl)), IH.
  - now destruct b.
  - intros y I. apply E. now right.
Qed.

Lemma filter_groups inputs per (v : string) : forall us,
  NoDup us ->
  filter (fun chunk_key : CKey => key_eqb (fst chunk_key) v)
         (map fst (flat_map (chunk_pairs inputs per) us)) =
  if mem v us then map fst (chunk_pairs inputs per v) else [].
Proof.
  induction us as [|u us IH]; intros ND; [reflexivity|].
  inversion ND as [|? ? Nu ND']; subst.
  cbn [flat_map]. rewrite map_app, filter_app, (IH ND').
  rewrite (filter_const _ (String.eqb u v)).
  - unfold mem at 2. cbn [existsb]. fold (mem v us).
    change (key_eqb v u) with (String.eqb v u). rewrite (String.eqb_sym v u).
    destruct (String.eqb_spec u v) as [->|N]; cbn [orb].
    + assert (M : mem v us = false) by now apply mem_false.
      rewrite M. apply app_nil_r.
    + reflexivity.
  - intros k I. apply in_map_iff in I. destruct I as ([k' val] & <- & I).
    apply chunk_pairs_tagged in I. cbn [fst] in *. now subst u.
Qed.

(** The chunk keys of one axis value, in iteration order. *)
Lemma axis_chunk_keys_layout c p (r : Self) v :
  post_init c p = Ok r -> In v (pattern_variables p) ->
  axis_chunk_keys r v =
  map (fun kc => (v, fst kc)) (enumerate (axis_chunks c p)).
Proof.
  intros E I. unfold axis_chunk_keys, iter_chunks, dict_keys.
  rewrite (chunks_layout c p r E), filter_groups by apply unique_NoDup.
  assert (M : mem v (unique (pattern_variables p)) = true).
  { apply mem_In. now apply unique_In. }
  rewrite M, (chunk_pairs_axis c p v I), map_map. reflexivity.
Qed.

Lemma axis_region c p (r : Self) v i (chunk : list Z) :
  post_init c p = Ok r -> In v (pattern_variables p) ->
  In (i, chunk) (enumerate (axis_chunks c p)) ->
  region_for_chunk r (v, i) = Ok (region_of c i chunk).
Proof.
  intros E I Ic. rewrite region_for_chunk_get.
  rewrite (dict_In_get (_chunks_inputs r) (v, i) (map (pair v) chunk)).
  - destruct (MultiVarFacts.multi_post_init_Ok _ _ _ E) as (_ & -> & _).
    f_equal. cbn [chunk_position variant snd].
    apply MultiVarFacts.region_of_length. apply length_map.
  - apply (MultiVarFacts.chunk_keys_NoDup c p r E).
  - rewrite (chunks_layout c p r E). apply in_flat_map. exists v.
    split; [now apply unique_In|].
    rewrite (chunk_pairs_axis c p v I).
    apply in_map_iff. exists (i, chunk). now split.
Qed.

Lemma axis_regions c p (r : Self) v :
  post_init c p = Ok r -> In v (pattern_variables p) ->
  forall l : list (Z * list Z),
    incl l (enumerate (axis_chunks c p)) ->
    rmap (region_for_chunk r) (map (fun kc => (v, fst kc)) l) =
    Ok (map (fun kc => region_of c (fst kc) (snd kc)) l).
Proof.
  intros E I. induction l as [|[i chunk] l IH]; intros A; [reflexivity|].
  cbn [map rmap fst snd].
  rewrite (axis_region c p r v i chunk E I) by (apply A; now left).
  cbn [rbind]. rewrite IH; [reflexivity|].
  intros kc Ikc. apply A. now right.
Qed.

(** X10. In a multi-variable recipe whose sequence positions are pairwise
    distinct, with [inputs_per_chunk >= 1] and [nitems_per_input >= 1], the
    regions of the chunks of any one variable, in iteration order, follow
    each other without gap or overlap from 0 to [sequence_len()]. *)
Theorem axis_regions_tile_sequence c p (r : Self) (v : string) :
  post_init c p = Ok r -> 1 <= inputs_per_chunk c ->
  1 <= nitems_per_input c -> In v (pattern_variables p) ->
  NoDup (pattern_sequence p) ->
  exists regions total,
    rmap (region_for_chunk r) (axis_chunk_keys r v) = Ok regions /\
    sequence_len r = Ok total /\
    tiles 0 regions total /\
    pairwise_disjoint regions.
Proof.
  intros E Hs Hn I ND.
  set (regions := map (fun kc : Z * list Z => region_of c (fst kc) (snd kc))
                      (enumerate (axis_chunks c p))).
  set (total := nitems_per_input c * Z.of_nat (length (pattern_sequence p))).
  assert (T : tiles 0 regions total).
  { assert (T := tiles_enumerate c (Z.to_nat (inputs_per_chunk c))
                   (axis_chunks c p) Hn ltac:(lia)
                   (chunked_iterable_ok _ _ Hs) 0).
    unfold axis_chunks in T at 2.
    rewrite chunked_iterable_concat, (unique_of_NoDup _ ND) in T by assumption.
    exact T. }
  exists regions, total. split; [|split; [|split]].
  - rewrite (axis_chunk_keys_layout c p r v E I).
    apply (axis_regions c p r v E I). apply incl_refl.
  - cbn [sequence_len variant]. unfold total.
    destruct (MultiVarFacts.multi_post_init_Ok _ _ _ E) as (_ & Ec & Ef & _).
    apply (f_equal Ok). apply f_equal2; [exact (f_equal nitems_per_input Ec)|].
    exact (f_equal
             (fun f => Z.of_nat (length (pattern_sequence (fst f)))) Ef).
  - exact T.
  - exact (tiles_pairwise_disjoint _ _ _ T).
Qed.
End Facts.

Lemma multi_iter_inputs_visits_every_input_once_witness :
  post_init (Demo.config 2 3 true None) Examples.foo_bar
    = Ok Examples.two_variables /\
  1 <= 2 /\
  iter_inputs Examples.two_variables
    = Ok [("foo", 0); ("foo", 1); ("foo", 2);
          ("bar", 0); ("bar", 1); ("bar", 2)] /\
  NoDup (dict_keys (_inputs Examples.two_variables)) /\
  dict_keys (_inputs Examples.two_variables) =
    flat_map (fun v => map (pair v) (unique [0; 1; 2])) (unique ["foo"; "bar"]).
Proof.
  split; [reflexivity|]. split; [lia|].
  exact (multi_iter_inputs_visits_every_input_once
           (Demo.config 2 3 true None) Examples.foo_bar Examples.two_variables
           eq_refl ltac:(cbn; lia)).
Defined.

Lemma axis_regions_tile_sequence_witness :
  post_init (Demo.config 2 3 true None) Examples.foo_bar
    = Ok Examples.two_variables /\
  1 <= 2 /\ 1 <= 3 /\ In "bar" ["foo"; "bar"] /\ NoDup [0; 1; 2] /\
  exists regions total,
    rmap (region_for_chunk Examples.two_variables)
         (axis_chunk_keys Examples.two_variables "bar") = Ok regions /\
    sequence_len Examples.two_variables = Ok total /\
    tiles 0 regions total /\
    pairwise_disjoint regions.
Proof.
  assert (I : In "bar" ["foo"; "bar"]) by (right; left; reflexivity).
  assert (ND : NoDup [0; 1; 2]).
  { repeat constructor; cbn; lia. }
  split; [reflexivity|]. split; [lia|]. split; [lia|].
  split; [exact I|]. split; [exact ND|].
  exact (axis_regions_tile_sequence
           (Demo.config 2 3 true None) Examples.foo_bar Examples.two_variables
           "bar" eq_refl ltac:(cbn; lia) ltac:(cbn; lia) I ND).
Defined.
End MultiVarChunks.

(** ** The copy loop of [cache_input] *)

Lemma read_block_length (source : Data) : forall n,
  0 <= n -> Z.of_nat (length (fst (read_block n source))) <= n.
Proof.
  induction source as [|b rest IH]; intros n Hn; [cbn; lia|].
  cbn [read_block]. destruct (Z.leb_spec n 0); [cbn; lia|].
  specialize (IH (n - 1) ltac:(lia)).
  destruct (read_block (n - 1) rest) as [data rest']. cbn [fst length] in *. lia.
Qed.

Lemma copy_blocks_fuel : forall fuel fuel' (source : Data),
  (length source < fuel)%nat -> (length source < fuel')%nat ->
  copy_blocks fuel source = copy_blocks fuel' source.
Proof.
  induction fuel as [|fuel IH]; intros fuel' source Hl Hl'; [lia|].
  destruct fuel' as [|fuel']; [lia|]. cbn [copy_blocks].
  assert (A := read_block_app BLOCK_SIZE source).
  destruct (read_block BLOCK_SIZE source) as [data rest]. cbn [fst snd] in A.
  destruct data as [|b data]; [reflexivity|]. f_equal.
  assert (length rest < length source)%nat
    by (rewrite <- A, length_app; cbn [length]; lia).
  apply IH; lia.
Qed.

Lemma copy_blocks_bounded : forall fuel (source : Data),
  Forall (fun block => block <> [] /\ Z.of_nat (length block) <= BLOCK_SIZE)
         (copy_blocks fuel source).
Proof.
  induction fuel as [|fuel IH]; intros source; [constructor|].
  cbn [copy_blocks].
  assert (L := read_block_length source BLOCK_SIZE ltac:(unfold BLOCK_SIZE; lia)).
  destruct (read_block BLOCK_SIZE source) as [data rest]. cbn [fst] in L.
  destruct data as [|b data]; [constructor|].
  constructor; [|apply IH]. split; [discriminate|exact L].
Qed.

(** X11. The copy loop of [cache_input] ends for every source, and the
    blocks it hands to [target.write] are non-empty, hold at most
    10,000,000 bytes each, and put end to end are the bytes of the source;
    more iterations than the source has bytes, plus one, change nothing. *)
Theorem copy_loop_transfers_the_source (source : Data) :
  concat (copy_blocks (S (length source)) source) = source /\
  Forall (fun block => block <> [] /\ Z.of_nat (length block) <= 10000000)
         (copy_blocks (S (length source)) source) /\
  forall fuel, (length source < fuel)%nat ->
    copy_blocks fuel source = copy_blocks (S (length source)) source.
Proof.
  split; [apply copy_blocks_concat; lia|]. split.
  - apply copy_blocks_bounded.
  - intros fuel Hf. apply copy_blocks_fuel; lia.
Qed.

(** ** Caching an input and opening it *)

Section CacheFacts.
Context {X : XarrayLib} {IK CK Ext : Type} `{Key IK} `{Key CK}
        `{!Variant IK CK Ext}.
Local Abbreviation St := (PyState IK CK Ext).

(** [open_input] on an input whose file is in the cache. *)
Lemma open_input_cached (s : St) input_key rec c data :
  input_record (self_obj s) input_key = Ok rec ->
  input_cache (world s) = Some c -> dict_get c (url rec) = Some data ->
  open_input input_key s =
  match xr_open_dataset data (xarray_open_kwargs (config (self_obj s))) with
  | Ok ds =>
      Done (after_open (config (self_obj s)) (url rec) ds)
           (log_to s opened_from_cache)
  | Raise e =>
      if is_IOError e
      then if require_cache (config (self_obj s))
           then Fail FileNotFoundError (log_to s opened_from_cache)
           else Fail (AttributeError "file_system_kwargs")
                     (log_to s (opened_from_cache ++
                        [LogInfo "No cache found. Opening input directly."]))
      else Fail e (log_to s opened_from_cache)
  end.
Proof.
  intros Er Ec Eg.
  unfold open_input, bind, get_self, self_input_opener, try_except, bind,
    get_self, cache_open_rb, bind, get_world.
  rewrite Er. cbn [lift ret]. rewrite Ec, Eg. cbn [ret].
  unfold log_info, do_event, bind, get_world, put_world.
  cbn [self_obj world emit input_cache target remote trace].
  destruct (xr_open_dataset data _) as [ds|e]; cbn [lift ret raise];
    [|destruct (is_IOError e);
      [destruct (require_cache (config (self_obj s)))|]];
    cbn; unfold ret, raise, emit, log_to, opened_from_cache, after_open;
    cbn [trace remote input_cache target world self_obj];
    rewrite <- ?app_assoc; reflexivity.
Qed.

(** X12. [cache_input] on an unprocessed input whose source opens, with a
    cache supplied, returns and leaves exactly the bytes of the source in
    the cache under the input's location, whatever was cached there before;
    every other cached file, the target, the remote files and the recipe are
    what they were. *)
Theorem cache_input_copies_the_source (s : St) input_key rec source c :
  input_record (self_obj s) input_key = Ok rec -> processed rec = false ->
  remote (world s) (url rec) (fsspec_open_kwargs (config (self_obj s)))
    = Ok source ->
  input_cache (world s) = Some c ->
  exists s1 c1,
    cache_input input_key s = Done tt s1 /\
    input_cache (world s1) = Some c1 /\
    dict_get c1 (url rec) = Some source /\
    (forall fname, fname <> url rec -> dict_get c1 fname = dict_get c fname) /\
    target (world s1) = target (world s) /\
    remote (world s1) = remote (world s) /\
    self_obj s1 = self_obj s.
Proof.
  intros Er Ep Es Ec.
  eexists. exists (dict_set c (url rec) source).
  split; [apply (cache_input_effect s input_key rec source c Er Ep Es Ec)|].
  cbn [with_cache world input_cache target remote self_obj].
  repeat split.
  - apply dict_get_set_same.
  - intros fname N. now apply dict_get_set_other.
Qed.

(** X13. Once [cache_input] has cached an input, [open_input] on the same
    key reads the cached copy, whether or not the cache is required: it
    hands xarray the very bytes of the source, logs two lines, touches
    neither the remote files nor the stores, and returns the dataset after
    the fix of scalar attributes, the removal of encodings if asked for, and
    the [process_input] hook. *)
Theorem cached_input_opens_from_cache (s : St) input_key rec source c ds :
  input_record (self_obj s) input_key = Ok rec -> processed rec = false ->
  remote (world s) (url rec) (fsspec_open_kwargs (config (self_obj s)))
    = Ok source ->
  input_cache (world s) = Some c ->
  xr_open_dataset source (xarray_open_kwargs (config (self_obj s))) = Ok ds ->
  exists s1,
    cache_input input_key s = Done tt s1 /\
    open_input input_key s1 =
    Done (after_open (config (self_obj s)) (url rec) ds)
         (log_to s1 opened_from_cache).
Proof.
  intros Er Ep Es Ec Ex. eexists.
  split; [apply (cache_input_effect s input_key rec source c Er Ep Es Ec)|].
  erewrite open_input_cached;
    [|exact Er|reflexivity|cbn [with_cache self_obj]; apply dict_get_set_same].
  cbn [with_cache self_obj]. now rewrite Ex.
Qed.

(** X14. When xarray fails on a file that is in the cache, [open_input]
    lets the error through unless it is an [IOError] or a
    [FileNotFoundError]: those are caught by the handler meant for a missing
    cache entry, and the caller sees the not-cached [FileNotFoundError]
    (cache required) or the [AttributeError] of the fall-back (cache not
    required) instead. *)
Theorem xarray_error_on_cached_input (s : St) input_key rec c data e :
  input_record (self_obj s) input_key = Ok rec ->
  input_cache (world s) = Some c -> dict_get c (url rec) = Some data ->
  xr_open_dataset data (xarray_open_kwargs (config (self_obj s))) = Raise e ->
  observe (open_input input_key s) =
  Raise (if is_IOError e
         then if require_cache (config (self_obj s))
              then FileNotFoundError
              else AttributeError "file_system_kwargs"
         else e).
Proof.
  intros Er Ec Eg Ex.
  rewrite (open_input_cached s input_key rec c data Er Ec Eg), Ex.
  destruct (is_IOError e); [|reflexivity].
  now destruct (require_cache (config (self_obj s))).
Qed.

(** X15. Without a cache, [cache_input] on an unprocessed input never
    returns: it opens the source first, so it raises what opening the source
    raises, and [UninitializedTargetError] if the source opens; nothing is
    written. *)
Theorem cache_input_without_cache (s : St) input_key rec :
  input_record (self_obj s) input_key = Ok rec -> processed rec = false ->
  input_cache (world s) = None ->
  cache_input input_key s =
  Fail match remote (world s) (url rec)
               (fsspec_open_kwargs (config (self_obj s))) with
       | Ok _ => UninitializedTargetError
       | Raise e => e
       end
       (log_to s [LogInfo "Caching input"; LogInfo "Opening input"]).
Proof.
  intros Er Ep Ec.
  unfold cache_input. unfold bind at 1 2. unfold get_self.
  rewrite Er. cbn [lift ret]. rewrite Ep.
  unfold input_opener, cache_open_wb, log_info, do_event, bind, get_world,
    put_world.
  cbn [world self_obj emit remote input_cache].
  destruct (remote (world s) (url rec) _) as [source|e];
    cbn [lift ret raise world self_obj emit input_cache]; rewrite ?Ec;
    unfold ret, raise, log_to, emit; cbn [trace remote input_cache target];
    now rewrite <- app_assoc.
Qed.
End CacheFacts.

Module CacheExamples.
Import Sequential.

Lemma cache_input_copies_the_source_witness :
  input_record (self_obj Examples.three_inputs_start) 1
    = Ok {| url := "a.nc"; processed := false |} /\
  false = false /\
  Demo.files "a.nc" [] = Ok Demo.payload /\
  input_cache (world Examples.three_inputs_start)
    = Some [("p.nc", Demo.payload)] /\
  exists s1 c1,
    cache_input 1 Examples.three_inputs_start = Done tt s1 /\
    input_cache (world s1) = Some c1 /\
    dict_get c1 "a.nc" = Some Demo.payload /\
    (forall fname, fname <> "a.nc" ->
       dict_get c1 fname = dict_get [("p.nc", Demo.payload)] fname) /\
    target (world s1) = target (world Examples.three_inputs_start) /\
    remote (world s1) = remote (world Examples.three_inputs_start) /\
    self_obj s1 = self_obj Examples.three_inputs_start.
Proof.
  split; [reflexivity|]. split; [reflexivity|]. split; [reflexivity|].
  split; [reflexivity|].
  exact (cache_input_copies_the_source Examples.three_inputs_start 1
           {| url := "a.nc"; processed := false |} Demo.payload
           [("p.nc", Demo.payload)] eq_refl eq_refl eq_refl eq_refl).
Defined.

Lemma cached_input_opens_from_cache_witness :
  input_record (self_obj Examples.three_inputs_start) 1
    = Ok {| url := "a.nc"; processed := false |} /\
  false = false /\
  Demo.files "a.nc" [] = Ok Demo.payload /\
  input_cache (world Examples.three_inputs_start)
    = Some [("p.nc", Demo.payload)] /\
  @xr_open_dataset raw_xarray Demo.payload [] = Ok [Demo.payload] /\
  exists s1,
    cache_input 1 Examples.three_inputs_start = Done tt s1 /\
    open_input 1 s1 =
    Done (after_open (Demo.config 2 3 true None) "a.nc" [Demo.payload])
         (log_to s1 opened_from_cache).
Proof.
  split; [reflexivity|]. split; [reflexivity|]. split; [reflexivity|].
  split; [reflexivity|]. split; [reflexivity|].
  exact (cached_input_opens_from_cache Examples.three_inputs_start 1
           {| url := "a.nc"; processed := false |} Demo.payload
           [("p.nc", Demo.payload)] [Demo.payload]
           eq_refl eq_refl eq_refl eq_refl eq_refl).
Defined.

Lemma xarray_error_on_cached_input_witness :
  input_record (self_obj Examples.empty_cached_file) 0
    = Ok {| url := "a.nc"; processed := false |} /\
  input_cache (world Examples.empty_cached_file) = Some [("a.nc", [])] /\
  dict_get [("a.nc", @nil byte)] "a.nc" = Some [] /\
  @xr_open_dataset Examples.picky_xarray [] [] = Raise IOError /\
  observe (open_input 0 Examples.empty_cached_file) = Raise FileNotFoundError.
Proof.
  split; [reflexivity|]. split; [reflexivity|]. split; [reflexivity|].
  split; [reflexivity|].
  exact (xarray_error_on_cached_input Examples.empty_cached_file 0
           {| url := "a.nc"; processed := false |} [("a.nc", [])] [] IOError
           eq_refl eq_refl eq_refl eq_refl).
Defined.

Lemma cache_input_without_cache_witness :
  input_record (self_obj Examples.three_inputs_no_cache) 1
    = Ok {| url := "a.nc"; processed := false |} /\
  false = false /\
  input_cache (world Examples.three_inputs_no_cache) = None /\
  cache_input 1 Examples.three_inputs_no_cache =
  Fail UninitializedTargetError
       (log_to Examples.three_inputs_no_cache
               [LogInfo "Caching input"; LogInfo "Opening input"]).
Proof.
  split; [reflexivity|]. split; [reflexivity|]. split; [reflexivity|].
  exact (cache_input_without_cache Examples.three_inputs_no_cache 1
           {| url := "a.nc"; processed := false |} eq_refl eq_refl eq_refl).
Defined.
End CacheExamples.

(** ** Preparing the target *)

Section TargetFacts.
Context {X : XarrayLib} {IK CK Ext : Type} `{Key IK} `{Key CK}
        `{!Variant IK CK Ext}.
Local Abbreviation St := (PyState IK CK Ext).
Local Abbreviation Stage := (M St).

Lemma with_target_same (s : St) z evs :
  target (world s) = Some (Some z) -> with_target s z evs = log_to s evs.
Proof. intros E. unfold with_target, log_to. now rewrite E. Qed.

Lemma expand_target_dim_existing (s : St) dim n z :
  target (world s) = Some (Some z) ->
  expand_target_dim dim n s =
  Done tt (with_target s
             (resize z n (nitems_per_input (config (self_obj s))
                          * processed_input_nb (self_obj s)))
             [TargetResize n]).
Proof.
  intros Et.
  unfold expand_target_dim, open_target, target_get_mapper, bind, get_self,
    get_world, put_world, ret.
  repeat (rewrite Et; cbv beta iota). reflexivity.
Qed.

Lemma expand_target_dim_Done (s s1 : St) dim n :
  expand_target_dim dim n s = Done tt s1 ->
  exists z,
    target (world s) = Some (Some z) /\
    s1 = with_target s
           (resize z n (nitems_per_input (config (self_obj s))
                        * processed_input_nb (self_obj s)))
           [TargetResize n].
Proof.
  destruct (target (world s)) as [[z|]|] eqn:Et.
  - rewrite (expand_target_dim_existing s dim n z Et).
    intros [= <-]. now exists z.
  - unfold expand_target_dim, open_target, target_get_mapper, bind, get_self,
      get_world, ret.
    repeat (rewrite Et; cbv beta iota). discriminate.
  - unfold expand_target_dim, open_target, target_get_mapper, bind, get_self,
      get_world, ret.
    repeat (rewrite Et; cbv beta iota). discriminate.
Qed.

(** [prepare_target] on a target that holds a dataset. *)
Lemma prepare_target_existing (s : St) z n :
  target (world s) = Some (Some z) -> sequence_len (self_obj s) = Ok n ->
  prepare_target s =
  Done tt (with_target s
             (resize z n (nitems_per_input (config (self_obj s))
                          * processed_input_nb (self_obj s)))
             [LogInfo "Found an existing dataset in target"; TargetResize n]).
Proof.
  intros Et El.
  unfold prepare_target. unfold bind at 1. unfold get_self.
  unfold bind at 1.
  assert (T : try_except
                (bind open_target
                   (fun _ => log_info "Found an existing dataset in target"))
                is_IOError
                (bind (mapM (fun chunk_key =>
                               bind (open_chunk chunk_key)
                                    (fun chunk_ds => ret (ds_chunk None chunk_ds)))
                            (_init_chunks (self_obj s)))
                   (fun init_dsets =>
                      bind (lift (xr_merge init_dsets))
                        (fun ds =>
                           initialize_target
                             match target_chunks (config (self_obj s)) with
                             | Some (_ :: _) =>
                                 ds_chunk (target_chunks (config (self_obj s))) ds
                             | _ => ds
                             end))) s
              = Done tt (log_to s [LogInfo "Found an existing dataset in target"])).
  { unfold try_except, open_target, target_get_mapper, log_info, do_event, bind,
      get_world, put_world, ret.
    repeat (rewrite Et; cbv beta iota). reflexivity. }
  rewrite T. unfold bind at 1. rewrite El. cbn [lift ret].
  rewrite (expand_target_dim_existing _ _ n z) by exact Et.
  unfold with_target, log_to. cbn. now rewrite <- app_assoc.
Qed.


(** X17. [prepare_target] is idempotent: whenever it returns, the target
    holds a dataset whose sequence dimension has the length
    [sequence_len()], and a second call returns as well, logging that it
    found the dataset and resizing it to the same length, with the cache and
    the target left exactly as the first call left them. *)
Theorem prepare_target_twice (s s1 : St) :
  prepare_target s = Done tt s1 ->
  exists z n,
    sequence_len (self_obj s) = Ok n /\
    target (world s1) = Some (Some z) /\
    z_seq_len z = Some n /\
    prepare_target s1 =
    Done tt (log_to s1 [LogInfo "Found an existing dataset in target";
                        TargetResize n]).
Proof.
  intros E. unfold prepare_target in E. unfold bind at 1 in E.
  unfold get_self in E. unfold bind at 1 in E.
  match type of E with
  | match ?t s with _ => _ end = _ =>
      assert (F : frames t);
      [|destruct (F s) as (Fs & _); destruct (t s) as [[] s'|e s'] eqn:Et;
        [|discriminate]]
  end.
  { apply frames_try_except.
    - apply frames_bind; [apply frames_open_target|]. intros _.
      apply frames_log_info.
    - apply frames_bind.
      + apply frames_mapM. intros chunk_key.
        apply frames_bind; [apply frames_open_chunk|]. intros ds.
        apply frames_ret.
      + intros dsets. apply frames_bind; [apply frames_lift|]. intros ds.
        apply frames_initialize_target. }
  cbn [final_state] in Fs. unfold bind at 1 in E.
  destruct (sequence_len (self_obj s)) as [n|e] eqn:El; [|discriminate].
  cbn [lift ret] in E. apply expand_target_dim_Done in E.
  destruct E as (z & Ez & ->).
  exists (resize z n (nitems_per_input (config (self_obj s'))
                      * processed_input_nb (self_obj s'))), n.
  split; [reflexivity|]. split; [reflexivity|]. split; [reflexivity|].
  erewrite prepare_target_existing; [|reflexivity|cbn [with_target self_obj];
    rewrite Fs; exact El].
  rewrite with_target_same; reflexivity.
Qed.
End TargetFacts.

Module TargetExamples.
Import Sequential.


Lemma prepare_target_twice_witness :
  prepare_target Examples.three_inputs_cached
    = Done tt (final_state (prepare_target Examples.three_inputs_cached)) /\
  exists z n,
    sequence_len (self_obj Examples.three_inputs_cached) = Ok n /\
    target (world (final_state (prepare_target Examples.three_inputs_cached)))
      = Some (Some z) /\
    z_seq_len z = Some n /\
    prepare_target (final_state (prepare_target Examples.three_inputs_cached)) =
    Done tt (log_to (final_state (prepare_target Examples.three_inputs_cached))
                    [LogInfo "Found an existing dataset in target";
                     TargetResize n]).
Proof.
  split; [reflexivity|].
  exact (prepare_target_twice Examples.three_inputs_cached
           (final_state (prepare_target Examples.three_inputs_cached)) eq_refl).
Defined.
End TargetExamples.

(** ** A whole run *)

Lemma bind_Done {S A B} (m : M S A) (k : A -> M S B) s a s' :
  m s = Done a s' -> bind m k s = k a s'.
Proof. intros E. unfold bind. now rewrite E. Qed.

Lemma bind_Fail {S A B} (m : M S A) (k : A -> M S B) s e s' :
  m s = Fail e s' -> bind m k s = Fail e s'.
Proof. intros E. unfold bind. now rewrite E. Qed.

Section RunFacts.
Context {X : XarrayLib} {IK CK Ext : Type} `{Key IK} `{Key CK}
        `{!Variant IK CK Ext}.
Local Abbreviation St := (PyState IK CK Ext).
Local Abbreviation Stage := (M St).
Hypothesis xarray_ok : xarray_never_fails.

Lemma log_info_eq (s : St) msg :
  log_info msg s = Done tt (log_to s [LogInfo msg]).
Proof. reflexivity. Qed.

(** Every one of [inputs] has a record and a file in the cache. *)
Local Abbreviation inputs_cached s inputs :=
  (forall k : IK, In k inputs ->
     exists rec, input_record (self_obj s) k = Ok rec /\
                 is_cached (world s) (url rec) = true).

Lemma open_input_ok (s : St) k rec :
  input_record (self_obj s) k = Ok rec ->
  is_cached (world s) (url rec) = true ->
  exists ds, open_input k s = Done ds (log_to s opened_from_cache).
Proof.
  intros Er Ec. unfold is_cached in Ec.
  destruct (input_cache (world s)) as [c|] eqn:Eic; [|discriminate].
  destruct (dict_get c (url rec)) as [data|] eqn:Eg; [|discriminate].
  rewrite (open_input_cached s k rec c data Er Eic Eg).
  destruct xarray_ok as (Ho & _).
  destruct (Ho data (xarray_open_kwargs (config (self_obj s)))) as [ds ->].
  eexists. reflexivity.
Qed.

Lemma open_inputs_ok (inputs : list IK) : forall s : St,
  inputs_cached s inputs ->
  exists dsets evs, mapM open_input inputs s = Done dsets (log_to s evs).
Proof.
  induction inputs as [|k inputs IH]; intros s A.
  - exists [], []. cbn [mapM]. unfold ret. now rewrite log_to_nil.
  - destruct (A k (or_introl eq_refl)) as (rec & Er & Ec).
    destruct (open_input_ok s k rec Er Ec) as [ds Eo].
    destruct (IH (log_to s opened_from_cache)) as (dsets & evs & Em).
    { intros k' Ik. exact (A k' (or_intror Ik)). }
    exists (ds :: dsets), (opened_from_cache ++ evs). cbn [mapM].
    rewrite (bind_Done _ _ _ _ _ Eo), (bind_Done _ _ _ _ _ Em).
    unfold ret. now rewrite log_to_log_to.
Qed.

Lemma open_chunk_ok (s : St) chunk_key inputs :
  inputs_for_chunk (self_obj s) chunk_key = Ok inputs ->
  inputs_cached s inputs ->
  exists ds evs, open_chunk chunk_key s = Done ds (log_to s evs).
Proof.
  intros Ei A. unfold open_chunk.
  rewrite (bind_Done get_self _ s (self_obj s) s eq_refl).
  rewrite (bind_Done _ _ _ _ _ (log_info_eq s _)).
  unfold bind at 1. rewrite Ei. cbn [lift ret].
  destruct (open_inputs_ok inputs (log_to s [LogInfo "Concatenating inputs for chunk"]))
    as (dsets & evs & Em); [exact A|].
  rewrite (bind_Done _ _ _ _ _ Em).
  destruct xarray_ok as (_ & Hc & _).
  destruct (Hc dsets (sequence_dim (config (self_obj s)))
               (xarray_concat_kwargs (config (self_obj s)))) as [ds Ec].
  unfold bind. rewrite Ec. cbn [lift ret]. unfold ret.
  rewrite log_to_log_to. eexists. eexists. reflexivity.
Qed.

(** *** Caching *)

Lemma only_caches_refl (s : St) : only_caches s s.
Proof. unfold only_caches. auto. Qed.

Lemma only_caches_trans (s1 s2 s3 : St) :
  only_caches s1 s2 -> only_caches s2 s3 -> only_caches s1 s3.
Proof.
  intros (A1 & A2 & A3 & A4 & A5) (B1 & B2 & B3 & B4 & B5).
  unfold only_caches. repeat split; try congruence; auto.
Qed.

Lemma only_caches_log_to (s : St) evs : only_caches s (log_to s evs).
Proof. unfold only_caches. cbn. auto. Qed.

Lemma input_ready_kept (s s' : St) k :
  only_caches s s' ->
  input_ready (self_obj s) (world s) k = true ->
  input_ready (self_obj s') (world s') k = true.
Proof.
  intros (A1 & A2 & _ & _ & A5). unfold input_ready, source_opens.
  rewrite A1, A2. destruct (dict_get (_inputs (self_obj s)) k) as [rec|];
    [|discriminate].
  destruct (processed rec); [apply A5|auto].
Qed.

Lemma cache_input_ok (s : St) k :
  input_cache (world s) <> None ->
  input_ready (self_obj s) (world s) k = true ->
  exists s',
    cache_input k s = Done tt s' /\ only_caches s s' /\
    forall rec, input_record (self_obj s) k = Ok rec ->
                is_cached (world s') (url rec) = true.
Proof.
  intros Hc Hr. unfold input_ready in Hr.
  destruct (dict_get (_inputs (self_obj s)) k) as [rec|] eqn:Eg; [|discriminate].
  assert (Er : input_record (self_obj s) k = Ok rec)
    by (unfold input_record; now rewrite Eg).
  destruct (processed rec) eqn:Ep.
  - exists (log_to s [LogInfo "Dry-run: caching input"]).
    split; [apply (cache_input_skips s k rec Er Ep)|].
    split; [apply only_caches_log_to|].
    intros rec' Er'. rewrite Er in Er'. injection Er' as <-. exact Hr.
  - unfold source_opens in Hr.
    destruct (remote (world s) (url rec) _) as [source|] eqn:Es; [|discriminate].
    destruct (input_cache (world s)) as [c|] eqn:Ec; [|congruence].
    eexists. split; [apply (cache_input_effect s k rec source c Er Ep Es Ec)|].
    split.
    + unfold only_caches, with_cache. cbn [self_obj world remote target input_cache].
      repeat split; [discriminate|].
      intros f Hf. unfold is_cached in *. cbn [input_cache]. rewrite Ec in Hf.
      destruct (String.eqb_spec f (url rec)) as [->|N].
      * now rewrite dict_get_set_same.
      * now rewrite dict_get_set_other.
    + intros rec' Er'. rewrite Er in Er'. injection Er' as <-.
      unfold is_cached, with_cache. cbn [world input_cache].
      now rewrite dict_get_set_same.
Qed.

Lemma cache_inputs_ok (inputs : list IK) : forall s : St,
  input_cache (world s) <> None ->
  (forall k, In k inputs -> input_ready (self_obj s) (world s) k = true) ->
  exists s',
    for_each cache_input inputs s = Done tt s' /\ only_caches s s' /\
    forall k, In k inputs ->
      forall rec, input_record (self_obj s) k = Ok rec ->
                  is_cached (world s') (url rec) = true.
Proof.
  induction inputs as [|k inputs IH]; intros s Hc Hr.
  - exists s. split; [reflexivity|]. split; [apply only_caches_refl|].
    intros k [].
  - destruct (cache_input_ok s k Hc (Hr k (or_introl eq_refl)))
      as (s1 & E1 & K1 & C1).
    destruct (IH s1) as (s2 & E2 & K2 & C2).
    + now apply K1.
    + intros k' Ik. apply (input_ready_kept s s1 k' K1). apply Hr. now right.
    + exists s2. cbn [for_each]. rewrite (bind_Done _ _ _ _ _ E1).
      split; [exact E2|]. split; [exact (only_caches_trans _ _ _ K1 K2)|].
      intros k' [<-|Ik] rec Er.
      * destruct K2 as (_ & _ & _ & _ & M). apply M. now apply C1.
      * apply (C2 k' Ik). destruct K1 as (-> & _). exact Er.
Qed.

Lemma cache_chunks_ok (chunk_keys : list CK) : forall s : St,
  input_cache (world s) <> None ->
  (forall chunk_key, In chunk_key chunk_keys ->
     exists inputs,
       inputs_for_chunk (self_obj s) chunk_key = Ok inputs /\
       forall k, In k inputs -> input_ready (self_obj s) (world s) k = true) ->
  exists s',
    cache_inputs_of_chunks (self_obj s) chunk_keys s = Done tt s' /\
    only_caches s s' /\
    forall chunk_key inputs k rec,
      In chunk_key chunk_keys ->
      inputs_for_chunk (self_obj s) chunk_key = Ok inputs -> In k inputs ->
      input_record (self_obj s) k = Ok rec ->
      is_cached (world s') (url rec) = true.
Proof.
  induction chunk_keys as [|ck chunk_keys IH]; intros s Hc Hr.
  - exists s. split; [reflexivity|]. split; [apply only_caches_refl|].
    intros ? ? ? ? [].
  - destruct (Hr ck (or_introl eq_refl)) as (inputs & Ei & Ri).
    destruct (cache_inputs_ok inputs s Hc Ri) as (s1 & E1 & K1 & C1).
    assert (S1 : self_obj s1 = self_obj s) by apply K1.
    destruct (IH s1) as (s2 & E2 & K2 & C2).
    + now apply K1.
    + intros ck' Ick. destruct (Hr ck' (or_intror Ick)) as (inputs' & Ei' & Ri').
      exists inputs'. rewrite S1. split; [exact Ei'|].
      intros k Ik. rewrite <- S1. apply (input_ready_kept s s1 k K1).
      now apply Ri'.
    + exists s2. cbn [cache_inputs_of_chunks].
      unfold bind at 1. rewrite Ei. cbn [lift ret].
      rewrite (bind_Done _ _ _ _ _ E1). rewrite <- S1.
      split; [exact E2|]. split; [exact (only_caches_trans _ _ _ K1 K2)|].
      intros ck' inputs' k rec [<-|Ick] Ei' Ik Er.
      * rewrite S1 in Ei'. rewrite Ei in Ei'. injection Ei' as <-.
        destruct K2 as (_ & _ & _ & _ & M). apply M.
        apply (C1 k Ik). now rewrite <- S1.
      * apply (C2 ck' inputs' k rec Ick Ei' Ik Er).
Qed.

(** *** Preparing the target *)

(** Every chunk of [chunk_keys] is a chunk of the recipe whose inputs are
    all in the cache. *)
Local Abbreviation chunks_cached s chunk_keys :=
  (forall chunk_key : CK, In chunk_key chunk_keys ->
     exists inputs,
       inputs_for_chunk (self_obj s) chunk_key = Ok inputs /\
       inputs_cached s inputs).

Lemma init_chunks_ok (chunk_keys : list CK) : forall s : St,
  chunks_cached s chunk_keys ->
  exists dsets evs,
    mapM (fun chunk_key =>
            bind (open_chunk chunk_key)
                 (fun chunk_ds => ret (ds_chunk None chunk_ds)))
         chunk_keys s
    = Done dsets (log_to s evs).
Proof.
  induction chunk_keys as [|ck chunk_keys IH]; intros s A.
  - exists [], []. cbn [mapM]. unfold ret. now rewrite log_to_nil.
  - destruct (A ck (or_introl eq_refl)) as (inputs & Ei & Ci).
    destruct (open_chunk_ok s ck inputs Ei Ci) as (ds & evs & Eo).
    destruct (IH (log_to s evs)) as (dsets & evs' & Em).
    { intros ck' Ick. exact (A ck' (or_intror Ick)). }
    exists (ds_chunk None ds :: dsets), (evs ++ evs'). cbn [mapM].
    assert (E1 : bind (open_chunk ck)
                      (fun chunk_ds => ret (ds_chunk None chunk_ds)) s
                 = Done (ds_chunk None ds) (log_to s evs))
      by (rewrite (bind_Done _ _ _ _ _ Eo); reflexivity).
    rewrite (bind_Done _ _ _ _ _ E1), (bind_Done _ _ _ _ _ Em).
    unfold ret. now rewrite log_to_log_to.
Qed.

Lemma initialize_target_eq (s : St) ds t :
  target (world s) = Some t ->
  initialize_target ds s =
  Done tt (with_target s (fresh_store ds)
             [LogInfo "Creating a new dataset in target"; TargetCreate]).
Proof.
  intros Et.
  unfold initialize_target, target_get_mapper, log_info, do_event, bind,
    get_world, put_world, ret.
  cbn [world emit target]. rewrite Et.
  unfold with_target, fresh_store, set_target, emit. cbn.
  now rewrite <- app_assoc.
Qed.

(** [prepare_target] on a target that holds no dataset yet. *)
Lemma prepare_target_creating (s : St) n :
  target (world s) = Some None -> sequence_len (self_obj s) = Ok n ->
  chunks_cached s (_init_chunks (self_obj s)) ->
  exists ds evs,
    prepare_target s =
    Done tt (with_target s
               (resize (fresh_store ds) n
                       (nitems_per_input (config (self_obj s))
                        * processed_input_nb (self_obj s)))
               evs).
Proof.
  intros Et El A.
  destruct (init_chunks_ok _ s A) as (dsets & evs & Em).
  destruct xarray_ok as (_ & _ & Hm). destruct (Hm dsets) as [ds Eds].
  eexists. eexists.
  unfold prepare_target.
  rewrite (bind_Done get_self _ s (self_obj s) s eq_refl).
  erewrite bind_Done.
  2: { unfold try_except.
       assert (Eo : open_target s = Fail FileNotFoundError s).
       { unfold open_target, target_get_mapper, bind, get_world, ret.
         repeat (rewrite Et; cbv beta iota). reflexivity. }
       rewrite (bind_Fail _ _ _ _ _ Eo). cbn [is_IOError].
       rewrite (bind_Done _ _ _ _ _ Em).
       unfold bind at 1. rewrite Eds. cbn [lift ret].
       apply (initialize_target_eq _ _ None). exact Et. }
  unfold bind at 1. rewrite El. cbn [lift ret].
  erewrite expand_target_dim_existing by reflexivity.
  unfold with_target, log_to. cbn [self_obj world remote input_cache target trace].
  rewrite <- !app_assoc. reflexivity.
Qed.

Lemma prepare_target_ok (s : St) n t :
  target (world s) = Some t -> sequence_len (self_obj s) = Ok n ->
  chunks_cached s (_init_chunks (self_obj s)) ->
  exists s' z,
    prepare_target s = Done tt s' /\
    self_obj s' = self_obj s /\
    remote (world s') = remote (world s) /\
    input_cache (world s') = input_cache (world s) /\
    target (world s') = Some (Some z) /\
    z_seq_len z = Some n /\
    (forall z0, t = Some z0 ->
       z_schema z = z_schema z0 /\ z_regions z = z_regions z0).
Proof.
  intros Et El A. destruct t as [z|].
  - eexists. eexists.
    split; [apply (prepare_target_existing s z n Et El)|].
    cbn. split; [reflexivity|]. split; [reflexivity|]. split; [reflexivity|].
    split; [reflexivity|]. split; [reflexivity|]. intros z0 [= <-].
    now split.
  - destruct (prepare_target_creating s n Et El A) as (ds & evs & E).
    eexists. eexists. split; [exact E|]. cbn.
    split; [reflexivity|]. split; [reflexivity|]. split; [reflexivity|].
    split; [reflexivity|]. split; [reflexivity|]. discriminate.
Qed.

(** *** Storing the chunks *)

Lemma only_stores_refl (s : St) : only_stores s s.
Proof.
  unfold only_stores. repeat split. intros z Ez. exists z. now repeat split.
Qed.

Lemma only_stores_trans (s1 s2 s3 : St) :
  only_stores s1 s2 -> only_stores s2 s3 -> only_stores s1 s3.
Proof.
  intros (A1 & A2 & A3 & A4) (B1 & B2 & B3 & B4).
  unfold only_stores. repeat split; try congruence.
  intros z Ez. destruct (A4 z Ez) as (z2 & Ez2 & S2 & L2 & F2 & R2).
  destruct (B4 z2 Ez2) as (z3 & Ez3 & S3 & L3 & F3 & R3).
  exists z3. repeat split; try congruence. auto.
Qed.

Lemma only_stores_log_to (s : St) evs : only_stores s (log_to s evs).
Proof.
  unfold only_stores. cbn. repeat split. intros z Ez. exists z.
  now repeat split.
Qed.

Lemma processed_flags_total (r : Recipe IK CK Ext) (inputs : list IK) :
  (forall k, In k inputs -> exists rec, input_record r k = Ok rec) ->
  exists flags,
    processed_flags r inputs = Ok flags /\
    forallb (fun b => b) flags = all_processed r inputs.
Proof.
  unfold processed_flags, all_processed.
  induction inputs as [|k inputs IH]; intros A.
  - exists []. now split.
  - destruct (A k (or_introl eq_refl)) as (rec & Er).
    destruct IH as (flags & Ef & Ea); [intros; apply A; now right|].
    exists (processed rec :: flags). cbn [rmap forallb].
    rewrite Er. cbn [rbind]. rewrite Ef. cbn [rbind]. split; [reflexivity|].
    unfold input_record in Er.
    destruct (dict_get (_inputs r) k) as [rec'|]; [|discriminate].
    injection Er as ->. now rewrite Ea.
Qed.

Lemma all_processed_true (r : Recipe IK CK Ext) (inputs : list IK) :
  all_processed r inputs = true ->
  forall k, In k inputs ->
    exists rec, input_record r k = Ok rec /\ processed rec = true.
Proof.
  unfold all_processed. intros A k Ik.
  apply (proj1 (forallb_forall _ _) A) in Ik. unfold input_record.
  destruct (dict_get (_inputs r) k) as [rec|]; [|discriminate].
  now exists rec.
Qed.

Lemma store_chunk_ok (s : St) chunk_key inputs z :
  target (world s) = Some (Some z) ->
  inputs_for_chunk (self_obj s) chunk_key = Ok inputs ->
  inputs_cached s inputs ->
  exists s',
    store_chunk chunk_key s = Done tt s' /\ only_stores s s' /\
    (all_processed (self_obj s) inputs = false ->
     forall region, region_for_chunk (self_obj s) chunk_key = Ok region ->
                    region_written (world s') region = true).
Proof.
  intros Et Ei Ci.
  destruct (processed_flags_total (self_obj s) inputs) as (flags & Ef & Ea).
  { intros k Ik. destruct (Ci k Ik) as (rec & Er & _). now exists rec. }
  destruct (all_processed (self_obj s) inputs) eqn:Eall.
  - exists (log_to s [LogInfo "Dry-run: storing chunk"]).
    split; [|split; [apply only_stores_log_to|discriminate]].
    apply (store_chunk_skips s chunk_key inputs Ei).
    now apply all_processed_true.
  - destruct (region_for_chunk (self_obj s) chunk_key) as [region|e] eqn:Er.
    2: { unfold region_for_chunk, nitems_for_chunk in Er. rewrite Ei in Er.
         discriminate. }
    destruct (open_chunk_ok s chunk_key inputs Ei Ci) as (ds & evs & Eo).
    eexists.
    split; [apply (store_chunk_effect s chunk_key region inputs flags ds evs z
                     Er Ei Ef Ea Eo Et)|].
    split.
    + unfold only_stores, with_target.
      cbn [self_obj world remote input_cache target]. repeat split.
      intros z0 Ez0. rewrite Et in Ez0. injection Ez0 as <-.
      eexists. split; [reflexivity|]. cbn [write_region z_schema z_seq_len
        z_consolidated]. repeat split.
      intros region' W. unfold region_written in *.
      cbn [target write_region z_regions]. rewrite Et in W.
      destruct (key_eqb_eq (region_start region', region_stop region')
                  (region_start region, region_stop region)) as [K _].
      destruct (key_eqb (region_start region', region_stop region')
                        (region_start region, region_stop region)) eqn:Ek.
      * rewrite (K eq_refl). now rewrite dict_get_set_same.
      * apply key_eqb_neq in Ek. now rewrite dict_get_set_other.
    + intros _ region' [= <-]. unfold region_written, with_target.
      cbn [world target write_region z_regions].
      now rewrite dict_get_set_same.
Qed.

Lemma store_chunks_ok (chunk_keys : list CK) : forall (s : St) z,
  target (world s) = Some (Some z) ->
  chunks_cached s chunk_keys ->
  exists s',
    for_each store_chunk chunk_keys s = Done tt s' /\ only_stores s s' /\
    forall chunk_key inputs region,
      In chunk_key chunk_keys ->
      inputs_for_chunk (self_obj s) chunk_key = Ok inputs ->
      all_processed (self_obj s) inputs = false ->
      region_for_chunk (self_obj s) chunk_key = Ok region ->
      region_written (world s') region = true.
Proof.
  induction chunk_keys as [|ck chunk_keys IH]; intros s z Et A.
  - exists s. split; [reflexivity|]. split; [apply only_stores_refl|].
    intros ? ? ? [].
  - destruct (A ck (or_introl eq_refl)) as (inputs & Ei & Ci).
    destruct (store_chunk_ok s ck inputs z Et Ei Ci) as (s1 & E1 & K1 & W1).
    destruct K1 as (S1 & R1 & C1 & T1).
    destruct (T1 z Et) as (z1 & Ez1 & _).
    destruct (IH s1 z1 Ez1) as (s2 & E2 & K2 & W2).
    { intros ck' Ick. destruct (A ck' (or_intror Ick)) as (inputs' & Ei' & Ci').
      exists inputs'. rewrite S1. split; [exact Ei'|].
      intros k Ik. destruct (Ci' k Ik) as (rec & Er & Ec). exists rec.
      split; [exact Er|]. unfold is_cached in *. now rewrite C1. }
    exists s2. cbn [for_each]. rewrite (bind_Done _ _ _ _ _ E1).
    split; [exact E2|].
    split; [exact (only_stores_trans _ _ _
                     (conj S1 (conj R1 (conj C1 T1))) K2)|].
    intros ck' inputs' region [<-|Ick] Ei' Ea Er.
    + rewrite Ei in Ei'. injection Ei' as <-.
      destruct K2 as (_ & _ & _ & T2).
      destruct (T2 z1 Ez1) as (z2 & _ & _ & _ & _ & M). apply M.
      now apply W1.
    + rewrite <- S1 in Ei', Ea, Er. exact (W2 ck' inputs' region Ick Ei' Ea Er).
Qed.

(** *** Finalizing *)

Lemma finalize_target_ok (s : St) z :
  target (world s) = Some (Some z) ->
  exists s' z',
    finalize_target s = Done tt s' /\
    self_obj s' = self_obj s /\
    input_cache (world s') = input_cache (world s) /\
    target (world s') = Some (Some z') /\
    z_schema z' = z_schema z /\
    z_seq_len z' = z_seq_len z /\
    z_regions z' = z_regions z /\
    (consolidate_zarr (config (self_obj s)) = true -> z_consolidated z' = true).
Proof.
  intros Et. unfold finalize_target.
  rewrite (bind_Done get_self _ s (self_obj s) s eq_refl).
  destruct (consolidate_zarr (config (self_obj s))).
  - destruct s as [r [rem c t tr]]. cbn [world target] in Et. subst t.
    eexists. eexists. split; [reflexivity|]. cbn. now repeat split.
  - exists s, z. now repeat split.
Qed.

(** *** The run *)

Lemma inputs_for_chunk_In (r : Recipe IK CK Ext) chunk_key inputs :
  inputs_for_chunk r chunk_key = Ok inputs ->
  In chunk_key (iter_chunks r) /\ In (chunk_key, inputs) (_chunks_inputs r).
Proof.
  unfold inputs_for_chunk, iter_chunks, dict_keys.
  destruct (dict_get (_chunks_inputs r) chunk_key) as [v|] eqn:G; [|discriminate].
  intros [= <-]. apply dict_get_In in G. split; [|exact G].
  apply in_map_iff. now exists (chunk_key, v).
Qed.

Lemma iter_chunks_lookup (r : Recipe IK CK Ext) chunk_key :
  In chunk_key (iter_chunks r) ->
  exists inputs, inputs_for_chunk r chunk_key = Ok inputs.
Proof.
  unfold inputs_for_chunk, iter_chunks. intros I.
  destruct (dict_get (_chunks_inputs r) chunk_key) as [v|] eqn:G;
    [now exists v|].
  apply dict_get_None in G. contradiction.
Qed.

Lemma ready_facts (r : Recipe IK CK Ext) (w : World) :
  ready r w = true ->
  (forall chunk_key, In chunk_key (iter_chunks r) ->
     exists inputs,
       inputs_for_chunk r chunk_key = Ok inputs /\
       forall k, In k inputs -> input_ready r w k = true) /\
  (forall chunk_key, In chunk_key (_init_chunks r) ->
                     In chunk_key (iter_chunks r)) /\
  input_cache w <> None /\
  (exists t, target w = Some t) /\
  (exists n, sequence_len r = Ok n).
Proof.
  unfold ready. rewrite !andb_true_iff.
  intros ((((A & B) & C) & D) & E). repeat split.
  - intros ck I. destruct (iter_chunks_lookup r ck I) as (inputs & Ei).
    exists inputs. split; [exact Ei|]. intros k Ik.
    destruct (inputs_for_chunk_In r ck inputs Ei) as (_ & Iin).
    apply (proj1 (forallb_forall _ _) A) in Iin. cbn [snd] in Iin.
    now apply (proj1 (forallb_forall _ _) Iin).
  - intros ck I. apply (proj1 (forallb_forall _ _) B) in I. now apply mem_In.
  - destruct (input_cache w); [discriminate|discriminate C].
  - destruct (target w) as [t|]; [now exists t|discriminate].
  - destruct (sequence_len r) as [n|]; [now exists n|discriminate].
Qed.

Lemma input_ready_record (r : Recipe IK CK Ext) (w : World) k :
  input_ready r w k = true -> exists rec, input_record r k = Ok rec.
Proof.
  unfold input_ready, input_record.
  destruct (dict_get (_inputs r) k) as [rec|]; [now exists rec|discriminate].
Qed.

End RunFacts.

Module RunExamples.
Import Sequential.

Lemma raw_xarray_never_fails : @xarray_never_fails raw_xarray.
Proof.
  split; [|split].
  - intros f kwargs. exists [f]. reflexivity.
  - intros dsets dim kwargs. exists (concat dsets). reflexivity.
  - intros dsets. exists (concat dsets). reflexivity.
Defined.

End RunExamples.

(** ** Storing a chunk *)

Section StoreFacts.
Context {X : XarrayLib} {IK CK Ext : Type} `{Key IK} `{Key CK}
        `{!Variant IK CK Ext}.
Local Abbreviation St := (PyState IK CK Ext).

(** [open_chunk] changes nothing but the trace. *)
Lemma open_chunk_Done (s : St) chunk_key ds :
  observe (open_chunk chunk_key s) = Ok ds ->
  exists evs, open_chunk chunk_key s = Done ds (log_to s evs).
Proof.
  intros O. destruct (reads_open_chunk chunk_key s) as (r & evs & E).
  specialize (E s (agree_refl s)). rewrite E in O |- *.
  destruct r as [ds'|e]; cbn [finish observe] in *; [|discriminate].
  injection O as ->. now exists evs.
Qed.

End StoreFacts.

(** ** Pipelines *)

Lemma rmap_In {A B} (f : A -> result B) (l : list A) : forall vs,
  rmap f l = Ok vs ->
  (forall x, In x l -> exists v, f x = Ok v /\ In v vs) /\
  (forall v, In v vs -> exists x, In x l /\ f x = Ok v).
Proof.
  induction l as [|a l IH]; intros vs E.
  - injection E as <-. split; intros ? [].
  - cbn [rmap] in E. destruct (f a) as [b|e] eqn:Ea; [|discriminate].
    cbn [rbind] in E. destruct (rmap f l) as [bs|e] eqn:El; [|discriminate].
    injection E as <-. destruct (IH bs eq_refl) as (I1 & I2). split.
    + intros x [<-|Ix].
      * exists b. split; [exact Ea|now left].
      * destruct (I1 x Ix) as (v & Ev & Iv). exists v. split; [exact Ev|now right].
    + intros v [<-|Iv].
      * exists a. split; [now left|exact Ea].
      * destruct (I2 v Iv) as (x & Ix & Ex). exists x. split; [now right|exact Ex].
Qed.

Lemma rmap_total {A B} (f : A -> result B) (l : list A) :
  (forall x, In x l -> exists v, f x = Ok v) -> exists vs, rmap f l = Ok vs.
Proof.
  induction l as [|a l IH]; intros T; [now exists []|].
  destruct (T a (or_introl eq_refl)) as (b & Eb).
  destruct IH as (bs & Ebs); [intros x Ix; apply T; now right|].
  exists (b :: bs). cbn [rmap]. now rewrite Eb, Ebs.
Qed.

Section PipelineFacts.
Context {X : XarrayLib} {IK CK Ext : Type} `{Key IK} `{Key CK}
        `{!Variant IK CK Ext}.

(** X20. [to_pipelines] never raises, whatever the recipe object: the
    look-ups [iter_inputs] makes use keys taken from the chunk dictionary
    itself.  It returns one pipeline of four stages: [cache_input] mapped
    over the inputs of all chunks, chunk after chunk, then [prepare_target],
    then [store_chunk] mapped over the chunk keys, then [finalize_target]. *)
Theorem to_pipelines_never_raises (self : Recipe IK CK Ext) :
  exists inputs,
    iter_inputs self = Ok inputs /\
    to_pipelines self =
      Ok [[MappedStage cache_input inputs;
           PlainStage prepare_target;
           MappedStage store_chunk (iter_chunks self);
           PlainStage finalize_target]] /\
    forall k, In k inputs <->
      exists chunk_key chunk_inputs,
        inputs_for_chunk self chunk_key = Ok chunk_inputs /\ In k chunk_inputs.
Proof.
  destruct (rmap_total (inputs_for_chunk self) (iter_chunks self))
    as (per_chunk & Ep).
  { intros ck I. unfold inputs_for_chunk.
    destruct (dict_get (_chunks_inputs self) ck) as [v|] eqn:G; [now exists v|].
    apply dict_get_None in G. contradiction. }
  destruct (rmap_In _ _ _ Ep) as (I1 & I2).
  exists (concat per_chunk).
  assert (Ei : iter_inputs self = Ok (concat per_chunk))
    by (unfold iter_inputs; now rewrite Ep).
  split; [exact Ei|]. split; [unfold to_pipelines; now rewrite Ei|].
  intros k. rewrite in_concat. split.
  - intros (l & Il & Ik). destruct (I2 l Il) as (ck & _ & Ec). now exists ck, l.
  - intros (ck & l & Ec & Ik). exists l. split; [|exact Ik].
    assert (Ick : In ck (iter_chunks self)).
    { unfold inputs_for_chunk in Ec. unfold iter_chunks, dict_keys.
      destruct (dict_get (_chunks_inputs self) ck) as [v|] eqn:G; [|discriminate].
      apply dict_get_In in G. apply in_map_iff. now exists (ck, v). }
    destruct (I1 ck Ick) as (v & Ev & Iv). rewrite Ec in Ev.
    now injection Ev as <-.
Qed.
End PipelineFacts.

Module StoreExamples.
Import Sequential.

End StoreExamples.

(** ** The order of the calls within a stage *)

Lemma dict_set_swap_get {K V} `{Key K} (d : dict K V) ka va kb vb :
  (ka = kb -> va = vb) ->
  forall k, dict_get (dict_set (dict_set d ka va) kb vb) k =
            dict_get (dict_set (dict_set d kb vb) ka va) k.
Proof.
  intros E k.
  destruct (key_eqb k ka) eqn:Ea; [apply key_eqb_eq in Ea|apply key_eqb_neq in Ea];
    (destruct (key_eqb k kb) eqn:Eb;
       [apply key_eqb_eq in Eb|apply key_eqb_neq in Eb]); subst.
  - rewrite (E eq_refl). now rewrite !dict_get_set_same.
  - rewrite dict_get_set_other, !dict_get_set_same by assumption. reflexivity.
  - rewrite dict_get_set_same, dict_get_set_other, dict_get_set_same
      by assumption. reflexivity.
  - now rewrite !dict_get_set_other by assumption.
Qed.

Section OrderFacts.
Context {X : XarrayLib} {IK CK Ext : Type} `{Key IK} `{Key CK}
        `{!Variant IK CK Ext}.
Local Abbreviation St := (PyState IK CK Ext).

Lemma same_cache_refl (c : option (dict string Data)) : same_cache c c.
Proof. now destruct c. Qed.

Lemma same_dataset_refl (z : ZarrStore) : same_dataset z z.
Proof. unfold same_dataset. now repeat split. Qed.

Lemma same_target_refl (t : option (option ZarrStore)) : same_target t t.
Proof. destruct t as [[z|]|]; cbn; auto using same_dataset_refl. Qed.

(** What [cache_input] does is decided by the recipe object and the remote
    files; the cache only has to be there. *)
Lemma cache_input_plan (s : St) input_key :
  exists p,
    (forall s' : St,
       self_obj s' = self_obj s -> remote (world s') = remote (world s) ->
       cache_input input_key s' = run_cache_plan p s') /\
    (forall fname source, p = CacheCopies fname source ->
       remote (world s) fname (fsspec_open_kwargs (config (self_obj s)))
         = Ok source).
Proof.
  destruct (input_record (self_obj s) input_key) as [rec|e] eqn:Er.
  2: { exists (CacheFails e []). split; [|discriminate].
       intros s' Es _. unfold cache_input. unfold bind at 1 2. unfold get_self.
       rewrite Es, Er. cbn [lift raise run_cache_plan]. unfold raise.
       now rewrite log_to_nil. }
  destruct (processed rec) eqn:Ep.
  { exists CacheSkips. split; [|discriminate]. intros s' Es _.
    apply (cache_input_skips s' input_key rec); [now rewrite Es|exact Ep]. }
  destruct (remote (world s) (url rec) (fsspec_open_kwargs (config (self_obj s))))
    as [source|e] eqn:Es.
  - exists (CacheCopies (url rec) source). split.
    + intros s' Eself Erem. cbn [run_cache_plan].
      destruct (input_cache (world s')) as [c|] eqn:Ec.
      * apply (cache_input_effect s' input_key rec source c);
          rewrite ?Eself, ?Erem; assumption.
      * unfold cache_input. unfold bind at 1 2. unfold get_self.
        rewrite Eself, Er. cbn [lift ret]. rewrite Ep.
        unfold input_opener, cache_open_wb, log_info, do_event, bind,
          get_world, put_world.
        cbn [world self_obj emit remote input_cache]. rewrite Erem, Es.
        cbn [lift ret raise world self_obj emit input_cache]. rewrite Ec.
        unfold ret, raise, log_to, emit. cbn [trace remote input_cache target].
        now rewrite <- app_assoc.
    + intros fname source' [= <- <-]. exact Es.
  - exists (CacheFails e [LogInfo "Caching input"; LogInfo "Opening input"]).
    split; [|discriminate]. intros s' Eself Erem.
    unfold cache_input. unfold bind at 1 2. unfold get_self.
    rewrite Eself, Er. cbn [lift ret]. rewrite Ep.
    unfold input_opener, cache_open_wb, log_info, do_event, bind,
      get_world, put_world.
    cbn [world self_obj emit remote input_cache]. rewrite Erem, Es.
    cbn [lift ret raise run_cache_plan].
    unfold ret, raise, log_to, emit. cbn [trace remote input_cache target].
    now rewrite <- app_assoc.
Qed.

Lemma run_cache_plan_Done p (s s1 : St) :
  run_cache_plan p s = Done tt s1 ->
  self_obj s1 = self_obj s /\ remote (world s1) = remote (world s) /\
  target (world s1) = target (world s) /\
  match p with
  | CacheFails _ _ => False
  | CacheSkips => input_cache (world s1) = input_cache (world s)
  | CacheCopies fname source =>
      exists c, input_cache (world s) = Some c /\
                input_cache (world s1) = Some (dict_set c fname source)
  end.
Proof.
  destruct p as [e evs| |fname source]; cbn [run_cache_plan].
  - discriminate.
  - unfold skip_outcome. intros [= <-]. now repeat split.
  - destruct (input_cache (world s)) as [c|]; [|discriminate].
    intros [= <-]. repeat split. now exists c.
Qed.

(** X21. The order of two calls of [cache_input] does not matter: if
    caching [a] and then [b] returns, so does caching [b] and then [a], and
    both orders leave the same files with the same bytes in the cache, and
    the target, the remote files and the recipe as they were. *)
Theorem cache_input_order_is_irrelevant (s sa sab : St) a b :
  cache_input a s = Done tt sa -> cache_input b sa = Done tt sab ->
  exists sb sba,
    cache_input b s = Done tt sb /\ cache_input a sb = Done tt sba /\
    same_stores sab sba.
Proof.
  intros Ea Eb.
  destruct (cache_input_plan s a) as (pa & Pa & Sa).
  destruct (cache_input_plan s b) as (pb & Pb & Sb).
  rewrite (Pa s eq_refl eq_refl) in Ea.
  destruct (run_cache_plan_Done pa s sa Ea) as (A1 & A2 & A3 & A4).
  rewrite (Pb sa A1 A2) in Eb.
  destruct (run_cache_plan_Done pb sa sab Eb) as (B1 & B2 & B3 & B4).
  assert (Eb' : exists sb, run_cache_plan pb s = Done tt sb).
  { destruct pb as [e evs| |fb srcb]; [destruct B4| |].
    - eexists. reflexivity.
    - cbn [run_cache_plan]. destruct B4 as (c & Ec & _).
      destruct pa as [e evs| |fa srca]; [destruct A4| |].
      + rewrite A4 in Ec. rewrite Ec. eexists. reflexivity.
      + destruct A4 as (c0 & Ec0 & _). rewrite Ec0. eexists. reflexivity. }
  destruct Eb' as (sb & Eb').
  destruct (run_cache_plan_Done pb s sb Eb') as (C1 & C2 & C3 & C4).
  assert (Ea' : exists sba, run_cache_plan pa sb = Done tt sba).
  { destruct pa as [e evs| |fa srca]; [destruct A4| |].
    - eexists. reflexivity.
    - cbn [run_cache_plan]. destruct A4 as (c & Ec & _).
      destruct pb as [e evs| |fb srcb]; [destruct B4| |].
      + rewrite C4, Ec. eexists. reflexivity.
      + destruct C4 as (c0 & _ & ->). eexists. reflexivity. }
  destruct Ea' as (sba & Ea').
  destruct (run_cache_plan_Done pa sb sba Ea') as (D1 & D2 & D3 & D4).
  exists sb, sba.
  split; [now rewrite (Pb s eq_refl eq_refl)|].
  split; [now rewrite (Pa sb C1 C2)|].
  unfold same_stores. split; [congruence|]. split; [congruence|]. split.
  - destruct pa as [e evs| |fa srca]; [destruct A4| |];
      (destruct pb as [e evs| |fb srcb]; [destruct B4| |]).
    + rewrite B4, A4, D4, C4. apply same_cache_refl.
    + destruct B4 as (c & Ec & ->). destruct C4 as (c' & Ec' & Ec'').
      rewrite D4, Ec''. rewrite A4 in Ec. rewrite Ec in Ec'.
      injection Ec' as <-. cbn. reflexivity.
    + destruct A4 as (c & Ec & Ec1). destruct D4 as (c' & Ec' & ->).
      rewrite B4, Ec1. rewrite C4, Ec in Ec'. injection Ec' as <-.
      cbn. reflexivity.
    + destruct A4 as (c & Ec & Ec1). destruct B4 as (c1 & Ec1' & ->).
      destruct C4 as (c2 & Ec2 & Ec3). destruct D4 as (c3 & Ec3' & ->).
      rewrite Ec1 in Ec1'. injection Ec1' as <-.
      rewrite Ec in Ec2. injection Ec2 as <-.
      rewrite Ec3 in Ec3'. injection Ec3' as <-.
      cbn. apply dict_set_swap_get. intros <-.
      assert (Ra := Sa fa srca eq_refl). assert (Rb := Sb fa srcb eq_refl).
      rewrite Ra in Rb. now injection Rb.
  - rewrite B3, A3, D3, C3. apply same_target_refl.
Qed.

(** What [store_chunk] does is decided by the recipe object, the remote
    files and the cache; the target only receives. *)
Lemma store_chunk_plan (s : St) chunk_key :
  exists p,
    (forall s' : St, agree s s' ->
       store_chunk chunk_key s' = run_store_plan p s') /\
    (forall region ds evs, p = StoreWrites region ds evs ->
       region_for_chunk (self_obj s) chunk_key = Ok region).
Proof.
  destruct (region_for_chunk (self_obj s) chunk_key) as [region|e] eqn:Er.
  2: { exists (StoreFails e []). split; [|discriminate].
       intros s' (Es & _). unfold store_chunk. unfold bind at 1 2.
       unfold get_self. rewrite <- Es, Er. cbn [lift raise run_store_plan].
       unfold raise. now rewrite log_to_nil. }
  destruct (inputs_for_chunk (self_obj s) chunk_key) as [inputs|e] eqn:Ei.
  2: { unfold region_for_chunk, nitems_for_chunk in Er. rewrite Ei in Er.
       discriminate. }
  destruct (processed_flags (self_obj s) inputs) as [flags|e] eqn:Ef.
  2: { exists (StoreFails e []). split; [|discriminate].
       intros s' (Es & _). unfold store_chunk. unfold bind at 1 2 3 4.
       unfold get_self. rewrite <- Es, Er, Ei. cbn [lift ret].
       unfold processed_flags in Ef. rewrite Ef.
       cbn [lift raise run_store_plan]. unfold raise. now rewrite log_to_nil. }
  destruct (forallb (fun b => b) flags) eqn:Ea.
  { exists StoreSkips. split; [|discriminate].
    intros s' (Es & _). unfold store_chunk. unfold bind at 1 2 3 4.
    unfold get_self. rewrite <- Es, Er, Ei. cbn [lift ret].
    unfold processed_flags in Ef. rewrite Ef. cbn [lift ret]. rewrite Ea.
    reflexivity. }
  destruct (reads_open_chunk chunk_key s) as ([ds|e] & evs & Eo).
  - exists (StoreWrites region
              (drop_vars_without (sequence_dim (config (self_obj s))) ds) evs).
    split; [|now intros ? ? ? [= <- _ _]].
    intros s' Ag. specialize (Eo s' Ag). cbn [finish] in Eo.
    destruct Ag as (Es & _). cbn [run_store_plan].
    destruct (target (world s')) as [[z|]|] eqn:Et.
    + rewrite Es.
      apply (store_chunk_effect s' chunk_key region inputs flags ds evs z);
        rewrite <- ?Es; assumption.
    + unfold store_chunk. unfold bind at 1 2 3 4. unfold get_self.
      rewrite <- Es, Er, Ei. cbn [lift ret].
      unfold processed_flags in Ef. rewrite Ef. cbn [lift ret]. rewrite Ea.
      rewrite (bind_Done _ _ _ _ _ Eo). clear Eo.
      destruct s' as [r' [rem c t tr]]. cbn [world target] in Et. subst t.
      cbn. unfold log_to, raise, emit. cbn. now rewrite <- app_assoc.
    + unfold store_chunk. unfold bind at 1 2 3 4. unfold get_self.
      rewrite <- Es, Er, Ei. cbn [lift ret].
      unfold processed_flags in Ef. rewrite Ef. cbn [lift ret]. rewrite Ea.
      rewrite (bind_Done _ _ _ _ _ Eo). clear Eo.
      destruct s' as [r' [rem c t tr]]. cbn [world target] in Et. subst t.
      reflexivity.
  - exists (StoreFails e evs). split; [|discriminate].
    intros s' Ag. specialize (Eo s' Ag). cbn [finish] in Eo.
    destruct Ag as (Es & _).
    unfold store_chunk. unfold bind at 1 2 3 4. unfold get_self.
    rewrite <- Es, Er, Ei. cbn [lift ret].
    unfold processed_flags in Ef. rewrite Ef. cbn [lift ret]. rewrite Ea.
    now rewrite (bind_Fail _ _ _ _ _ Eo).
Qed.

Lemma run_store_plan_Done p (s s1 : St) :
  run_store_plan p s = Done tt s1 ->
  agree s s1 /\
  match p with
  | StoreFails _ _ => False
  | StoreSkips => target (world s1) = target (world s)
  | StoreWrites region ds _ =>
      exists z, target (world s) = Some (Some z) /\
                target (world s1) = Some (Some (write_region z region ds))
  end.
Proof.
  destruct p as [e evs| |region ds evs]; cbn [run_store_plan].
  - discriminate.
  - unfold skip_outcome. intros [= <-]. now repeat split.
  - destruct (target (world s)) as [[z|]|]; try discriminate.
    intros [= <-]. repeat split. now exists z.
Qed.

Lemma agree_sym (s s' : St) : agree s s' -> agree s' s.
Proof. intros (A & B & C). now repeat split. Qed.

Lemma agree_trans (s1 s2 s3 : St) : agree s1 s2 -> agree s2 s3 -> agree s1 s3.
Proof. intros (A & B & C) (A' & B' & C'). repeat split; congruence. Qed.

End OrderFacts.

Module OrderExamples.
Import Sequential.

Lemma cache_input_order_is_irrelevant_witness :
  cache_input 1 Examples.three_inputs_start
    = Done tt (final_state (cache_input 1 Examples.three_inputs_start)) /\
  cache_input 2 (final_state (cache_input 1 Examples.three_inputs_start))
    = Done tt (final_state
                 (cache_input 2
                    (final_state (cache_input 1 Examples.three_inputs_start)))) /\
  exists sb sba,
    cache_input 2 Examples.three_inputs_start = Done tt sb /\
    cache_input 1 sb = Done tt sba /\
    same_stores
      (final_state
         (cache_input 2
            (final_state (cache_input 1 Examples.three_inputs_start))))
      sba.
Proof.
  split; [reflexivity|]. split; [reflexivity|].
  exact (cache_input_order_is_irrelevant Examples.three_inputs_start
           (final_state (cache_input 1 Examples.three_inputs_start))
           (final_state
              (cache_input 2
                 (final_state (cache_input 1 Examples.three_inputs_start))))
           1 2 eq_refl eq_refl).
Defined.

End OrderExamples.

(** ** Recipes that are ready to run *)

Lemma dict_get_input_records (nb : Z) (l : list string) : forall s k,
  dict_get (map (Sequential.input_record_of nb) (enumerate_from s l)) k =
  if s <=? k
  then option_map (fun u => {| url := u; processed := k <? nb |})
                  (nth_error l (Z.to_nat (k - s)))
  else None.
Proof.
  induction l as [|u l IH]; intros s k.
  - cbn. destruct (s <=? k); [|reflexivity]. now destruct (Z.to_nat (k - s)).
  - cbn [enumerate_from map dict_get Sequential.input_record_of fst snd
         key_eqb Z_Key].
    destruct (Z.eqb_spec k s) as [->|N].
    + rewrite Z.leb_refl, Z.sub_diag. reflexivity.
    + rewrite IH. destruct (Z.leb_spec s k), (Z.leb_spec (s + 1) k); try lia.
      * replace (Z.to_nat (k - s)) with (S (Z.to_nat (k - (s + 1)))) by lia.
        reflexivity.
      * reflexivity.
Qed.

Module ReadyRecipes.
Section Facts.
Context {X : XarrayLib}.
#[local] Existing Instance Sequential.variant.
#[local] Existing Instance MultiVar.variant.

Lemma sequential_sequence_len_Ok c P I (r : Sequential.Self) :
  Sequential.post_init c P I = Ok r -> exists n, sequence_len r = Ok n.
Proof.
  intros E. cbn [sequence_len Sequential.variant].
  rewrite nitems_of_all_chunks by (eapply SequentialChunks.chunks_NoDup; eassumption).
  eexists. reflexivity.
Qed.

(** X23. A sequential recipe built by its constructor (with
    [inputs_per_chunk >= 1]) is ready to run in every world that supplies
    both stores, has the processed locations in the cache and lets the new
    locations be opened. *)
Theorem sequential_recipe_is_ready c P I (r : Sequential.Self) (w : World) :
  Sequential.post_init c P I = Ok r -> 1 <= inputs_per_chunk c ->
  input_cache w <> None -> target w <> None ->
  (forall u, In u P -> is_cached w u = true) ->
  (forall u, In u I -> source_opens w (fsspec_open_kwargs c) u = true) ->
  ready r w = true.
Proof.
  intros E Hs Hc Ht HP HI.
  destruct (SequentialFacts.post_init_Ok _ _ _ _ E)
    as (_ & Ec & _ & Ein & Ech & Einit & _).
  unfold ready. rewrite !andb_true_iff. repeat split.
  - apply forallb_forall. intros [ck inputs] Iin. cbn [snd].
    apply forallb_forall. intros k Ik.
    assert (Kk : In k (map fst (enumerate (P ++ I)))).
    { rewrite <- (chunked_iterable_concat _ _ Hs). apply in_concat.
      exists inputs. split; [|exact Ik]. rewrite Ech in Iin.
      apply in_map with (f := snd) in Iin. unfold enumerate in Iin at 1.
      now rewrite enumerate_from_snd in Iin. }
    rewrite enumerate_keys in Kk. apply in_map_iff in Kk.
    destruct Kk as (i & <- & Hi). apply in_seq in Hi.
    unfold input_ready. rewrite Ein. unfold enumerate.
    rewrite dict_get_input_records. cbn [Z.leb]. rewrite Z.sub_0_r, Nat2Z.id.
    destruct (Z.leb_spec 0 (Z.of_nat i)); [|lia].
    destruct (nth_error (P ++ I) i) as [u|] eqn:En;
      [|apply nth_error_None in En; lia].
    cbn [option_map processed url]. rewrite Ec.
    destruct (Z.ltb_spec (Z.of_nat i) (Z.of_nat (length P))).
    + apply HP. rewrite nth_error_app1 in En by lia.
      now apply nth_error_In in En.
    + apply HI. rewrite nth_error_app2 in En by lia.
      now apply nth_error_In in En.
  - apply forallb_forall. intros ck Ick. apply mem_In. rewrite Einit in Ick.
    destruct (iter_chunks r) as [|first rest]; [destruct Ick|].
    destruct Ick as [<-|[]]. now left.
  - now destruct (input_cache w).
  - now destruct (target w).
  - destruct (sequential_sequence_len_Ok c P I r E) as (n & ->). reflexivity.
Qed.

(** X24. A multi-variable recipe built by its constructor (with
    [inputs_per_chunk >= 1]) is ready to run in every world that supplies
    both stores and lets the location of every input be opened. *)
Theorem multi_variable_recipe_is_ready c p (r : MultiVar.Self) (w : World) :
  MultiVar.post_init c p = Ok r -> 1 <= inputs_per_chunk c ->
  input_cache w <> None -> target w <> None ->
  (forall k rec, input_record r k = Ok rec ->
     source_opens w (fsspec_open_kwargs c) (url rec) = true) ->
  ready r w = true.
Proof.
  intros E Hs Hc Ht HI.
  destruct (MultiVarFacts.multi_post_init_Ok _ _ _ E)
    as (_ & Ec & _ & _ & _ & _ & Einit).
  destruct (MultiVarFacts.nothing_processed c p r E) as (_ & U).
  unfold ready. rewrite !andb_true_iff. repeat split.
  - apply forallb_forall. intros [ck inputs] Iin. cbn [snd].
    apply forallb_forall. intros k Ik.
    assert (G : dict_get (_chunks_inputs r) ck = Some inputs).
    { apply dict_In_get; [|exact Iin].
      apply (MultiVarFacts.chunk_keys_NoDup c p r E). }
    destruct (MultiVarFacts.chunk_lookup c p r ck inputs E G)
      as (i & chunk & Iv & En & _ & ->).
    apply in_map_iff in Ik. destruct Ik as (n & <- & In_n).
    assert (Kk : In (fst ck, n) (dict_keys (_inputs r))).
    { rewrite (MultiVarChunks.inputs_layout c p r E). apply in_flat_map.
      exists (fst ck). split; [now apply unique_In|]. apply in_map.
      unfold axis_chunks in En. apply nth_error_In in En.
      rewrite <- (chunked_iterable_concat _ _ Hs). apply in_concat.
      now exists chunk. }
    unfold input_ready.
    destruct (dict_get (_inputs r) (fst ck, n)) as [rec|] eqn:Eg.
    + assert (Er : input_record r (fst ck, n) = Ok rec)
        by (unfold input_record; now rewrite Eg).
      rewrite (U _ _ Er), Ec. now apply (HI _ _ Er).
    + apply dict_get_None in Eg. contradiction.
  - apply forallb_forall. intros ck Ick. apply mem_In. rewrite Einit in Ick.
    now apply filter_In in Ick.
  - now destruct (input_cache w).
  - now destruct (target w).
Qed.
End Facts.
End ReadyRecipes.

Module ReadyExamples.
#[local] Existing Instance Sequential.variant.
#[local] Existing Instance MultiVar.variant.

Lemma sequential_recipe_is_ready_witness :
  Sequential.post_init (Demo.config 2 3 true None) ["p.nc"] ["a.nc"; "b.nc"]
    = Ok Examples.three_inputs /\
  1 <= 2 /\
  input_cache (world Examples.three_inputs_start) <> None /\
  target (world Examples.three_inputs_start) <> None /\
  (forall u, In u ["p.nc"] ->
     is_cached (world Examples.three_inputs_start) u = true) /\
  (forall u, In u ["a.nc"; "b.nc"] ->
     source_opens (world Examples.three_inputs_start) [] u = true) /\
  ready Examples.three_inputs (world Examples.three_inputs_start) = true.
Proof.
  assert (C : input_cache (world Examples.three_inputs_start) <> None)
    by discriminate.
  assert (T : target (world Examples.three_inputs_start) <> None)
    by discriminate.
  assert (HP : forall u, In u ["p.nc"] ->
                 is_cached (world Examples.three_inputs_start) u = true).
  { intros u [<-|[]]. reflexivity. }
  assert (HI : forall u, In u ["a.nc"; "b.nc"] ->
                 source_opens (world Examples.three_inputs_start) [] u = true).
  { intros u _. reflexivity. }
  split; [reflexivity|]. split; [lia|]. split; [exact C|]. split; [exact T|].
  split; [exact HP|]. split; [exact HI|].
  exact (ReadyRecipes.sequential_recipe_is_ready
           (Demo.config 2 3 true None) ["p.nc"] ["a.nc"; "b.nc"]
           Examples.three_inputs (world Examples.three_inputs_start)
           eq_refl ltac:(cbn; lia) C T HP HI).
Defined.

Lemma multi_variable_recipe_is_ready_witness :
  MultiVar.post_init (Demo.config 2 3 true None) Examples.foo_bar
    = Ok Examples.two_variables /\
  1 <= 2 /\
  input_cache (Demo.a_world [] None) <> None /\
  target (Demo.a_world [] None) <> None /\
  (forall k rec, input_record Examples.two_variables k = Ok rec ->
     source_opens (Demo.a_world [] None) [] (url rec) = true) /\
  ready Examples.two_variables (Demo.a_world [] None) = true.
Proof.
  assert (C : input_cache (Demo.a_world [] None) <> None) by discriminate.
  assert (T : target (Demo.a_world [] None) <> None) by discriminate.
  assert (HI : forall k rec, input_record Examples.two_variables k = Ok rec ->
                 source_opens (Demo.a_world [] None) [] (url rec) = true).
  { intros k rec _. reflexivity. }
  split; [reflexivity|]. split; [lia|]. split; [exact C|]. split; [exact T|].
  split; [exact HI|].
  exact (ReadyRecipes.multi_variable_recipe_is_ready
           (Demo.config 2 3 true None) Examples.foo_bar Examples.two_variables
           (Demo.a_world [] None) eq_refl ltac:(cbn; lia) C T HI).
Defined.
End ReadyExamples.

(** ** Opening inputs and chunks *)

Section OpeningFacts.
Context {X : XarrayLib} {IK CK Ext : Type} `{Key IK} `{Key CK}.
Local Abbreviation St := (PyState IK CK Ext).

(** X25. [open_input] and [open_chunk] only read: whether they return or
    raise, they change nothing but the trace, and what they return or raise
    and what they log is the same in every state with the same recipe
    object, the same remote files and the same cache; the target plays no
    part. *)
Theorem opening_only_reads (s : St) (input_key : IK) (chunk_key : CK) :
  (exists r evs, forall s' : St, agree s s' ->
     open_input input_key s' = finish r (log_to s' evs)) /\
  (exists r evs, forall s' : St, agree s s' ->
     open_chunk chunk_key s' = finish r (log_to s' evs)).
Proof.
  split.
  - exact (reads_open_input input_key s).
  - exact (reads_open_chunk chunk_key s).
Qed.
End OpeningFacts.
